(** * easy_proxies: node registry, classifiers and proxy pool

    A shallow embedding of the Go packages [store] (registry of
    subscriptions and node states), [proxypool] (selection engine),
    [node] (region detection) and of the latency classifier of the
    HTTP handler in [monitor], followed by the properties proved about
    them.

    Conventions of the embedding.
    - Go [int64] and [int] values are integers of [Z]; where the code
      does arithmetic on them the two's-complement wrap-around is
      written out with [wrap64].  Comparisons need no wrap.
    - Go [string]s are byte strings ([string] of the standard library,
      one [ascii] per byte); source literals are UTF-8, as in Go.
    - The named string types [NodeStatus], [LatencyLevel] and
      [PoolMode] stay strings: a record read from disk or a filter
      built from a query may hold any text, not only the constants.
      Type names that only rename another type are abbreviations.
    - Go pointers are [ptr]: [None] is nil, [Some l] a heap location.
      Objects live in a [Memory]; dereferencing nil panics.
    - A computation that may panic returns [option]; [None] is the
      panic.
    - Iteration over a Go map has no specified order.  The order the
      runtime picks is a parameter of every function that ranges over
      a map, constrained to enumerate each entry exactly once. *)

From Stdlib Require Import ZArith String Ascii List Lia Sorted.
From stdpp Require Import gmap strings list fin_maps.

Open Scope string_scope.
Open Scope Z_scope.

(** ** Machine integers, pointers, errors *)

Definition wrap64 (z : Z) : Z := (z + 2 ^ 63) mod 2 ^ 64 - 2 ^ 63.

Definition in_int64 (z : Z) : Prop := - 2 ^ 63 <= z < 2 ^ 63.

Abbreviation loc := positive (only parsing).

(** A Go pointer: [None] is nil. *)
Abbreviation ptr := (option positive) (only parsing).

(** The values of Go's [error] the two packages return.  [ErrMarshal]
    stands for the error [json.MarshalIndent] reports, [ErrWriteFile]
    for whatever [os.WriteFile] reports. *)
Inductive error :=
  | ErrSubscriptionNotFound
  | ErrNodeNotFound
  | ErrNoAvailableProxy
  | ErrUnauthorized
  | ErrMarshal
  | ErrWriteFile.

(** * Package store *)

Module store.

Abbreviation NodeStatus := string (only parsing).
Definition NodeStatusEnabled : NodeStatus := "enabled".
Definition NodeStatusDisabled : NodeStatus := "disabled".
Definition NodeStatusBlacklisted : NodeStatus := "blacklisted".

Abbreviation LatencyLevel := string (only parsing).
Definition LatencyLevelLow : LatencyLevel := "low".
Definition LatencyLevelMedium : LatencyLevel := "medium".
Definition LatencyLevelHigh : LatencyLevel := "high".
Definition LatencyLevelUnknown : LatencyLevel := "unknown".

Abbreviation PoolMode := string (only parsing).
Definition PoolModeSequential : PoolMode := "sequential".
Definition PoolModeRandom : PoolMode := "random".
Definition PoolModeLatencyFirst : PoolMode := "latency_first".
Definition PoolModeWeighted : PoolMode := "weighted".

(** A [time.Time] is represented by an integer time stamp: the seconds
    from the start of year 0 to the date and time the value shows in
    its own location (proleptic Gregorian calendar).  The code never
    looks into a time; the JSON encoder does, see [yearInRange]. *)
Abbreviation Time := Z (only parsing).

Module Subscription.
Record t := mk {
  ID : string;
  Name : string;
  URL : string;
  Enabled : bool;
  RefreshInterval : string;
  LastRefreshAt : Time;
  NodeCount : Z;
  LastError : string;
  CreatedAt : Time;
  UpdatedAt : Time
}.
End Subscription.
Abbreviation Subscription := Subscription.t (only parsing).

Module EnhancedNode.
Record t := mk {
  Name : string;
  URI : string;
  Port : Z;
  SubscriptionID : string;
  SubscriptionName : string;
  Region : string;
  RegionName : string;
  Latency : Z;
  LatencyLevel : LatencyLevel;
  Status : NodeStatus;
  Available : bool;
  LastCheckAt : Time;
  FailureCount : Z;
  SuccessCount : Z
}.

(** [node.Status = status] *)
Definition setStatus (status : NodeStatus) (n : t) : t :=
  mk (Name n) (URI n) (Port n) (SubscriptionID n) (SubscriptionName n)
     (Region n) (RegionName n) (Latency n) (LatencyLevel n) status
     (Available n) (LastCheckAt n) (FailureCount n) (SuccessCount n).
End EnhancedNode.
Abbreviation EnhancedNode := EnhancedNode.t (only parsing).

Module LatencyConfig.
Record t := mk {
  LowThreshold : Z;
  MediumThreshold : Z
}.
End LatencyConfig.
Abbreviation LatencyConfig := LatencyConfig.t (only parsing).

(** The objects pointers refer to: one heap per pointed-to type. *)
Record Memory := mkMemory {
  nodeObjs : gmap loc EnhancedNode;
  subObjs : gmap loc Subscription
}.

Definition derefNode (m : Memory) (p : ptr) : option EnhancedNode :=
  l ← p; nodeObjs m !! l.

Definition derefSub (m : Memory) (p : ptr) : option Subscription :=
  l ← p; subObjs m !! l.

Definition storeNode (l : loc) (n : EnhancedNode) (m : Memory) : Memory :=
  mkMemory (<[l := n]> (nodeObjs m)) (subObjs m).

Definition storeSub (l : loc) (s : Subscription) (m : Memory) : Memory :=
  mkMemory (nodeObjs m) (<[l := s]> (subObjs m)).

(** The fields of [Store] other than its lock. *)
Record Store := mkStore {
  dataDir : string;
  subscriptions : gmap string ptr;
  nodeStates : gmap string ptr;
  latencyConfig : LatencyConfig
}.

(** [storeData], the document [save] marshals: the maps by value, a
    nil pointer marshalled as null ([None]). *)
Record storeData := mkStoreData {
  Subscriptions : gmap string (option Subscription);
  NodeStates : gmap string (option EnhancedNode);
  dLatencyConfig : LatencyConfig
}.

(** What the path dataDir/store.json holds. *)
Inductive File :=
  | NoFile
  | Document (d : storeData)
  | Damaged.

(** Outcome of [os.WriteFile]: success, or an error that leaves the
    path in some state [rest] (untouched, truncated, ...). *)
Inductive WriteResult :=
  | WriteOk
  | WriteError (rest : File).

(** Everything a registry call can read or change. *)
Record Machine := mkMachine {
  memory : Memory;
  registry : Store;
  disk : File
}.

(** The thresholds of the literal in [NewStore]. *)
Definition defaultLatencyConfig : LatencyConfig :=
  LatencyConfig.mk 100 300.

(** [NewStore]: the store built by its struct literal, which is what
    [NewStore] returns when there is no saved file to load.  The
    directory creation and the best-effort [load] are not part of this
    development. *)
Definition NewStore (dir : string) : Store :=
  mkStore dir ∅ ∅ defaultLatencyConfig.

(** [Store.SetLatencyConfig] *)
Definition SetLatencyConfig (cfg : LatencyConfig) (s : Store) : Store :=
  mkStore (dataDir s) (subscriptions s) (nodeStates s) cfg.

(** [Store.GetLatencyConfig] *)
Definition GetLatencyConfig (s : Store) : LatencyConfig := latencyConfig s.

(** [Store.CalculateLatencyLevel] *)
Definition CalculateLatencyLevel (s : Store) (latencyMs : Z) : LatencyLevel :=
  let cfg := latencyConfig s in
  if latencyMs <? 0 then LatencyLevelUnknown
  else if latencyMs <=? LatencyConfig.LowThreshold cfg then LatencyLevelLow
  else if latencyMs <=? LatencyConfig.MediumThreshold cfg then LatencyLevelMedium
  else LatencyLevelHigh.

(** *** Persistence *)

(** The [storeData] literal of [save]: the document to encode. *)
Definition marshal (s : Machine) : storeData :=
  mkStoreData (derefSub (memory s) <$> subscriptions (registry s))
              (derefNode (memory s) <$> nodeStates (registry s))
              (latencyConfig (registry s)).

(** The first second of year 10000: 10000 Gregorian years are 25
    cycles of 146097 days. *)
Definition yearTenThousand : Time := 25 * 146097 * 86400.

(** [Time.MarshalJSON], which the encoder calls on every time of the
    document, refuses a year outside 0..9999. *)
Definition yearInRange (t : Time) : bool :=
  (0 <=? t) && (t <? yearTenThousand).

(** The times of one subscription entry; null holds none. *)
Definition subscriptionEncodes (sub : option Subscription) : bool :=
  match sub with
  | None => true
  | Some x =>
      yearInRange (Subscription.LastRefreshAt x)
      && yearInRange (Subscription.CreatedAt x)
      && yearInRange (Subscription.UpdatedAt x)
  end.

(** The time of one node entry; [omitempty] never omits a struct, so
    [LastCheckAt] is always encoded. *)
Definition nodeEncodes (node : option EnhancedNode) : bool :=
  match node with
  | None => true
  | Some n => yearInRange (EnhancedNode.LastCheckAt n)
  end.

(** Does [json.MarshalIndent] encode the document?  Strings, integers,
    booleans, maps and null always encode; a time may not. *)
Definition encodes (d : storeData) : bool :=
  forallb subscriptionEncodes (snd <$> map_to_list (Subscriptions d))
  && forallb nodeEncodes (snd <$> map_to_list (NodeStates d)).

(** [Store.save]: without a data directory nothing is done; an
    encoding error is returned before anything is written. *)
Definition save (w : WriteResult) (s : Machine) : Machine * option error :=
  if bool_decide (dataDir (registry s) = "") then (s, None)
  else if negb (encodes (marshal s)) then (s, Some ErrMarshal)
  else match w with
       | WriteOk => (mkMachine (memory s) (registry s) (Document (marshal s)), None)
       | WriteError rest => (mkMachine (memory s) (registry s) rest, Some ErrWriteFile)
       end.

(** *** Identifiers *)

Definition letters : string := "abcdefghijklmnopqrstuvwxyz0123456789".

(** [letters[nano % int64(len(letters))]]: Go's remainder has the sign
    of the dividend, and a negative index panics. *)
Definition letterAt (nano : Z) : option ascii :=
  let i := Z.rem nano (Z.of_nat (String.length letters)) in
  if i <? 0 then None else String.get (Z.to_nat i) letters.

(** The loop of [randomString], from index [i]; [unixNano k] is the
    clock reading of iteration [k]. *)
Fixpoint randomBytes (n i : nat) (unixNano : nat → Z) : option string :=
  match n with
  | O => Some ""
  | S n' =>
      c ← letterAt (unixNano i);
      rest ← randomBytes n' (S i) unixNano;
      Some (String c rest)
  end.

Definition randomString (n : nat) (unixNano : nat → Z) : option string :=
  randomBytes n 0 unixNano.

(** [generateID]; [stamp] is [time.Now().Format("20060102150405")]. *)
Definition generateID (stamp : string) (unixNano : nat → Z) : option string :=
  suffix ← randomString 6 unixNano;
  Some (stamp ++ suffix)%string.

(** What a registry call takes from its environment. *)
Record Env := mkEnv {
  stamp : string;
  unixNano : nat → Z;
  createdAt : Time;
  updatedAt : Time;
  write : WriteResult
}.

(** *** Subscriptions *)


(** [Store.GetSubscription] *)
Definition GetSubscription (id : string) (s : Machine) : ptr * option error :=
  match subscriptions (registry s) !! id with
  | Some sub => (sub, None)
  | None => (None, Some ErrSubscriptionNotFound)
  end.

(** *** Node states *)

(** [Store.UpdateNodeState] *)
Definition UpdateNodeState (node : ptr) (s : Machine) : option Machine :=
  n ← derefNode (memory s) node;
  let key :=
    if bool_decide (EnhancedNode.Name n = "") then EnhancedNode.URI n
    else EnhancedNode.Name n in
  let reg := registry s in
  Some (mkMachine (memory s)
          (mkStore (dataDir reg) (subscriptions reg)
             (<[key := node]> (nodeStates reg)) (latencyConfig reg))
          (disk s)).

(** [Store.GetNodeState] *)
Definition GetNodeState (name : string) (s : Machine) : ptr * bool :=
  match nodeStates (registry s) !! name with
  | Some node => (node, true)
  | None => (None, false)
  end.

(** [Store.SetNodeStatus] *)
Definition SetNodeStatus (w : WriteResult) (name : string) (status : NodeStatus)
    (s : Machine) : option (Machine * option error) :=
  match nodeStates (registry s) !! name with
  | None => Some (s, Some ErrNodeNotFound)
  | Some node =>
      l ← node;
      n ← nodeObjs (memory s) !! l;
      Some (save w (mkMachine (storeNode l (EnhancedNode.setStatus status n) (memory s))
                      (registry s) (disk s)))
  end.

(** *** Listings

    Each listing is one [for _, node := range s.nodeStates] loop that
    appends the nodes passing a test.  [rangeMap] is the order in which
    the runtime enumerates the map. *)

Section listings.

Variable rangeMap : gmap string ptr → list (string * ptr).

(** The loop body shared by the four listings: dereference, test,
    append. *)
Fixpoint appendIf (m : Memory) (test : EnhancedNode → bool)
    (entries : list (string * ptr)) (result : list ptr) : option (list ptr) :=
  match entries with
  | [] => Some result
  | (_, node) :: rest =>
      n ← derefNode m node;
      appendIf m test rest (if test n then (result ++ [node])%list else result)
  end.

(** [node.Status == NodeStatusEnabled && node.Available] *)
Definition enabledAndAvailable (n : EnhancedNode) : bool :=
  bool_decide (EnhancedNode.Status n = NodeStatusEnabled) && EnhancedNode.Available n.

(** [Store.ListNodesByLatency] *)
Definition ListNodesByLatency (level : LatencyLevel) (s : Machine) : option (list ptr) :=
  appendIf (memory s)
    (λ n, bool_decide (EnhancedNode.LatencyLevel n = level) && enabledAndAvailable n)
    (rangeMap (nodeStates (registry s))) [].

(** [Store.ListNodesByRegion] *)
Definition ListNodesByRegion (region : string) (s : Machine) : option (list ptr) :=
  appendIf (memory s)
    (λ n, bool_decide (EnhancedNode.Region n = region) && enabledAndAvailable n)
    (rangeMap (nodeStates (registry s))) [].

(** [Store.ListNodesBySubscription] *)
Definition ListNodesBySubscription (subID : string) (s : Machine) : option (list ptr) :=
  appendIf (memory s)
    (λ n, bool_decide (EnhancedNode.SubscriptionID n = subID)
          && bool_decide (EnhancedNode.Status n = NodeStatusEnabled))
    (rangeMap (nodeStates (registry s))) [].

(** [Store.ListAvailableNodes] *)
Definition ListAvailableNodes (s : Machine) : option (list ptr) :=
  appendIf (memory s) enabledAndAvailable (rangeMap (nodeStates (registry s))) [].

(** The loop of the two groupings:
    [result[key] = append(result[key], node)] for the nodes that are
    enabled and available. *)
Fixpoint groupBy (m : Memory) (key : EnhancedNode → string)
    (entries : list (string * ptr)) (result : gmap string (list ptr))
    : option (gmap string (list ptr)) :=
  match entries with
  | [] => Some result
  | (_, node) :: rest =>
      n ← derefNode m node;
      groupBy m key rest
        (if enabledAndAvailable n
         then <[key n := (default [] (result !! key n) ++ [node])%list]> result
         else result)
  end.

(** [Store.GetGroupedByLatency] *)
Definition GetGroupedByLatency (s : Machine) : option (gmap string (list ptr)) :=
  groupBy (memory s) EnhancedNode.LatencyLevel (rangeMap (nodeStates (registry s))) ∅.

(** [Store.GetGroupedByRegion] *)
Definition GetGroupedByRegion (s : Machine) : option (gmap string (list ptr)) :=
  groupBy (memory s)
    (λ n, if bool_decide (EnhancedNode.Region n = "") then "unknown" else EnhancedNode.Region n)
    (rangeMap (nodeStates (registry s))) ∅.

End listings.

(** *** The remaining registry operations *)

(** [Store.UpdateSubscription]: [updatedAt e] is its [time.Now()]. *)
Definition UpdateSubscription (e : Env) (sub : ptr) (s : Machine)
    : option (Machine * option error) :=
  l ← sub;
  old ← subObjs (memory s) !! l;
  match subscriptions (registry s) !! Subscription.ID old with
  | None => Some (s, Some ErrSubscriptionNotFound)
  | Some _ =>
      let new :=
        Subscription.mk (Subscription.ID old) (Subscription.Name old) (Subscription.URL old)
          (Subscription.Enabled old) (Subscription.RefreshInterval old)
          (Subscription.LastRefreshAt old) (Subscription.NodeCount old)
          (Subscription.LastError old) (Subscription.CreatedAt old) (updatedAt e) in
      let reg := registry s in
      Some (save (write e)
              (mkMachine (storeSub l new (memory s))
                 (mkStore (dataDir reg) (<[Subscription.ID old := sub]> (subscriptions reg))
                    (nodeStates reg) (latencyConfig reg))
                 (disk s)))
  end.

(** [Store.DeleteSubscription] *)
Definition DeleteSubscription (w : WriteResult) (id : string) (s : Machine)
    : Machine * option error :=
  match subscriptions (registry s) !! id with
  | None => (s, Some ErrSubscriptionNotFound)
  | Some _ =>
      let reg := registry s in
      save w (mkMachine (memory s)
                (mkStore (dataDir reg) (delete id (subscriptions reg))
                   (nodeStates reg) (latencyConfig reg))
                (disk s))
  end.

(** [Store.ListSubscriptions]; [rangeMap] is the order in which the
    runtime enumerates the map. *)
Definition ListSubscriptions (rangeMap : gmap string ptr → list (string * ptr))
    (s : Machine) : list ptr :=
  snd <$> rangeMap (subscriptions (registry s)).


(** What [load] can report: the error of [os.ReadFile] or that of
    [json.Unmarshal]. *)
Inductive loadError :=
  | ErrReadFile
  | ErrUnmarshal.

(** [json.Unmarshal] of one map entry: null gives a nil pointer, an
    object a pointer to a newly allocated copy.  [newLoc] is the
    allocator: given the locations in use it returns the new one. *)
Definition unmarshalEntry {V : Type} (newLoc : gset positive → positive)
    (key : string) (value : option V) (acc : gmap string ptr * gmap positive V)
    : gmap string ptr * gmap positive V :=
  match value with
  | None => (<[key := None]> acc.1, acc.2)
  | Some v =>
      let l := newLoc (dom acc.2) in
      (<[key := Some l]> acc.1, <[l := v]> acc.2)
  end.

(** [json.Unmarshal] of one map of the document into a new Go map. *)
Definition unmarshalMap {V : Type} (newLoc : gset positive → positive)
    (entries : gmap string (option V)) (heap : gmap positive V)
    : gmap string ptr * gmap positive V :=
  map_fold (unmarshalEntry newLoc) (∅, heap) entries.

(** [Store.load].  A [Document] is a file as [save] writes it; a
    [Damaged] file does not parse.  [readable] tells whether
    [os.ReadFile] succeeds on a file that exists. *)
Definition load (newLoc : gset positive → positive) (readable : bool) (s : Machine)
    : Machine * option loadError :=
  match disk s with
  | NoFile => (s, None)
  | Damaged => (s, Some (if readable then ErrUnmarshal else ErrReadFile))
  | Document d =>
      if readable then
        let '(subs, subHeap) := unmarshalMap newLoc (Subscriptions d) (subObjs (memory s)) in
        let '(nodes, nodeHeap) := unmarshalMap newLoc (NodeStates d) (nodeObjs (memory s)) in
        let reg := registry s in
        (mkMachine (mkMemory nodeHeap subHeap)
           (mkStore (dataDir reg) subs nodes
              (if 0 <? LatencyConfig.LowThreshold (dLatencyConfig d)
               then dLatencyConfig d else latencyConfig reg))
           (disk s),
         None)
      else (s, Some ErrReadFile)
  end.

(** What [NewStore] returns: a store, or the error of [os.MkdirAll]. *)
Inductive NewStoreResult :=
  | Created (s : Machine)
  | MkdirFailed.

(** [NewStore] in full, on a machine with memory [mem] and file
    [file]: the literal, and for a non-empty directory [os.MkdirAll]
    ([mkdir] tells whether it succeeds) and [load], whose error is
    dropped. *)
Definition NewStoreAt (newLoc : gset positive → positive) (mkdir readable : bool)
    (dir : string) (mem : Memory) (file : File) : NewStoreResult :=
  let s := mkMachine mem (NewStore dir) file in
  if bool_decide (dir ≠ "") then
    if mkdir then Created (load newLoc readable s).1 else MkdirFailed
  else Created s.

End store.

(** * Package proxypool *)

Module proxypool.
Import store.

(** The fields of [ProxyPool] other than its lock and its pointer to
    the store (the registry of the [Machine] the calls are given). *)
Record ProxyPool := mkProxyPool {
  mode : PoolMode;
  nodes : list ptr;
  currentIndex : Z;
  weights : gmap string Z;
  totalWeight : Z;
  fallbackEnabled : bool;
  apiKey : string
}.

Module Config.
Record t := mk {
  Mode : PoolMode;
  FallbackEnabled : bool;
  APIKey : string
}.
End Config.
Abbreviation Config := Config.t (only parsing).

Module Filter.
Record t := mk {
  LatencyLevel : LatencyLevel;
  Region : string;
  Subscription : string
}.
End Filter.
Abbreviation Filter := Filter.t (only parsing).

(** [NewProxyPool] *)
Definition NewProxyPool (cfg : Config) : ProxyPool :=
  mkProxyPool
    (if bool_decide (Config.Mode cfg = "") then PoolModeSequential else Config.Mode cfg)
    [] 0 ∅ 0 (Config.FallbackEnabled cfg) (Config.APIKey cfg).

(** [ProxyPool.SetMode] *)
Definition SetMode (md : PoolMode) (p : ProxyPool) : ProxyPool :=
  mkProxyPool md (nodes p) (currentIndex p) (weights p) (totalWeight p)
    (fallbackEnabled p) (apiKey p).

(** [calculateWeight] *)
Definition calculateWeight (latencyMs : Z) : Z :=
  if latencyMs <? 0 then 1
  else if latencyMs <=? 50 then 100
  else if latencyMs <=? 100 then 80
  else if latencyMs <=? 200 then 50
  else if latencyMs <=? 300 then 30
  else if latencyMs <=? 500 then 15
  else 5.

(** The loop of [updateWeights] over the remaining nodes. *)
Fixpoint addWeights (m : Memory) (ns : list ptr) (ws : gmap string Z) (total : Z)
    : option (gmap string Z * Z) :=
  match ns with
  | [] => Some (ws, total)
  | node :: rest =>
      n ← derefNode m node;
      let weight := calculateWeight (EnhancedNode.Latency n) in
      addWeights m rest (<[EnhancedNode.Name n := weight]> ws) (wrap64 (total + weight))
  end.

(** [ProxyPool.updateWeights] *)
Definition updateWeights (m : Memory) (p : ProxyPool) : option ProxyPool :=
  '(ws, total) ← addWeights m (nodes p) ∅ 0;
  Some (mkProxyPool (mode p) (nodes p) (currentIndex p) ws total
          (fallbackEnabled p) (apiKey p)).

(** [ProxyPool.RefreshNodes] *)
Definition RefreshNodes (rangeMap : gmap string ptr → list (string * ptr))
    (s : Machine) (p : ProxyPool) : option ProxyPool :=
  ns ← ListAvailableNodes rangeMap s;
  updateWeights (memory s)
    (mkProxyPool (mode p) ns (currentIndex p) (weights p) (totalWeight p)
       (fallbackEnabled p) (apiKey p)).

(** [len(l) == 0] *)
Definition isEmpty {A : Type} (l : list A) : bool :=
  match l with
  | [] => true
  | _ :: _ => false
  end.

(** The three [continue] tests of [getFilteredNodes]: does the filter
    reject the node? *)
Definition rejects (filter : Filter) (n : EnhancedNode) : bool :=
  if bool_decide (Filter.LatencyLevel filter ≠ "")
     && bool_decide (EnhancedNode.LatencyLevel n ≠ Filter.LatencyLevel filter)
  then true
  else if bool_decide (Filter.Region filter ≠ "")
          && bool_decide (EnhancedNode.Region n ≠ Filter.Region filter)
  then true
  else if bool_decide (Filter.Subscription filter ≠ "")
          && bool_decide (EnhancedNode.SubscriptionID n ≠ Filter.Subscription filter)
          && bool_decide (EnhancedNode.SubscriptionName n ≠ Filter.Subscription filter)
  then true
  else false.

(** The loop of [getFilteredNodes]. *)
Fixpoint filterLoop (m : Memory) (filter : Filter) (ns : list ptr) (result : list ptr)
    : option (list ptr) :=
  match ns with
  | [] => Some result
  | node :: rest =>
      n ← derefNode m node;
      filterLoop m filter rest (if rejects filter n then result else (result ++ [node])%list)
  end.

(** [ProxyPool.getFilteredNodes]; a nil filter is [None]. *)
Definition getFilteredNodes (m : Memory) (p : ProxyPool) (filter : option Filter)
    : option (list ptr) :=
  match filter with
  | None => Some (nodes p)
  | Some f => filterLoop m f (nodes p) []
  end.

(** [relaxed := *filter; relaxed.LatencyLevel = level] *)
Definition withLatencyLevel (level : LatencyLevel) (filter : Filter) : Filter :=
  Filter.mk level (Filter.Region filter) (Filter.Subscription filter).

(** [ProxyPool.getFallbackNodes] *)
Definition getFallbackNodes (m : Memory) (p : ProxyPool) (filter : Filter)
    : option (list ptr) :=
  if bool_decide (Filter.LatencyLevel filter = LatencyLevelLow) then
    ns ← getFilteredNodes m p (Some (withLatencyLevel LatencyLevelMedium filter));
    if negb (isEmpty ns) then Some ns
    else getFilteredNodes m p (Some (withLatencyLevel LatencyLevelHigh filter))
  else if bool_decide (Filter.LatencyLevel filter = LatencyLevelMedium) then
    getFilteredNodes m p (Some (withLatencyLevel LatencyLevelHigh filter))
  else
    getFilteredNodes m p (Some (withLatencyLevel "" filter)).

(** [rand.Intn(n)]: panics unless [n > 0]; any value of [0, n) can come
    out, picked by the generator's draw [rnd]. *)
Definition Intn (rnd n : Z) : option Z :=
  if n <=? 0 then None else Some (rnd mod n).

(** [l[i]] for a Go [int] index: out of range panics. *)
Definition index {A : Type} (l : list A) (i : Z) : option A :=
  if i <? 0 then None else l !! Z.to_nat i.

Definition len {A : Type} (l : list A) : Z := Z.of_nat (length l).

(** [ProxyPool.selectSequential]: [currentIndex.Add(1)] stores and
    returns the incremented counter. *)
Definition selectSequential (ns : list ptr) (p : ProxyPool) : option (ptr * ProxyPool) :=
  if isEmpty ns then Some (None, p)
  else
    let added := wrap64 (currentIndex p + 1) in
    let idx := wrap64 (added - 1) in
    node ← index ns (Z.rem idx (len ns));
    Some (node, mkProxyPool (mode p) (nodes p) added (weights p) (totalWeight p)
                  (fallbackEnabled p) (apiKey p)).

(** [ProxyPool.selectRandom] *)
Definition selectRandom (rnd : Z) (ns : list ptr) : option ptr :=
  if isEmpty ns then Some None
  else i ← Intn rnd (len ns); index ns i.

(** The comparison given to [sort.Slice], on the two latencies. *)
Definition less (a b : Z) : bool :=
  if a <? 0 then false
  else if b <? 0 then true
  else a <? b.

Fixpoint insertSorted (x : ptr * Z) (l : list (ptr * Z)) : list (ptr * Z) :=
  match l with
  | [] => [x]
  | y :: l' => if less (snd y) (snd x) then y :: insertSorted x l' else x :: y :: l'
  end.

(** [copy] and [sort.Slice] of [selectLatencyFirst]: a stable insertion
    sort with the source's comparison.  Go sorts short slices by stable
    insertion too, with the same result; on long slices its sort is
    unstable and may order nodes of equal latency otherwise.  A slice
    of fewer than two nodes is never compared, hence never
    dereferenced. *)
Definition sortByLatency (m : Memory) (ns : list ptr) : option (list ptr) :=
  match ns with
  | [] | [_] => Some ns
  | _ =>
      keyed ← mapM (λ node, n ← derefNode m node; Some (node, EnhancedNode.Latency n)) ns;
      Some (fst <$> foldr insertSorted [] keyed)
  end.

(** [ProxyPool.selectLatencyFirst] *)
Definition selectLatencyFirst (rnd : Z) (m : Memory) (ns : list ptr) : option ptr :=
  if isEmpty ns then Some None
  else
    sorted ← sortByLatency m ns;
    let topN := if len sorted <? 3 then len sorted else 3 in
    i ← Intn rnd topN;
    index sorted i.

(** First loop of [selectWeighted]: the total weight of the filtered
    nodes, 1 for a name missing from the table. *)
Fixpoint sumWeights (m : Memory) (ws : gmap string Z) (ns : list ptr) (total : Z)
    : option Z :=
  match ns with
  | [] => Some total
  | node :: rest =>
      n ← derefNode m node;
      sumWeights m ws rest (wrap64 (total + default 1 (ws !! EnhancedNode.Name n)))
  end.

(** Second loop of [selectWeighted]: [Some node] when the loop returns
    [node], [None] when it runs to its end. *)
Fixpoint walkWeights (m : Memory) (ws : gmap string Z) (ns : list ptr) (r : Z)
    : option (option ptr) :=
  match ns with
  | [] => Some None
  | node :: rest =>
      n ← derefNode m node;
      let r' := wrap64 (r - default 1 (ws !! EnhancedNode.Name n)) in
      if r' <? 0 then Some (Some node) else walkWeights m ws rest r'
  end.

(** [ProxyPool.selectWeighted] *)
Definition selectWeighted (rnd : Z) (m : Memory) (p : ProxyPool) (ns : list ptr)
    : option ptr :=
  if isEmpty ns then Some None
  else
    total ← sumWeights m (weights p) ns 0;
    if total =? 0 then i ← Intn rnd (len ns); index ns i
    else
      r ← Intn rnd total;
      found ← walkWeights m (weights p) ns r;
      match found with
      | Some node => Some node
      | None => index ns 0
      end.

(** First half of [GetProxy]: the filtered nodes, replaced by those of
    the fallback when there are none, fallback is enabled and a filter
    was given. *)
Definition candidates (m : Memory) (filter : option Filter) (p : ProxyPool)
    : option (list ptr) :=
  ns ← getFilteredNodes m p filter;
  if isEmpty ns then
    match filter with
    | Some f => if fallbackEnabled p then getFallbackNodes m p f else Some ns
    | None => Some ns
    end
  else Some ns.

(** The [switch p.mode] of [GetProxy]; only the sequential strategy
    changes the pool (its rotation counter). *)
Definition selectByMode (rnd : Z) (m : Memory) (ns : list ptr) (p : ProxyPool)
    : option (ptr * ProxyPool) :=
  if bool_decide (mode p = PoolModeRandom) then
    node ← selectRandom rnd ns; Some (node, p)
  else if bool_decide (mode p = PoolModeLatencyFirst) then
    node ← selectLatencyFirst rnd m ns; Some (node, p)
  else if bool_decide (mode p = PoolModeWeighted) then
    node ← selectWeighted rnd m p ns; Some (node, p)
  else selectSequential ns p.

(** [ProxyPool.GetProxy]: the node and the error it returns, and the
    pool afterwards. *)
Definition GetProxy (rnd : Z) (m : Memory) (filter : option Filter) (p : ProxyPool)
    : option (ptr * option error * ProxyPool) :=
  ns ← candidates m filter p;
  if isEmpty ns then Some (None, Some ErrNoAvailableProxy, p)
  else '(node, p') ← selectByMode rnd m ns p; Some (node, None, p').

(** [ProxyPool.GetProxyList] *)
Definition GetProxyList (m : Memory) (filter : option Filter) (limit : Z) (p : ProxyPool)
    : option (list ptr) :=
  ns ← getFilteredNodes m p filter;
  Some (if (0 <? limit) && (limit <? len ns) then take (Z.to_nat limit) ns else ns).

(** [ProxyPool.ValidateAPIKey] *)
Definition ValidateAPIKey (key : string) (p : ProxyPool) : bool :=
  if bool_decide (apiKey p = "") then true else bool_decide (key = apiKey p).

(** [ProxyPool.GetMode] *)
Definition GetMode (p : ProxyPool) : PoolMode := mode p.

(** [ProxyPool.SetAPIKey] *)
Definition SetAPIKey (key : string) (p : ProxyPool) : ProxyPool :=
  mkProxyPool (mode p) (nodes p) (currentIndex p) (weights p) (totalWeight p)
    (fallbackEnabled p) key.

Module PoolStats.
Record t := mk {
  TotalNodes : Z;
  Mode : string;
  ByLatency : gmap string Z;
  ByRegion : gmap string Z;
  BySubscription : gmap string Z
}.
End PoolStats.
Abbreviation PoolStats := PoolStats.t (only parsing).

(** [counts[key]++] on a [map[string]int] *)
Definition increment (key : string) (counts : gmap string Z) : gmap string Z :=
  <[key := wrap64 (default 0 (counts !! key) + 1)]> counts.

(** The bucket [Stats] counts a node's region under. *)
Definition regionBucket (n : EnhancedNode) : string :=
  if bool_decide (EnhancedNode.Region n ≠ "") then EnhancedNode.Region n else "unknown".

(** The bucket [Stats] counts a node's subscription under. *)
Definition subscriptionBucket (n : EnhancedNode) : string :=
  if bool_decide (EnhancedNode.SubscriptionName n ≠ "") then EnhancedNode.SubscriptionName n
  else "manual".

(** The counting loop of [Stats]. *)
Fixpoint countNodes (m : Memory) (ns : list ptr) (stats : PoolStats) : option PoolStats :=
  match ns with
  | [] => Some stats
  | node :: rest =>
      n ← derefNode m node;
      countNodes m rest
        (PoolStats.mk (PoolStats.TotalNodes stats) (PoolStats.Mode stats)
           (increment (EnhancedNode.LatencyLevel n) (PoolStats.ByLatency stats))
           (increment (regionBucket n) (PoolStats.ByRegion stats))
           (increment (subscriptionBucket n) (PoolStats.BySubscription stats)))
  end.

(** [ProxyPool.Stats]: the statistics, and the pool it refreshed. *)
Definition Stats (rangeMap : gmap string ptr → list (string * ptr))
    (s : Machine) (p : ProxyPool) : option (PoolStats * ProxyPool) :=
  p' ← RefreshNodes rangeMap s p;
  stats ← countNodes (memory s) (nodes p')
             (PoolStats.mk (len (nodes p')) (mode p') ∅ ∅ ∅);
  Some (stats, p').

End proxypool.

(** * Package monitor: the handler's own classifier *)

Module monitor.
Import store.

(** [ProxyPoolHandler.classifyLatency]; the receiver is not used. *)
Definition classifyLatency (ms : Z) : LatencyLevel :=
  if ms <=? 0 then LatencyLevelUnknown
  else if ms <=? 100 then LatencyLevelLow
  else if ms <=? 300 then LatencyLevelMedium
  else LatencyLevelHigh.

End monitor.

(** * Package node: region detection *)

Module node.

Module RegionInfo.
Record t := mk {
  Code : string;
  Name : string;
  Flag : string
}.
End RegionInfo.
Abbreviation RegionInfo := RegionInfo.t (only parsing).

(** The zero value [RegionInfo{}]. *)
Definition noRegion : RegionInfo := RegionInfo.mk "" "" "".

(** [regionPatterns]: the entries of the map literal, in source order
    (the keys of a Go map literal are distinct). *)
Definition regionPatterns : list (string * RegionInfo) :=
  [
    ("hk", RegionInfo.mk "HK" "Hong Kong" "🇭🇰");
    ("hongkong", RegionInfo.mk "HK" "Hong Kong" "🇭🇰");
    ("hong kong", RegionInfo.mk "HK" "Hong Kong" "🇭🇰");
    ("香港", RegionInfo.mk "HK" "Hong Kong" "🇭🇰");
    ("tw", RegionInfo.mk "TW" "Taiwan" "🇹🇼");
    ("taiwan", RegionInfo.mk "TW" "Taiwan" "🇹🇼");
    ("台湾", RegionInfo.mk "TW" "Taiwan" "🇹🇼");
    ("台灣", RegionInfo.mk "TW" "Taiwan" "🇹🇼");
    ("jp", RegionInfo.mk "JP" "Japan" "🇯🇵");
    ("japan", RegionInfo.mk "JP" "Japan" "🇯🇵");
    ("日本", RegionInfo.mk "JP" "Japan" "🇯🇵");
    ("东京", RegionInfo.mk "JP" "Japan" "🇯🇵");
    ("大阪", RegionInfo.mk "JP" "Japan" "🇯🇵");
    ("kr", RegionInfo.mk "KR" "South Korea" "🇰🇷");
    ("korea", RegionInfo.mk "KR" "South Korea" "🇰🇷");
    ("韩国", RegionInfo.mk "KR" "South Korea" "🇰🇷");
    ("韓國", RegionInfo.mk "KR" "South Korea" "🇰🇷");
    ("首尔", RegionInfo.mk "KR" "South Korea" "🇰🇷");
    ("cn", RegionInfo.mk "CN" "China" "🇨🇳");
    ("china", RegionInfo.mk "CN" "China" "🇨🇳");
    ("中国", RegionInfo.mk "CN" "China" "🇨🇳");
    ("中國", RegionInfo.mk "CN" "China" "🇨🇳");
    ("上海", RegionInfo.mk "CN" "China" "🇨🇳");
    ("北京", RegionInfo.mk "CN" "China" "🇨🇳");
    ("广州", RegionInfo.mk "CN" "China" "🇨🇳");
    ("深圳", RegionInfo.mk "CN" "China" "🇨🇳");
    ("sg", RegionInfo.mk "SG" "Singapore" "🇸🇬");
    ("singapore", RegionInfo.mk "SG" "Singapore" "🇸🇬");
    ("新加坡", RegionInfo.mk "SG" "Singapore" "🇸🇬");
    ("狮城", RegionInfo.mk "SG" "Singapore" "🇸🇬");
    ("my", RegionInfo.mk "MY" "Malaysia" "🇲🇾");
    ("malaysia", RegionInfo.mk "MY" "Malaysia" "🇲🇾");
    ("马来西亚", RegionInfo.mk "MY" "Malaysia" "🇲🇾");
    ("th", RegionInfo.mk "TH" "Thailand" "🇹🇭");
    ("thailand", RegionInfo.mk "TH" "Thailand" "🇹🇭");
    ("泰国", RegionInfo.mk "TH" "Thailand" "🇹🇭");
    ("曼谷", RegionInfo.mk "TH" "Thailand" "🇹🇭");
    ("vn", RegionInfo.mk "VN" "Vietnam" "🇻🇳");
    ("vietnam", RegionInfo.mk "VN" "Vietnam" "🇻🇳");
    ("越南", RegionInfo.mk "VN" "Vietnam" "🇻🇳");
    ("ph", RegionInfo.mk "PH" "Philippines" "🇵🇭");
    ("philippines", RegionInfo.mk "PH" "Philippines" "🇵🇭");
    ("菲律宾", RegionInfo.mk "PH" "Philippines" "🇵🇭");
    ("id", RegionInfo.mk "ID" "Indonesia" "🇮🇩");
    ("indonesia", RegionInfo.mk "ID" "Indonesia" "🇮🇩");
    ("印尼", RegionInfo.mk "ID" "Indonesia" "🇮🇩");
    ("印度尼西亚", RegionInfo.mk "ID" "Indonesia" "🇮🇩");
    ("us", RegionInfo.mk "US" "United States" "🇺🇸");
    ("usa", RegionInfo.mk "US" "United States" "🇺🇸");
    ("america", RegionInfo.mk "US" "United States" "🇺🇸");
    ("美国", RegionInfo.mk "US" "United States" "🇺🇸");
    ("洛杉矶", RegionInfo.mk "US" "United States" "🇺🇸");
    ("纽约", RegionInfo.mk "US" "United States" "🇺🇸");
    ("西雅图", RegionInfo.mk "US" "United States" "🇺🇸");
    ("圣何塞", RegionInfo.mk "US" "United States" "🇺🇸");
    ("硅谷", RegionInfo.mk "US" "United States" "🇺🇸");
    ("达拉斯", RegionInfo.mk "US" "United States" "🇺🇸");
    ("芝加哥", RegionInfo.mk "US" "United States" "🇺🇸");
    ("ca", RegionInfo.mk "CA" "Canada" "🇨🇦");
    ("canada", RegionInfo.mk "CA" "Canada" "🇨🇦");
    ("加拿大", RegionInfo.mk "CA" "Canada" "🇨🇦");
    ("多伦多", RegionInfo.mk "CA" "Canada" "🇨🇦");
    ("温哥华", RegionInfo.mk "CA" "Canada" "🇨🇦");
    ("uk", RegionInfo.mk "GB" "United Kingdom" "🇬🇧");
    ("gb", RegionInfo.mk "GB" "United Kingdom" "🇬🇧");
    ("england", RegionInfo.mk "GB" "United Kingdom" "🇬🇧");
    ("britain", RegionInfo.mk "GB" "United Kingdom" "🇬🇧");
    ("英国", RegionInfo.mk "GB" "United Kingdom" "🇬🇧");
    ("伦敦", RegionInfo.mk "GB" "United Kingdom" "🇬🇧");
    ("de", RegionInfo.mk "DE" "Germany" "🇩🇪");
    ("germany", RegionInfo.mk "DE" "Germany" "🇩🇪");
    ("德国", RegionInfo.mk "DE" "Germany" "🇩🇪");
    ("法兰克福", RegionInfo.mk "DE" "Germany" "🇩🇪");
    ("fr", RegionInfo.mk "FR" "France" "🇫🇷");
    ("france", RegionInfo.mk "FR" "France" "🇫🇷");
    ("法国", RegionInfo.mk "FR" "France" "🇫🇷");
    ("巴黎", RegionInfo.mk "FR" "France" "🇫🇷");
    ("nl", RegionInfo.mk "NL" "Netherlands" "🇳🇱");
    ("netherlands", RegionInfo.mk "NL" "Netherlands" "🇳🇱");
    ("荷兰", RegionInfo.mk "NL" "Netherlands" "🇳🇱");
    ("阿姆斯特丹", RegionInfo.mk "NL" "Netherlands" "🇳🇱");
    ("ru", RegionInfo.mk "RU" "Russia" "🇷🇺");
    ("russia", RegionInfo.mk "RU" "Russia" "🇷🇺");
    ("俄罗斯", RegionInfo.mk "RU" "Russia" "🇷🇺");
    ("莫斯科", RegionInfo.mk "RU" "Russia" "🇷🇺");
    ("it", RegionInfo.mk "IT" "Italy" "🇮🇹");
    ("italy", RegionInfo.mk "IT" "Italy" "🇮🇹");
    ("意大利", RegionInfo.mk "IT" "Italy" "🇮🇹");
    ("es", RegionInfo.mk "ES" "Spain" "🇪🇸");
    ("spain", RegionInfo.mk "ES" "Spain" "🇪🇸");
    ("西班牙", RegionInfo.mk "ES" "Spain" "🇪🇸");
    ("ch", RegionInfo.mk "CH" "Switzerland" "🇨🇭");
    ("switzerland", RegionInfo.mk "CH" "Switzerland" "🇨🇭");
    ("瑞士", RegionInfo.mk "CH" "Switzerland" "🇨🇭");
    ("se", RegionInfo.mk "SE" "Sweden" "🇸🇪");
    ("sweden", RegionInfo.mk "SE" "Sweden" "🇸🇪");
    ("瑞典", RegionInfo.mk "SE" "Sweden" "🇸🇪");
    ("fi", RegionInfo.mk "FI" "Finland" "🇫🇮");
    ("finland", RegionInfo.mk "FI" "Finland" "🇫🇮");
    ("芬兰", RegionInfo.mk "FI" "Finland" "🇫🇮");
    ("no", RegionInfo.mk "NO" "Norway" "🇳🇴");
    ("norway", RegionInfo.mk "NO" "Norway" "🇳🇴");
    ("挪威", RegionInfo.mk "NO" "Norway" "🇳🇴");
    ("pl", RegionInfo.mk "PL" "Poland" "🇵🇱");
    ("poland", RegionInfo.mk "PL" "Poland" "🇵🇱");
    ("波兰", RegionInfo.mk "PL" "Poland" "🇵🇱");
    ("tr", RegionInfo.mk "TR" "Turkey" "🇹🇷");
    ("turkey", RegionInfo.mk "TR" "Turkey" "🇹🇷");
    ("土耳其", RegionInfo.mk "TR" "Turkey" "🇹🇷");
    ("au", RegionInfo.mk "AU" "Australia" "🇦🇺");
    ("australia", RegionInfo.mk "AU" "Australia" "🇦🇺");
    ("澳大利亚", RegionInfo.mk "AU" "Australia" "🇦🇺");
    ("悉尼", RegionInfo.mk "AU" "Australia" "🇦🇺");
    ("墨尔本", RegionInfo.mk "AU" "Australia" "🇦🇺");
    ("nz", RegionInfo.mk "NZ" "New Zealand" "🇳🇿");
    ("new zealand", RegionInfo.mk "NZ" "New Zealand" "🇳🇿");
    ("newzealand", RegionInfo.mk "NZ" "New Zealand" "🇳🇿");
    ("新西兰", RegionInfo.mk "NZ" "New Zealand" "🇳🇿");
    ("br", RegionInfo.mk "BR" "Brazil" "🇧🇷");
    ("brazil", RegionInfo.mk "BR" "Brazil" "🇧🇷");
    ("巴西", RegionInfo.mk "BR" "Brazil" "🇧🇷");
    ("ar", RegionInfo.mk "AR" "Argentina" "🇦🇷");
    ("argentina", RegionInfo.mk "AR" "Argentina" "🇦🇷");
    ("阿根廷", RegionInfo.mk "AR" "Argentina" "🇦🇷");
    ("ae", RegionInfo.mk "AE" "UAE" "🇦🇪");
    ("uae", RegionInfo.mk "AE" "UAE" "🇦🇪");
    ("阿联酋", RegionInfo.mk "AE" "UAE" "🇦🇪");
    ("迪拜", RegionInfo.mk "AE" "UAE" "🇦🇪");
    ("il", RegionInfo.mk "IL" "Israel" "🇮🇱");
    ("israel", RegionInfo.mk "IL" "Israel" "🇮🇱");
    ("以色列", RegionInfo.mk "IL" "Israel" "🇮🇱");
    ("in", RegionInfo.mk "IN" "India" "🇮🇳");
    ("india", RegionInfo.mk "IN" "India" "🇮🇳");
    ("印度", RegionInfo.mk "IN" "India" "🇮🇳")
  ].

(** [flagToRegion], likewise. *)
Definition flagToRegion : list (string * RegionInfo) :=
  [
    ("🇭🇰", RegionInfo.mk "HK" "Hong Kong" "🇭🇰");
    ("🇹🇼", RegionInfo.mk "TW" "Taiwan" "🇹🇼");
    ("🇯🇵", RegionInfo.mk "JP" "Japan" "🇯🇵");
    ("🇰🇷", RegionInfo.mk "KR" "South Korea" "🇰🇷");
    ("🇨🇳", RegionInfo.mk "CN" "China" "🇨🇳");
    ("🇸🇬", RegionInfo.mk "SG" "Singapore" "🇸🇬");
    ("🇲🇾", RegionInfo.mk "MY" "Malaysia" "🇲🇾");
    ("🇹🇭", RegionInfo.mk "TH" "Thailand" "🇹🇭");
    ("🇻🇳", RegionInfo.mk "VN" "Vietnam" "🇻🇳");
    ("🇵🇭", RegionInfo.mk "PH" "Philippines" "🇵🇭");
    ("🇮🇩", RegionInfo.mk "ID" "Indonesia" "🇮🇩");
    ("🇺🇸", RegionInfo.mk "US" "United States" "🇺🇸");
    ("🇨🇦", RegionInfo.mk "CA" "Canada" "🇨🇦");
    ("🇬🇧", RegionInfo.mk "GB" "United Kingdom" "🇬🇧");
    ("🇩🇪", RegionInfo.mk "DE" "Germany" "🇩🇪");
    ("🇫🇷", RegionInfo.mk "FR" "France" "🇫🇷");
    ("🇳🇱", RegionInfo.mk "NL" "Netherlands" "🇳🇱");
    ("🇷🇺", RegionInfo.mk "RU" "Russia" "🇷🇺");
    ("🇮🇹", RegionInfo.mk "IT" "Italy" "🇮🇹");
    ("🇪🇸", RegionInfo.mk "ES" "Spain" "🇪🇸");
    ("🇨🇭", RegionInfo.mk "CH" "Switzerland" "🇨🇭");
    ("🇸🇪", RegionInfo.mk "SE" "Sweden" "🇸🇪");
    ("🇫🇮", RegionInfo.mk "FI" "Finland" "🇫🇮");
    ("🇳🇴", RegionInfo.mk "NO" "Norway" "🇳🇴");
    ("🇵🇱", RegionInfo.mk "PL" "Poland" "🇵🇱");
    ("🇹🇷", RegionInfo.mk "TR" "Turkey" "🇹🇷");
    ("🇦🇺", RegionInfo.mk "AU" "Australia" "🇦🇺");
    ("🇳🇿", RegionInfo.mk "NZ" "New Zealand" "🇳🇿");
    ("🇧🇷", RegionInfo.mk "BR" "Brazil" "🇧🇷");
    ("🇦🇷", RegionInfo.mk "AR" "Argentina" "🇦🇷");
    ("🇦🇪", RegionInfo.mk "AE" "UAE" "🇦🇪");
    ("🇮🇱", RegionInfo.mk "IL" "Israel" "🇮🇱");
    ("🇮🇳", RegionInfo.mk "IN" "India" "🇮🇳")
  ].

(** One byte of [strings.ToLower]: A-Z to a-z. *)
Definition lowerByte (c : ascii) : ascii :=
  let n := nat_of_ascii c in
  if ((65 <=? n) && (n <=? 90))%nat then ascii_of_nat (n + 32) else c.

(** [strings.ToLower].  On an ASCII string Go lowers byte by byte, as
    here.  Bytes of multi-byte runes are kept, which is what Go does in
    a valid UTF-8 string for runes without a lower-case form (CJK, flag
    glyphs); labels with other non-ASCII letters are outside this
    model. *)
Fixpoint ToLower (s : string) : string :=
  match s with
  | EmptyString => EmptyString
  | String c s' => String (lowerByte c) (ToLower s')
  end.

(** [strings.Contains]: [substr] occurs in [s], byte-wise. *)
Fixpoint Contains (s substr : string) : bool :=
  if String.prefix substr s then true
  else match s with
       | EmptyString => false
       | String _ s' => Contains s' substr
       end.

(** A [for key, info := range table] loop that returns the [info] of
    the first key contained in [text]; [entries] is the table in the
    order the runtime enumerates it. *)
Fixpoint firstContained (text : string) (entries : list (string * RegionInfo))
    : option RegionInfo :=
  match entries with
  | [] => None
  | (key, info) :: rest =>
      if Contains text key then Some info else firstContained text rest
  end.

(** [DetectRegion], given the enumeration orders of its two tables. *)
Definition DetectRegion (flagOrder patternOrder : list (string * RegionInfo))
    (nodeName : string) : RegionInfo :=
  if bool_decide (nodeName = "") then noRegion
  else
    let nameLower := ToLower nodeName in
    match firstContained nodeName flagOrder with
    | Some info => info
    | None =>
        match firstContained nameLower patternOrder with
        | Some info => info
        | None => noRegion
        end
    end.

(** The entries of a table whose key occurs in [text]: the candidates
    among which the enumeration order decides. *)
Definition containedKeys (text : string) (table : list (string * RegionInfo))
    : list (string * RegionInfo) :=
  filter (λ e, Is_true (Contains text e.1)) table.

(** The loop of [GetAllRegions] over the remaining entries; [seen] is
    its [map[string]bool], used as a set. *)
Fixpoint collectRegions (entries : list (string * RegionInfo)) (seen : gset string)
    (result : list RegionInfo) : list RegionInfo :=
  match entries with
  | [] => result
  | (_, info) :: rest =>
      if bool_decide (RegionInfo.Code info ∈ seen) then collectRegions rest seen result
      else collectRegions rest ({[RegionInfo.Code info]} ∪ seen) (result ++ [info])%list
  end.

(** [GetAllRegions], given the enumeration order of [regionPatterns]. *)
Definition GetAllRegions (patternOrder : list (string * RegionInfo)) : list RegionInfo :=
  collectRegions patternOrder ∅ [].

End node.

(** * Specification-side definitions

    Written from the wording of the specification, to be compared with
    the functions embedded from the source. *)

Module spec.
Import store.

(** The fallback cascade of the specification: the latency tiers tried
    in turn once the requested tier gave no node.  The empty tier is
    "unfiltered". *)
Definition cascade (level : LatencyLevel) : list LatencyLevel :=
  if bool_decide (level = LatencyLevelLow) then [LatencyLevelMedium; LatencyLevelHigh]
  else if bool_decide (level = LatencyLevelMedium) then [LatencyLevelHigh]
  else [""].

(** The classification rule of the specification, its four cases tried
    in the order written: unknown if v < 0; low if 0 <= v <= lo; medium
    if lo < v <= md; high if v > md.  [None]: no case applies. *)
Definition classify (lo md v : Z) : option LatencyLevel :=
  if v <? 0 then Some LatencyLevelUnknown
  else if (0 <=? v) && (v <=? lo) then Some LatencyLevelLow
  else if (lo <? v) && (v <=? md) then Some LatencyLevelMedium
  else if md <? v then Some LatencyLevelHigh
  else None.

(** Try the attempts in turn and keep the first that yields a node; the
    last attempt is kept whatever it yields. *)
Fixpoint firstNonEmpty (attempts : list (option (list ptr))) : option (list ptr) :=
  match attempts with
  | [] => Some []
  | [a] => a
  | a :: rest =>
      ns ← a;
      match ns with
      | [] => firstNonEmpty rest
      | _ :: _ => Some ns
      end
  end.

End spec.

(** [n] consecutive calls of [GetProxy] with the same filter on an
    unchanged memory; [rnd k] is the generator's draw in call [k]. *)
Fixpoint GetProxyTimes (n : nat) (rnd : nat → Z) (m : store.Memory)
    (filter : option proxypool.Filter) (p : proxypool.ProxyPool)
    : option (list (ptr * option error) * proxypool.ProxyPool) :=
  match n with
  | O => Some ([], p)
  | S n' =>
      '(node, err, p') ← proxypool.GetProxy (rnd 0%nat) m filter p;
      '(results, p'') ← GetProxyTimes n' (λ k, rnd (S k)) m filter p';
      Some ((node, err) :: results, p'')
  end.

(** A node record for the worked examples: name, region, latency, tier,
    status and availability as given, the other fields at rest. *)
Definition sampleNode (name region : string) (latency : Z) (level status : string)
    (up : bool) : store.EnhancedNode :=
  store.EnhancedNode.mk name ("uri-" ++ name)%string 0 "" "" region "" latency level
    status up 0 0 0.

(** ** Notions used to state the further properties *)

(** A node satisfies a filter: every field of the filter that is not
    empty holds of the node, the subscription field by identifier or
    by name. *)
Definition satisfies (f : proxypool.Filter) (n : store.EnhancedNode) : Prop :=
  (proxypool.Filter.LatencyLevel f = ""
   ∨ store.EnhancedNode.LatencyLevel n = proxypool.Filter.LatencyLevel f) ∧
  (proxypool.Filter.Region f = ""
   ∨ store.EnhancedNode.Region n = proxypool.Filter.Region f) ∧
  (proxypool.Filter.Subscription f = ""
   ∨ store.EnhancedNode.SubscriptionID n = proxypool.Filter.Subscription f
   ∨ store.EnhancedNode.SubscriptionName n = proxypool.Filter.Subscription f).

(** The weight the lottery gives a node: the table's weight for its
    name, 1 when the name is not in the table or the pointer is nil. *)
Definition lotteryWeight (m : store.Memory) (ws : gmap string Z) (node : ptr) : Z :=
  match store.derefNode m node with
  | Some n => default 1 (ws !! store.EnhancedNode.Name n)
  | None => 1
  end.

(** The sum of the lottery weights of a list of nodes. *)
Definition lotteryTotal (m : store.Memory) (ws : gmap string Z) (ns : list ptr) : Z :=
  foldr (λ node acc, lotteryWeight m ws node + acc) 0 ns.

(** The latency stored for a node, if the pointer is live. *)
Definition latencyOf (m : store.Memory) (node : ptr) : option Z :=
  store.EnhancedNode.Latency <$> store.derefNode m node.

(** [better m x y]: node [y] sorts strictly before node [x] in
    [selectLatencyFirst]. *)
Definition better (m : store.Memory) (x y : ptr) : bool :=
  match latencyOf m y, latencyOf m x with
  | Some ly, Some lx => proxypool.less ly lx
  | _, _ => false
  end.

(** Two memories hold the same nodes up to their status and
    availability. *)
Definition sameButStatus (m m' : store.Memory) : Prop :=
  ∀ l, option_Forall2
         (λ n n', n' = store.EnhancedNode.mk
                         (store.EnhancedNode.Name n) (store.EnhancedNode.URI n)
                         (store.EnhancedNode.Port n) (store.EnhancedNode.SubscriptionID n)
                         (store.EnhancedNode.SubscriptionName n) (store.EnhancedNode.Region n)
                         (store.EnhancedNode.RegionName n) (store.EnhancedNode.Latency n)
                         (store.EnhancedNode.LatencyLevel n) (store.EnhancedNode.Status n')
                         (store.EnhancedNode.Available n') (store.EnhancedNode.LastCheckAt n)
                         (store.EnhancedNode.FailureCount n) (store.EnhancedNode.SuccessCount n))
         (store.nodeObjs m !! l) (store.nodeObjs m' !! l).

(** How many nodes of a list fall into a bucket. *)
Definition countIn (m : store.Memory) (bucket : store.EnhancedNode → string) (key : string)
    (ns : list ptr) : Z :=
  Z.of_nat (length (filter (λ node, bucket <$> store.derefNode m node = Some key) ns)).

(** * Properties *)

Import store proxypool.

(** ** Latency classification *)

Section latency.

Local Open Scope Z_scope.

Lemma CalculateLatencyLevel_cascade (s : Store) (v : Z) :
  CalculateLatencyLevel s v =
    if decide (v < 0) then LatencyLevelUnknown
    else if decide (v <= LatencyConfig.LowThreshold (latencyConfig s)) then LatencyLevelLow
    else if decide (v <= LatencyConfig.MediumThreshold (latencyConfig s)) then LatencyLevelMedium
    else LatencyLevelHigh.
Proof.
  unfold CalculateLatencyLevel. cbv zeta.
  repeat case_decide;
    repeat match goal with
           | |- context [?a <? ?b] => destruct (Z.ltb_spec a b); try lia
           | |- context [?a <=? ?b] => destruct (Z.leb_spec a b); try lia
           end; reflexivity.
Qed.

(** C2: for every latency v and every store whose thresholds are
    lo <= md, the classifier returns what the rule of the specification
    gives, its cases taken in the order written: unknown if v < 0;
    otherwise low if v <= lo; otherwise medium if lo < v <= md;
    otherwise high, which is when v > md.  Some case always applies.
    With thresholds that are not negative -- the only ones the program
    configures -- the four ranges are disjoint and each holds as
    written. *)
Theorem CalculateLatencyLevel_tiers (s : Store) (v lo md : Z) :
  latencyConfig s = LatencyConfig.mk lo md →
  lo <= md →
  let level := CalculateLatencyLevel s v in
  spec.classify lo md v = Some level ∧
  (v < 0 → level = LatencyLevelUnknown) ∧
  (0 <= v <= lo → level = LatencyLevelLow) ∧
  (0 <= v ∧ lo < v <= md → level = LatencyLevelMedium) ∧
  (0 <= v ∧ md < v → level = LatencyLevelHigh) ∧
  (0 <= lo →
   (lo < v <= md → level = LatencyLevelMedium) ∧
   (md < v → level = LatencyLevelHigh)).
Proof.
  intros Hcfg Hle level. subst level. rewrite CalculateLatencyLevel_cascade, Hcfg. simpl.
  split.
  - unfold spec.classify.
    repeat match goal with
           | |- context [?a <? ?b] => destruct (Z.ltb_spec a b)
           | |- context [?a <=? ?b] => destruct (Z.leb_spec a b)
           end; simpl; repeat case_decide; try lia; reflexivity.
  - repeat split; intros; repeat case_decide; try lia; reflexivity.
Qed.

Lemma CalculateLatencyLevel_tiers_witness :
  let s := SetLatencyConfig (LatencyConfig.mk 80 250) (NewStore "") in
  CalculateLatencyLevel s (-1) = LatencyLevelUnknown ∧
  CalculateLatencyLevel s 80 = LatencyLevelLow ∧
  CalculateLatencyLevel s 81 = LatencyLevelMedium ∧
  CalculateLatencyLevel s 251 = LatencyLevelHigh.
Proof.
  intros s. split; [| split; [| split]].
  - destruct (CalculateLatencyLevel_tiers s (-1) 80 250 eq_refl ltac:(lia))
      as (_ & H & _). apply H. lia.
  - destruct (CalculateLatencyLevel_tiers s 80 80 250 eq_refl ltac:(lia))
      as (_ & _ & H & _). apply H. lia.
  - destruct (CalculateLatencyLevel_tiers s 81 80 250 eq_refl ltac:(lia))
      as (_ & _ & _ & H & _). apply H. lia.
  - destruct (CalculateLatencyLevel_tiers s 251 80 250 eq_refl ltac:(lia))
      as (_ & _ & _ & _ & H & _). apply H. lia.
Defined.

(** C10, as stated, fails at the boundary 0: the handler answers
    "unknown" where the store, at its default thresholds, answers
    "low". *)
Lemma classifyLatency_differs_at_zero :
  ¬ (∀ (v : Z) (dir : string),
       monitor.classifyLatency v = CalculateLatencyLevel (NewStore dir) v).
Proof.
  intros H. specialize (H 0 ""). discriminate H.
Qed.

(** C10 (amended): at the default thresholds (100, 300) of a new store
    the handler's classifier and the store's agree on every latency
    other than 0; at 0 the handler returns unknown and the store
    returns low. *)
Theorem classifyLatency_CalculateLatencyLevel (dir : string) :
  GetLatencyConfig (NewStore dir) = LatencyConfig.mk 100 300 ∧
  (∀ v : Z, v ≠ 0 →
     monitor.classifyLatency v = CalculateLatencyLevel (NewStore dir) v) ∧
  monitor.classifyLatency 0 = LatencyLevelUnknown ∧
  CalculateLatencyLevel (NewStore dir) 0 = LatencyLevelLow.
Proof.
  split; [reflexivity |]. split; [| split; reflexivity].
  intros v Hv. rewrite CalculateLatencyLevel_cascade. simpl.
  unfold monitor.classifyLatency.
  repeat case_decide;
    repeat match goal with
           | |- context [?a <=? ?b] => destruct (Z.leb_spec a b); try lia
           end; reflexivity.
Qed.

Lemma classifyLatency_CalculateLatencyLevel_witness :
  monitor.classifyLatency 250 = CalculateLatencyLevel (NewStore "data") 250.
Proof.
  apply (classifyLatency_CalculateLatencyLevel "data"). lia.
Defined.

End latency.

(** ** Weights *)

Section weight.

Local Open Scope Z_scope.

(** C4, as stated, fails: a negative (unknown) latency has weight 1,
    below the weight of every measured latency above it. *)
Lemma calculateWeight_not_monotone :
  ¬ (∀ a b : Z, a <= b → calculateWeight a >= calculateWeight b).
Proof.
  intros H. specialize (H (-1) 0 ltac:(lia)). vm_compute in H. apply H. reflexivity.
Qed.

Lemma calculateWeight_cascade (v : Z) :
  calculateWeight v =
    if decide (v < 0) then 1
    else if decide (v <= 50) then 100
    else if decide (v <= 100) then 80
    else if decide (v <= 200) then 50
    else if decide (v <= 300) then 30
    else if decide (v <= 500) then 15
    else 5.
Proof.
  unfold calculateWeight.
  repeat case_decide;
    repeat match goal with
           | |- context [?a <? ?b] => destruct (Z.ltb_spec a b); try lia
           | |- context [?a <=? ?b] => destruct (Z.leb_spec a b); try lia
           end; reflexivity.
Qed.

(** C4 (amended): calculateWeight is the step function latency < 0 -> 1,
    0..50 -> 100, 51..100 -> 80, 101..200 -> 50, 201..300 -> 30,
    301..500 -> 15, above 500 -> 5, and it is monotonically
    non-increasing over the measured (non-negative) latencies: for all
    0 <= a <= b, calculateWeight a >= calculateWeight b. *)
Theorem calculateWeight_steps_monotone :
  (∀ v : Z,
     (v < 0 → calculateWeight v = 1) ∧
     (0 <= v <= 50 → calculateWeight v = 100) ∧
     (50 < v <= 100 → calculateWeight v = 80) ∧
     (100 < v <= 200 → calculateWeight v = 50) ∧
     (200 < v <= 300 → calculateWeight v = 30) ∧
     (300 < v <= 500 → calculateWeight v = 15) ∧
     (500 < v → calculateWeight v = 5)) ∧
  (∀ a b : Z, 0 <= a → a <= b → calculateWeight a >= calculateWeight b).
Proof.
  split.
  - intros v. rewrite calculateWeight_cascade.
    repeat split; intros; repeat case_decide; try lia.
  - intros a b Ha Hab. rewrite !calculateWeight_cascade.
    repeat case_decide; lia.
Qed.

Lemma calculateWeight_steps_monotone_witness :
  calculateWeight 50 = 100 ∧ calculateWeight 120 >= calculateWeight 450.
Proof.
  destruct calculateWeight_steps_monotone as [Hstep Hmono]. split.
  - apply (Hstep 50). lia.
  - apply (Hmono 120 450); lia.
Defined.

End weight.

(** ** Region detection *)

Section region.

Import node.

Lemma firstContained_Some_elem text entries info :
  firstContained text entries = Some info →
  ∃ key, (key, info) ∈ entries ∧ Contains text key = true.
Proof.
  induction entries as [| [key i] rest IH]; simpl; [discriminate |].
  destruct (Contains text key) eqn:Hc.
  - intros [= ->]. exists key. split; [left | assumption].
  - intros H. destruct (IH H) as (k & Hin & Hk). exists k. split; [by right | assumption].
Qed.

Lemma firstContained_None_elem text entries key info :
  firstContained text entries = None →
  (key, info) ∈ entries → Contains text key = false.
Proof.
  induction entries as [| [k i] rest IH]; simpl; [by inversion 2 |].
  destruct (Contains text k) eqn:Hc; [discriminate |].
  intros H [[= -> ->] | Hin]%elem_of_cons; [assumption | by apply IH].
Qed.

(** Whatever the enumeration order, the loop returns the region of some
    entry whose key occurs in the text ... *)
Lemma firstContained_in_contained text order table info :
  order ≡ₚ table →
  firstContained text order = Some info →
  ∃ key, (key, info) ∈ containedKeys text table.
Proof.
  intros Hp H. destruct (firstContained_Some_elem _ _ _ H) as (key & Hin & Hc).
  exists key. apply list_elem_of_filter. split.
  - simpl. rewrite Hc. exact I.
  - by rewrite <- Hp.
Qed.

(** ... and it returns nothing exactly when there is no such entry. *)
Lemma firstContained_None_iff text order table :
  order ≡ₚ table →
  firstContained text order = None ↔ containedKeys text table = [].
Proof.
  intros Hp. split.
  - intros H. apply elem_of_nil_inv. intros [key info] Hin.
    apply list_elem_of_filter in Hin as [Hc Hin]. simpl in Hc.
    rewrite <- Hp in Hin.
    rewrite (firstContained_None_elem _ _ _ _ H Hin) in Hc. exact Hc.
  - intros Hnil. destruct (firstContained text order) as [info |] eqn:H; [| reflexivity].
    destruct (firstContained_in_contained _ _ _ _ Hp H) as (key & Hin).
    rewrite Hnil in Hin. by apply not_elem_of_nil in Hin.
Qed.

Lemma firstContained_head text key info rest :
  Contains text key = true →
  firstContained text ((key, info) :: rest) = Some info.
Proof. intros Hc. simpl. by rewrite Hc. Qed.

(** C3, as stated, fails: "Tokyo-Premium" holds no keyword of the table
    (Tokyo is listed in Chinese only), and "generic-node" holds the
    keywords "de" and "no". *)
Lemma DetectRegion_examples_fail :
  ¬ (∀ flagOrder patternOrder,
       flagOrder ≡ₚ flagToRegion → patternOrder ≡ₚ regionPatterns →
       RegionInfo.Code (DetectRegion flagOrder patternOrder "🇯🇵 Node-01") = "JP" ∧
       RegionInfo.Code (DetectRegion flagOrder patternOrder "Tokyo-Premium") = "JP" ∧
       DetectRegion flagOrder patternOrder "generic-node" = noRegion).
Proof.
  intros H.
  destruct (H flagToRegion regionPatterns ltac:(reflexivity) ltac:(reflexivity))
    as (_ & Htokyo & _).
  vm_compute in Htokyo. discriminate Htokyo.
Qed.

(** C3 (amended): whatever order the runtime enumerates the two tables
    in, DetectRegion returns code "JP" for the label with the Japanese
    flag glyph; the empty region for "Tokyo-Premium" (the table lists
    Tokyo by its Chinese name only, and a label holding that name gets
    "JP"); and for "generic-node" a non-empty region, Germany or Norway,
    since the label holds the keywords "de" and "no" -- both outcomes
    occur, depending on the enumeration order. *)
Theorem DetectRegion_examples :
  (∀ flagOrder patternOrder,
     flagOrder ≡ₚ flagToRegion → patternOrder ≡ₚ regionPatterns →
     RegionInfo.Code (DetectRegion flagOrder patternOrder "🇯🇵 Node-01") = "JP" ∧
     DetectRegion flagOrder patternOrder "Tokyo-Premium" = noRegion ∧
     RegionInfo.Code (DetectRegion flagOrder patternOrder "东京-Premium") = "JP" ∧
     (RegionInfo.Code (DetectRegion flagOrder patternOrder "generic-node") = "DE" ∨
      RegionInfo.Code (DetectRegion flagOrder patternOrder "generic-node") = "NO")) ∧
  (∃ patternOrder, patternOrder ≡ₚ regionPatterns ∧
     RegionInfo.Code (DetectRegion flagToRegion patternOrder "generic-node") = "DE") ∧
  (∃ patternOrder, patternOrder ≡ₚ regionPatterns ∧
     RegionInfo.Code (DetectRegion flagToRegion patternOrder "generic-node") = "NO").
Proof.
  split; [| split].
  - intros fo po Hf Hp. repeat split.
    + (* the flag glyph is found by the first loop *)
      unfold DetectRegion. rewrite bool_decide_eq_false_2 by discriminate.
      destruct (firstContained "🇯🇵 Node-01" fo) as [info |] eqn:E.
      * destruct (firstContained_in_contained _ _ _ _ Hf E) as (key & Hin).
        vm_compute in Hin. apply list_elem_of_singleton in Hin.
        by injection Hin as _ ->.
      * apply (firstContained_None_iff _ _ _ Hf) in E. vm_compute in E. discriminate E.
    + unfold DetectRegion. rewrite bool_decide_eq_false_2 by discriminate.
      assert (firstContained "Tokyo-Premium" fo = None) as ->
        by (by apply (firstContained_None_iff _ _ _ Hf)).
      assert (firstContained (ToLower "Tokyo-Premium") po = None) as ->
        by (by apply (firstContained_None_iff _ _ _ Hp)).
      reflexivity.
    + unfold DetectRegion. rewrite bool_decide_eq_false_2 by discriminate.
      assert (firstContained "东京-Premium" fo = None) as ->
        by (by apply (firstContained_None_iff _ _ _ Hf)).
      destruct (firstContained (ToLower "东京-Premium") po) as [info |] eqn:E.
      * destruct (firstContained_in_contained _ _ _ _ Hp E) as (key & Hin).
        vm_compute in Hin. apply list_elem_of_singleton in Hin.
        by injection Hin as _ ->.
      * apply (firstContained_None_iff _ _ _ Hp) in E. vm_compute in E. discriminate E.
    + unfold DetectRegion. rewrite bool_decide_eq_false_2 by discriminate.
      assert (firstContained "generic-node" fo = None) as ->
        by (by apply (firstContained_None_iff _ _ _ Hf)).
      destruct (firstContained (ToLower "generic-node") po) as [info |] eqn:E.
      * destruct (firstContained_in_contained _ _ _ _ Hp E) as (key & Hin).
        vm_compute in Hin.
        apply elem_of_cons in Hin as [Hin | Hin%list_elem_of_singleton].
        -- left. by injection Hin as _ ->.
        -- right. by injection Hin as _ ->.
      * apply (firstContained_None_iff _ _ _ Hp) in E. vm_compute in E. discriminate E.
  - exists regionPatterns. split; [reflexivity | by vm_compute].
  - assert (("no", RegionInfo.mk "NO" "Norway" "🇳🇴") ∈ regionPatterns) as Hin
      by (unfold regionPatterns; set_solver).
    apply elem_of_Permutation in Hin as (rest & Hrest).
    exists (("no", RegionInfo.mk "NO" "Norway" "🇳🇴") :: rest).
    split; [by symmetry |].
    unfold DetectRegion. rewrite bool_decide_eq_false_2 by discriminate.
    assert (firstContained "generic-node" flagToRegion = None) as -> by (by vm_compute).
    rewrite firstContained_head by (by vm_compute). reflexivity.
Qed.

Lemma DetectRegion_examples_witness :
  RegionInfo.Code (DetectRegion flagToRegion regionPatterns "🇯🇵 Node-01") = "JP" ∧
  DetectRegion flagToRegion regionPatterns "Tokyo-Premium" = noRegion.
Proof.
  destruct DetectRegion_examples as [H _].
  destruct (H flagToRegion regionPatterns ltac:(reflexivity) ltac:(reflexivity))
    as (Hjp & Htokyo & _).
  split; assumption.
Defined.

End region.

(** ** The registry *)

Section registry.

Local Open Scope Z_scope.

Lemma save_memory w s : memory (save w s).1 = memory s.
Proof.
  unfold save. case_bool_decide; [reflexivity |].
  destruct (encodes (marshal s)); [by destruct w | reflexivity].
Qed.

Lemma save_registry w s : registry (save w s).1 = registry s.
Proof.
  unfold save. case_bool_decide; [reflexivity |].
  destruct (encodes (marshal s)); [by destruct w | reflexivity].
Qed.



(** C7: on a key that is not in the node map SetNodeStatus fails with
    NodeNotFound and returns the machine (memory, registry maps, latency
    configuration and persisted document) as it was; on a key that maps
    to a node it sets that node's status to the given value, also when
    the write that follows fails. *)
Theorem SetNodeStatus_spec (w : WriteResult) (name : string) (status : NodeStatus)
    (s : Machine) :
  (nodeStates (registry s) !! name = None →
   SetNodeStatus w name status s = Some (s, Some ErrNodeNotFound)) ∧
  (∀ l n,
     nodeStates (registry s) !! name = Some (Some l) →
     nodeObjs (memory s) !! l = Some n →
     ∃ s' err n',
       SetNodeStatus w name status s = Some (s', err) ∧
       GetNodeState name s' = (Some l, true) ∧
       derefNode (memory s') (Some l) = Some n' ∧
       EnhancedNode.Status n' = status ∧
       n' = EnhancedNode.setStatus status n ∧
       registry s' = registry s).
Proof.
  split.
  - intros Hnone. unfold SetNodeStatus. by rewrite Hnone.
  - intros l n Hkey Hobj. unfold SetNodeStatus. rewrite Hkey. simpl. rewrite Hobj. simpl.
    set (s1 := mkMachine _ _ _).
    exists (save w s1).1, (save w s1).2, (EnhancedNode.setStatus status n).
    split; [by destruct (save w s1) |].
    unfold GetNodeState. rewrite save_registry, save_memory. subst s1. simpl.
    rewrite Hkey. repeat split; try reflexivity.
    by rewrite lookup_insert_eq.
Qed.

(** Objects and states used to exercise the theorems. *)
Lemma SetNodeStatus_spec_witness :
  let n := EnhancedNode.mk "a" "uri" 0 "s1" "S1" "JP" "Japan" 40 "low" "enabled" true 0 0 0 in
  let s := mkMachine (mkMemory {[ 1%positive := n ]} ∅)
             (mkStore "" ∅ {[ "a" := Some 1%positive ]} defaultLatencyConfig) NoFile in
  SetNodeStatus WriteOk "unknown-node" NodeStatusBlacklisted s = Some (s, Some ErrNodeNotFound) ∧
  ∃ s' err n',
    SetNodeStatus WriteOk "a" NodeStatusBlacklisted s = Some (s', err) ∧
    GetNodeState "a" s' = (Some 1%positive, true) ∧
    derefNode (memory s') (Some 1%positive) = Some n' ∧
    EnhancedNode.Status n' = NodeStatusBlacklisted ∧
    n' = EnhancedNode.setStatus NodeStatusBlacklisted n ∧
    registry s' = registry s.
Proof.
  intros n s. split.
  - apply (SetNodeStatus_spec WriteOk "unknown-node" NodeStatusBlacklisted s). reflexivity.
  - destruct (SetNodeStatus_spec WriteOk "a" NodeStatusBlacklisted s) as [_ Hset].
    apply (Hset 1%positive n); reflexivity.
Defined.







End registry.

(** ** Listings *)

Section listings.

(** The order in which the runtime enumerates a map: any order, each
    entry once. *)
Variable rangeMap : gmap string ptr → list (string * ptr).
Hypothesis rangeMap_perm : ∀ m, rangeMap m ≡ₚ map_to_list m.

Lemma rangeMap_elem (m : gmap string ptr) (k : string) (p : ptr) :
  (k, p) ∈ rangeMap m ↔ m !! k = Some p.
Proof. rewrite rangeMap_perm. apply elem_of_map_to_list. Qed.

(** The loop appends exactly the enumerated nodes that pass the test. *)
Lemma appendIf_elem m test entries acc result :
  appendIf m test entries acc = Some result →
  ∀ p, p ∈ result ↔
       p ∈ acc ∨ ∃ k n, (k, p) ∈ entries ∧ derefNode m p = Some n ∧ test n = true.
Proof.
  revert acc. induction entries as [| [k0 node] rest IH]; intros acc; simpl.
  - intros [= <-] p. split; [by left |]. intros [H | (k & n & H & _)]; [done |].
    by apply not_elem_of_nil in H.
  - destruct (derefNode m node) as [n0 |] eqn:Hd; simpl; [| discriminate].
    intros H p. rewrite (IH _ H p). clear IH H. split.
    + intros [Hacc | (k & n & Hin & Hn & Ht)].
      * destruct (test n0) eqn:Ht0; [| by left].
        apply elem_of_app in Hacc as [Hacc | ->%list_elem_of_singleton]; [by left |].
        right. exists k0, n0. split; [left | done].
      * right. exists k, n. split; [by right | done].
    + intros [Hacc | (k & n & Hin & Hn & Ht)].
      * left. destruct (test n0); [apply elem_of_app; by left | done].
      * apply elem_of_cons in Hin as [[= -> ->] | Hin].
        -- left. rewrite Hd in Hn. injection Hn as ->. rewrite Ht.
           apply elem_of_app. right. by apply list_elem_of_singleton.
        -- right. by exists k, n.
Qed.

(** The loop runs to its end when every enumerated pointer is live. *)
Lemma appendIf_is_Some m test entries acc :
  (∀ k p, (k, p) ∈ entries → is_Some (derefNode m p)) →
  is_Some (appendIf m test entries acc).
Proof.
  revert acc. induction entries as [| [k0 node] rest IH]; intros acc Hlive; simpl.
  - by eexists.
  - destruct (Hlive k0 node ltac:(left)) as [n0 ->]. simpl.
    apply IH. intros k p Hin. apply (Hlive k p). by right.
Qed.

(** What a listing with test [test] returns on a registry whose
    pointers are all live. *)
Lemma listing_spec (test : EnhancedNode → bool) (s : Machine) :
  (∀ k p, nodeStates (registry s) !! k = Some p → is_Some (derefNode (memory s) p)) →
  ∃ l, appendIf (memory s) test (rangeMap (nodeStates (registry s))) [] = Some l ∧
       ∀ p, p ∈ l ↔
            ∃ k n, nodeStates (registry s) !! k = Some p ∧
                   derefNode (memory s) p = Some n ∧ test n = true.
Proof.
  intros Hlive.
  destruct (appendIf_is_Some (memory s) test (rangeMap (nodeStates (registry s))) [])
    as [l Hl].
  { intros k p Hin. apply (Hlive k). by apply rangeMap_elem. }
  exists l. split; [exact Hl |]. intros p.
  rewrite (appendIf_elem _ _ _ _ _ Hl p). split.
  - intros [H | (k & n & Hin & Hn & Ht)]; [by apply not_elem_of_nil in H |].
    exists k, n. by rewrite <- rangeMap_elem.
  - intros (k & n & Hin & Hn & Ht). right. exists k, n. by rewrite rangeMap_elem.
Qed.

(** C8: on a registry whose map holds live nodes, ListNodesBySubscription
    returns exactly the nodes with the given subscription id and status
    enabled, whatever their availability flag; ListNodesByLatency,
    ListNodesByRegion and ListAvailableNodes return exactly the nodes
    that (match their tier, respectively region, and) have status
    enabled and are available. *)
Theorem listings_selectability (s : Machine) (subID region : string) (level : LatencyLevel) :
  (∀ k p, nodeStates (registry s) !! k = Some p → is_Some (derefNode (memory s) p)) →
  (∃ l, ListNodesBySubscription rangeMap subID s = Some l ∧
        ∀ p, p ∈ l ↔
             ∃ k n, nodeStates (registry s) !! k = Some p ∧
                    derefNode (memory s) p = Some n ∧
                    EnhancedNode.SubscriptionID n = subID ∧
                    EnhancedNode.Status n = NodeStatusEnabled) ∧
  (∃ l, ListNodesByLatency rangeMap level s = Some l ∧
        ∀ p, p ∈ l ↔
             ∃ k n, nodeStates (registry s) !! k = Some p ∧
                    derefNode (memory s) p = Some n ∧
                    EnhancedNode.LatencyLevel n = level ∧
                    EnhancedNode.Status n = NodeStatusEnabled ∧
                    EnhancedNode.Available n = true) ∧
  (∃ l, ListNodesByRegion rangeMap region s = Some l ∧
        ∀ p, p ∈ l ↔
             ∃ k n, nodeStates (registry s) !! k = Some p ∧
                    derefNode (memory s) p = Some n ∧
                    EnhancedNode.Region n = region ∧
                    EnhancedNode.Status n = NodeStatusEnabled ∧
                    EnhancedNode.Available n = true) ∧
  (∃ l, ListAvailableNodes rangeMap s = Some l ∧
        ∀ p, p ∈ l ↔
             ∃ k n, nodeStates (registry s) !! k = Some p ∧
                    derefNode (memory s) p = Some n ∧
                    EnhancedNode.Status n = NodeStatusEnabled ∧
                    EnhancedNode.Available n = true).
Proof.
  intros Hlive.
  unfold ListNodesBySubscription, ListNodesByLatency, ListNodesByRegion, ListAvailableNodes.
  repeat split.
  - destruct (listing_spec
                (λ n, bool_decide (EnhancedNode.SubscriptionID n = subID)
                      && bool_decide (EnhancedNode.Status n = NodeStatusEnabled)) s Hlive)
      as (l & Hl & Hiff).
    exists l. split; [exact Hl |]. intros p. rewrite Hiff.
    split; intros (k & n & Hk & Hn & Ht); exists k, n; repeat split; try done.
    + by apply andb_prop in Ht as [?%bool_decide_eq_true _].
    + by apply andb_prop in Ht as [_ ?%bool_decide_eq_true].
    + destruct Ht as [Hs He]. by rewrite !bool_decide_eq_true_2.
  - destruct (listing_spec
                (λ n, bool_decide (EnhancedNode.LatencyLevel n = level)
                      && enabledAndAvailable n) s Hlive) as (l & Hl & Hiff).
    exists l. split; [exact Hl |]. intros p. rewrite Hiff. unfold enabledAndAvailable.
    split; intros (k & n & Hk & Hn & Ht); exists k, n; repeat split; try done.
    + by apply andb_prop in Ht as [?%bool_decide_eq_true _].
    + by apply andb_prop in Ht as [_ [?%bool_decide_eq_true _]%andb_prop].
    + by apply andb_prop in Ht as [_ [_ ?]%andb_prop].
    + destruct Ht as (Hl' & He & Ha). by rewrite !bool_decide_eq_true_2, Ha.
  - destruct (listing_spec
                (λ n, bool_decide (EnhancedNode.Region n = region)
                      && enabledAndAvailable n) s Hlive) as (l & Hl & Hiff).
    exists l. split; [exact Hl |]. intros p. rewrite Hiff. unfold enabledAndAvailable.
    split; intros (k & n & Hk & Hn & Ht); exists k, n; repeat split; try done.
    + by apply andb_prop in Ht as [?%bool_decide_eq_true _].
    + by apply andb_prop in Ht as [_ [?%bool_decide_eq_true _]%andb_prop].
    + by apply andb_prop in Ht as [_ [_ ?]%andb_prop].
    + destruct Ht as (Hl' & He & Ha). by rewrite !bool_decide_eq_true_2, Ha.
  - destruct (listing_spec enabledAndAvailable s Hlive) as (l & Hl & Hiff).
    exists l. split; [exact Hl |]. intros p. rewrite Hiff. unfold enabledAndAvailable.
    split; intros (k & n & Hk & Hn & Ht); exists k, n; repeat split; try done.
    + by apply andb_prop in Ht as [?%bool_decide_eq_true _].
    + by apply andb_prop in Ht as [_ ?].
    + destruct Ht as (He & Ha). by rewrite !bool_decide_eq_true_2, Ha.
Qed.

End listings.

Section listings_example.

Local Open Scope Z_scope.

(** An enabled node that is not available is listed under its
    subscription and left out of the available nodes. *)
Lemma listings_selectability_witness :
  let down := EnhancedNode.mk "a" "uri-a" 0 "s1" "S1" "JP" "Japan" (-1) "unknown" "enabled" false 0 3 0 in
  let up := EnhancedNode.mk "b" "uri-b" 0 "s1" "S1" "US" "United States" 80 "low" "enabled" true 0 0 9 in
  let s := mkMachine (mkMemory (<[1%positive := down]> {[ 2%positive := up ]}) ∅)
             (mkStore "" ∅ (<["a" := Some 1%positive]> {[ "b" := Some 2%positive ]})
                defaultLatencyConfig) NoFile in
  ∃ bySub available,
    ListNodesBySubscription map_to_list "s1" s = Some bySub ∧
    ListAvailableNodes map_to_list s = Some available ∧
    Some 1%positive ∈ bySub ∧ Some 2%positive ∈ bySub ∧
    (Some 1%positive ∉ available) ∧ Some 2%positive ∈ available.
Proof.
  intros down up s.
  destruct (listings_selectability map_to_list (λ m, reflexivity _) s "s1" "US" "low")
    as ((bySub & HbySub & Hsub) & _ & _ & (available & Havailable & Hav)).
  { intros k p Hk. subst s. cbn [registry nodeStates memory] in *.
    apply lookup_insert_Some in Hk as [[<- <-] | [_ [<- <-]%lookup_singleton_Some]];
      by eexists. }
  exists bySub, available. repeat split; try assumption.
  - apply Hsub. exists "a", down. repeat split.
  - apply Hsub. exists "b", up. repeat split.
  - intros (k & n & _ & Hn & _ & Ha)%Hav. vm_compute in Hn. injection Hn as <-.
    discriminate Ha.
  - apply Hav. exists "b", up. repeat split.
Defined.

End listings_example.

(** ** The proxy pool: where selected nodes come from *)

Section pool_membership.

Local Open Scope Z_scope.

Lemma isEmpty_false {A : Type} (l : list A) : isEmpty l = false ↔ l ≠ [].
Proof. by destruct l. Qed.

Lemma isEmpty_true {A : Type} (l : list A) : isEmpty l = true ↔ l = [].
Proof. by destruct l. Qed.

Lemma index_elem {A : Type} (l : list A) (i : Z) (x : A) :
  index l i = Some x → x ∈ l.
Proof.
  unfold index. destruct (i <? 0); [discriminate |]. apply list_elem_of_lookup_2.
Qed.

(** The filtering loop keeps exactly the snapshot nodes the filter does
    not reject. *)
Lemma filterLoop_elem m f ns acc result :
  filterLoop m f ns acc = Some result →
  ∀ p, p ∈ result ↔
       p ∈ acc ∨ (p ∈ ns ∧ ∃ n, derefNode m p = Some n ∧ rejects f n = false).
Proof.
  revert acc. induction ns as [| node rest IH]; intros acc; simpl.
  - intros [= <-] p. split; [by left |]. intros [H | [H _]]; [done |].
    by apply not_elem_of_nil in H.
  - destruct (derefNode m node) as [n0 |] eqn:Hd; simpl; [| discriminate].
    intros H p. rewrite (IH _ H p). clear IH H. split.
    + intros [Hacc | (Hin & n & Hn & Hr)].
      * destruct (rejects f n0) eqn:Hr0; [by left |].
        apply elem_of_app in Hacc as [Hacc | ->%list_elem_of_singleton]; [by left |].
        right. split; [left | by exists n0].
      * right. split; [by right | by exists n].
    + intros [Hacc | (Hin & n & Hn & Hr)].
      * left. destruct (rejects f n0); [done | apply elem_of_app; by left].
      * apply elem_of_cons in Hin as [-> | Hin].
        -- left. rewrite Hd in Hn. injection Hn as ->. rewrite Hr.
           apply elem_of_app. right. by apply list_elem_of_singleton.
        -- right. split; [done | by exists n].
Qed.

Lemma filterLoop_is_Some m f ns acc :
  (∀ p, p ∈ ns → is_Some (derefNode m p)) → is_Some (filterLoop m f ns acc).
Proof.
  revert acc. induction ns as [| node rest IH]; intros acc Hlive; simpl.
  - by eexists.
  - destruct (Hlive node ltac:(left)) as [n0 ->]. simpl.
    apply IH. intros p Hin. apply Hlive. by right.
Qed.

Lemma getFilteredNodes_elem m p f result :
  getFilteredNodes m p (Some f) = Some result →
  ∀ x, x ∈ result ↔
       x ∈ nodes p ∧ ∃ n, derefNode m x = Some n ∧ rejects f n = false.
Proof.
  intros H x. rewrite (filterLoop_elem _ _ _ _ _ H x). split; [| by right].
  intros [Hnil | H']; [by apply not_elem_of_nil in Hnil | exact H'].
Qed.

Lemma getFilteredNodes_subset m p filter result :
  getFilteredNodes m p filter = Some result → ∀ x, x ∈ result → x ∈ nodes p.
Proof.
  destruct filter as [f |]; simpl.
  - intros H x Hx. by apply (getFilteredNodes_elem _ _ _ _ H x) in Hx as [Hx _].
  - by intros [= <-].
Qed.

Lemma getFallbackNodes_subset m p f result :
  getFallbackNodes m p f = Some result → ∀ x, x ∈ result → x ∈ nodes p.
Proof.
  unfold getFallbackNodes. repeat case_bool_decide.
  - destruct (getFilteredNodes m p (Some (withLatencyLevel LatencyLevelMedium f)))
      as [ns |] eqn:Hmed; [| discriminate]. cbn [mbind option_bind].
    destruct (isEmpty ns); cbn [negb].
    + apply getFilteredNodes_subset.
    + intros [= <-]. by apply (getFilteredNodes_subset _ _ _ _ Hmed).
  - apply getFilteredNodes_subset.
  - apply getFilteredNodes_subset.
Qed.

Lemma candidates_subset m filter p result :
  candidates m filter p = Some result → ∀ x, x ∈ result → x ∈ nodes p.
Proof.
  unfold candidates.
  destruct (getFilteredNodes m p filter) as [ns |] eqn:Hf; [| discriminate].
  cbn [mbind option_bind].
  destruct (isEmpty ns).
  - destruct filter as [f |]; [destruct (fallbackEnabled p) |].
    + apply getFallbackNodes_subset.
    + intros [= <-]. by apply (getFilteredNodes_subset _ _ _ _ Hf).
    + intros [= <-]. by apply (getFilteredNodes_subset _ _ _ _ Hf).
  - intros [= <-]. by apply (getFilteredNodes_subset _ _ _ _ Hf).
Qed.

Lemma selectSequential_elem ns p node p' :
  isEmpty ns = false →
  selectSequential ns p = Some (node, p') → node ∈ ns ∧ nodes p' = nodes p.
Proof.
  intros He. unfold selectSequential. rewrite He.
  destruct (index ns _) as [x |] eqn:Hi; [| discriminate]. simpl.
  intros [= <- <-]. split; [by apply index_elem in Hi | reflexivity].
Qed.

Lemma selectRandom_elem rnd ns node :
  isEmpty ns = false → selectRandom rnd ns = Some node → node ∈ ns.
Proof.
  intros He. unfold selectRandom. rewrite He.
  destruct (Intn rnd (len ns)) as [i |]; [| discriminate]. simpl. apply index_elem.
Qed.

Lemma insertSorted_perm x l : insertSorted x l ≡ₚ x :: l.
Proof.
  induction l as [| y l IH]; simpl; [reflexivity |].
  destruct (less y.2 x.2); [| reflexivity].
  rewrite IH. apply Permutation_swap.
Qed.

Lemma foldr_insertSorted_perm l : foldr insertSorted [] l ≡ₚ l.
Proof.
  induction l as [| x l IH]; simpl; [reflexivity |].
  by rewrite insertSorted_perm, IH.
Qed.

Lemma mapM_keyed_fst m ns keyed :
  mapM (λ node, n ← derefNode m node; Some (node, EnhancedNode.Latency n)) ns = Some keyed →
  keyed.*1 = ns.
Proof.
  rewrite mapM_Some. induction 1 as [| node [q lat] ns keyed Hx _ IH]; [reflexivity |].
  rewrite fmap_cons. f_equal; [| exact IH].
  destruct (derefNode m node); simpl in Hx; [| discriminate]. by injection Hx as <- _.
Qed.

(** The sort only reorders. *)
Lemma sortByLatency_perm m ns sorted :
  sortByLatency m ns = Some sorted → sorted ≡ₚ ns.
Proof.
  unfold sortByLatency. destruct ns as [| a [| b rest]]; try by intros [= <-].
  destruct (mapM _ _) as [keyed |] eqn:Hk; [| discriminate]. simpl.
  intros [= <-]. apply mapM_keyed_fst in Hk. rewrite <- Hk.
  apply fmap_Permutation, foldr_insertSorted_perm.
Qed.

Lemma selectLatencyFirst_elem rnd m ns node :
  isEmpty ns = false → selectLatencyFirst rnd m ns = Some node → node ∈ ns.
Proof.
  intros He. unfold selectLatencyFirst. rewrite He.
  destruct (sortByLatency m ns) as [sorted |] eqn:Hs; [| discriminate]. simpl.
  destruct (Intn rnd _) as [i |]; [| discriminate]. simpl.
  intros Hi%index_elem. by rewrite <- (sortByLatency_perm _ _ _ Hs).
Qed.

Lemma walkWeights_elem m ws ns r node :
  walkWeights m ws ns r = Some (Some node) → node ∈ ns.
Proof.
  revert r. induction ns as [| x rest IH]; intros r; simpl; [discriminate |].
  destruct (derefNode m x) as [n |]; [| discriminate]. simpl.
  destruct (_ <? 0).
  - intros [= <-]. left.
  - intros H. right. by apply (IH _ H).
Qed.

Lemma selectWeighted_elem rnd m p ns node :
  isEmpty ns = false → selectWeighted rnd m p ns = Some node → node ∈ ns.
Proof.
  intros He. unfold selectWeighted. rewrite He.
  destruct (sumWeights m (weights p) ns 0) as [total |]; [| discriminate]. simpl.
  destruct (total =? 0).
  - destruct (Intn rnd (len ns)) as [i |]; [| discriminate]. simpl. apply index_elem.
  - destruct (Intn rnd total) as [r |]; [| discriminate]. simpl.
    destruct (walkWeights m (weights p) ns r) as [[found |] |] eqn:Hw; simpl;
      [| apply index_elem | discriminate].
    intros [= <-]. by apply walkWeights_elem in Hw.
Qed.

(** Whatever the mode and the draw, the node selected is one of the
    candidates, and the snapshot is left as it was. *)
Lemma selectByMode_elem rnd m ns p node p' :
  isEmpty ns = false →
  selectByMode rnd m ns p = Some (node, p') → node ∈ ns ∧ nodes p' = nodes p.
Proof.
  intros He. unfold selectByMode. repeat case_bool_decide.
  - destruct (selectRandom rnd ns) as [x |] eqn:Hs; [| discriminate]. simpl.
    intros [= <- <-]. split; [by apply (selectRandom_elem rnd) | reflexivity].
  - destruct (selectLatencyFirst rnd m ns) as [x |] eqn:Hs; [| discriminate]. simpl.
    intros [= <- <-]. split; [by apply (selectLatencyFirst_elem rnd m) | reflexivity].
  - destruct (selectWeighted rnd m p ns) as [x |] eqn:Hs; [| discriminate]. simpl.
    intros [= <- <-]. split; [by apply (selectWeighted_elem rnd m p) | reflexivity].
  - by apply selectSequential_elem.
Qed.

(** [GetProxy] either reports that no proxy is available, or returns one
    of its candidates. *)
Lemma GetProxy_result rnd m filter p node err p' :
  GetProxy rnd m filter p = Some (node, err, p') →
  ∃ ns, candidates m filter p = Some ns ∧
        ((ns = [] ∧ node = None ∧ err = Some ErrNoAvailableProxy ∧ p' = p) ∨
         (ns ≠ [] ∧ node ∈ ns ∧ err = None ∧ nodes p' = nodes p)).
Proof.
  unfold GetProxy.
  destruct (candidates m filter p) as [ns |] eqn:Hc; [| discriminate].
  cbn [mbind option_bind]. intros H. exists ns. split; [reflexivity |].
  destruct (isEmpty ns) eqn:He.
  - injection H as <- <- <-. left. by apply isEmpty_true in He.
  - destruct (selectByMode rnd m ns p) as [[x q] |] eqn:Hs; [| discriminate].
    simpl in H. injection H as <- <- <-.
    destruct (selectByMode_elem _ _ _ _ _ _ He Hs) as [Hin Hq].
    right. by apply isEmpty_false in He.
Qed.

Lemma updateWeights_nodes m p p' :
  updateWeights m p = Some p' → nodes p' = nodes p.
Proof.
  unfold updateWeights.
  destruct (addWeights m (nodes p) ∅ 0) as [[ws total] |]; [| discriminate].
  by intros [= <-].
Qed.

Lemma RefreshNodes_nodes rangeMap s p p' :
  RefreshNodes rangeMap s p = Some p' →
  ListAvailableNodes rangeMap s = Some (nodes p').
Proof.
  unfold RefreshNodes.
  destruct (ListAvailableNodes rangeMap s) as [ns |]; [| discriminate]. simpl.
  intros H. apply updateWeights_nodes in H. simpl in H. by rewrite H.
Qed.

End pool_membership.

(** ** Selectability *)

Section selectability.

Local Open Scope Z_scope.

Variable rangeMap : gmap string ptr → list (string * ptr).

(** Every node of a group was enabled and available when enumerated. *)
Lemma groupBy_elem m key entries acc groups :
  groupBy m key entries acc = Some groups →
  ∀ k ns p, groups !! k = Some ns → p ∈ ns →
    (∃ ns0, acc !! k = Some ns0 ∧ p ∈ ns0) ∨
    (∃ n, derefNode m p = Some n ∧ enabledAndAvailable n = true).
Proof.
  revert acc. induction entries as [| [k0 node] rest IH]; intros acc; simpl.
  - intros [= <-] k ns p Hk Hp. left. by exists ns.
  - destruct (derefNode m node) as [n0 |] eqn:Hd; simpl; [| discriminate].
    intros H k ns p Hk Hp.
    destruct (IH _ H k ns p Hk Hp) as [(ns0 & Hacc & Hin) | Hpass]; [| by right].
    destruct (enabledAndAvailable n0) eqn:Hn0; [| left; by exists ns0].
    destruct (decide (key n0 = k)) as [<- | Hne].
    + rewrite lookup_insert_eq in Hacc. injection Hacc as <-.
      apply elem_of_app in Hin as [Hin | ->%list_elem_of_singleton].
      * destruct (acc !! key n0) as [old |] eqn:Hold; simpl in Hin.
        -- left. by exists old.
        -- by apply not_elem_of_nil in Hin.
      * right. by exists n0.
    + rewrite lookup_insert_ne in Hacc by done. left. by exists ns0.
Qed.

Lemma unselectable_not_passing (n : EnhancedNode) :
  EnhancedNode.Status n ≠ NodeStatusEnabled ∨ EnhancedNode.Available n = false →
  enabledAndAvailable n = false.
Proof.
  unfold enabledAndAvailable. intros [Hs | Ha].
  - by rewrite bool_decide_eq_false_2.
  - rewrite Ha. apply andb_false_r.
Qed.

(** C1: a node whose status is not enabled (disabled, blacklisted, ...)
    or whose availability flag is false is in no result of
    ListAvailableNodes, in no group of GetGroupedByLatency or
    GetGroupedByRegion, and is returned by no GetProxy or GetProxyList
    call on a pool whose snapshot was refreshed from that state,
    whatever the filter, the mode, the draw and the limit. *)
Theorem unselectable_never_returned (s : Machine) (l : positive) (n : EnhancedNode) :
  nodeObjs (memory s) !! l = Some n →
  EnhancedNode.Status n ≠ NodeStatusEnabled ∨ EnhancedNode.Available n = false →
  (∀ ns, ListAvailableNodes rangeMap s = Some ns → Some l ∉ ns) ∧
  (∀ groups, GetGroupedByLatency rangeMap s = Some groups →
     ∀ k ns, groups !! k = Some ns → Some l ∉ ns) ∧
  (∀ groups, GetGroupedByRegion rangeMap s = Some groups →
     ∀ k ns, groups !! k = Some ns → Some l ∉ ns) ∧
  (∀ p0 refreshed, RefreshNodes rangeMap s p0 = Some refreshed →
     ∀ p, nodes p = nodes refreshed →
       (∀ rnd filter node err p',
          GetProxy rnd (memory s) filter p = Some (node, err, p') → node ≠ Some l) ∧
       (∀ filter limit ns,
          GetProxyList (memory s) filter limit p = Some ns → Some l ∉ ns)).
Proof.
  intros Hobj Hbad. apply unselectable_not_passing in Hbad.
  assert (∀ ns, ListAvailableNodes rangeMap s = Some ns → Some l ∉ ns) as Hlist.
  { intros ns Hns Hin. unfold ListAvailableNodes in Hns.
    apply (appendIf_elem _ _ _ _ _ Hns) in Hin as [Hin | (k & n' & _ & Hn' & Hpass)].
    - by apply not_elem_of_nil in Hin.
    - simpl in Hn'. rewrite Hobj in Hn'. injection Hn' as <-. congruence. }
  assert (∀ key groups,
            groupBy (memory s) key (rangeMap (nodeStates (registry s))) ∅ = Some groups →
            ∀ k ns, groups !! k = Some ns → Some l ∉ ns) as Hgroup.
  { intros key groups Hg k ns Hk Hin.
    destruct (groupBy_elem _ _ _ _ _ Hg k ns _ Hk Hin)
      as [(ns0 & Hempty & _) | (n' & Hn' & Hpass)].
    - by rewrite lookup_empty in Hempty.
    - simpl in Hn'. rewrite Hobj in Hn'. injection Hn' as <-. congruence. }
  split; [exact Hlist |]. split; [apply Hgroup |]. split; [apply Hgroup |].
  intros p0 refreshed Hr p Hp. apply RefreshNodes_nodes in Hr. rewrite <- Hp in Hr.
  specialize (Hlist _ Hr). split.
  - intros rnd filter node err p' Hget ->.
    destruct (GetProxy_result _ _ _ _ _ _ _ Hget)
      as (ns & Hc & [(_ & Hnil & _) | (_ & Hin & _)]); [discriminate |].
    by apply (candidates_subset _ _ _ _ Hc) in Hin.
  - intros filter limit ns Hget Hin. unfold GetProxyList in Hget.
    destruct (getFilteredNodes (memory s) p filter) as [fs |] eqn:Hf; [| discriminate].
    simpl in Hget. injection Hget as <-.
    apply Hlist, (getFilteredNodes_subset _ _ _ _ Hf).
    destruct ((0 <? limit) && (limit <? len fs)); [| exact Hin].
    apply elem_of_take in Hin as (i & Hi & _). by apply list_elem_of_lookup_2 in Hi.
Qed.

End selectability.

Section selectability_example.

Local Open Scope Z_scope.

(** A blacklisted node next to an enabled one: the refreshed snapshot
    holds the enabled node only, and no selection returns the
    blacklisted one. *)
Lemma unselectable_never_returned_witness :
  let banned := EnhancedNode.mk "a" "uri-a" 0 "s1" "S1" "JP" "Japan" 40 "low" "blacklisted" true 0 0 0 in
  let up := EnhancedNode.mk "b" "uri-b" 0 "s1" "S1" "US" "United States" 80 "low" "enabled" true 0 0 9 in
  let s := mkMachine (mkMemory (<[1%positive := banned]> {[ 2%positive := up ]}) ∅)
             (mkStore "" ∅ (<["a" := Some 1%positive]> {[ "b" := Some 2%positive ]})
                defaultLatencyConfig) NoFile in
  ∃ refreshed,
    RefreshNodes map_to_list s (NewProxyPool (Config.mk "" true "")) = Some refreshed ∧
    nodes refreshed = [Some 2%positive] ∧
    GetProxy 0 (memory s) None refreshed
      = Some (Some 2%positive, None,
              mkProxyPool (mode refreshed) (nodes refreshed) 1 (weights refreshed)
                (totalWeight refreshed) (fallbackEnabled refreshed) (apiKey refreshed)) ∧
    ∀ rnd filter node err p',
      GetProxy rnd (memory s) filter refreshed = Some (node, err, p') →
      node ≠ Some 1%positive.
Proof.
  intros banned up s.
  destruct (RefreshNodes map_to_list s (NewProxyPool (Config.mk "" true ""))) as [refreshed |] eqn:Hr;
    [| by vm_compute in Hr].
  exists refreshed. split; [reflexivity |].
  assert (Hr' := Hr). vm_compute in Hr'. injection Hr' as <-.
  split; [reflexivity |]. split; [by vm_compute |].
  intros rnd filter node err p' Hget.
  destruct (unselectable_never_returned map_to_list s 1%positive banned) as (_ & _ & _ & Hpool).
  - reflexivity.
  - left. discriminate.
  - destruct (Hpool _ _ Hr _ eq_refl) as [Hsel _]. exact (Hsel _ _ _ _ _ Hget).
Defined.

End selectability_example.

(** ** Fallback *)

Section fallback.

Local Open Scope Z_scope.

(** The filter built by [getFallbackNodes] for a tier: the requested
    region and subscription, the tier replaced. *)
Lemma withLatencyLevel_fields level f :
  withLatencyLevel level f = Filter.mk level (Filter.Region f) (Filter.Subscription f).
Proof. reflexivity. Qed.

(** [getFallbackNodes] is the cascade of the specification. *)
Lemma getFallbackNodes_cascade m p f :
  getFallbackNodes m p f =
    spec.firstNonEmpty
      ((λ level, getFilteredNodes m p
                   (Some (Filter.mk level (Filter.Region f) (Filter.Subscription f))))
         <$> spec.cascade (Filter.LatencyLevel f)).
Proof.
  unfold getFallbackNodes, spec.cascade. rewrite !withLatencyLevel_fields.
  repeat case_bool_decide; try reflexivity.
  cbn [fmap list_fmap spec.firstNonEmpty].
  destruct (getFilteredNodes m p (Some (Filter.mk LatencyLevelMedium _ _))) as [ns |];
    [| reflexivity].
  cbn [mbind option_bind]. by destruct ns.
Qed.

(** A filter that ran to its end found every snapshot node live, so any
    other filter runs to its end too. *)
Lemma getFilteredNodes_live m p f result :
  getFilteredNodes m p (Some f) = Some result →
  ∀ x, x ∈ nodes p → is_Some (derefNode m x).
Proof.
  simpl. generalize (@nil ptr) as acc. induction (nodes p) as [| node rest IH]; intros acc.
  - intros _ x Hx. by apply not_elem_of_nil in Hx.
  - simpl. destruct (derefNode m node) as [n |] eqn:Hd; [| discriminate]. simpl.
    intros H x [-> | Hx]%elem_of_cons; [by eexists | by apply (IH _ H)].
Qed.

Lemma getFallbackNodes_is_Some m p f result :
  getFilteredNodes m p (Some f) = Some result → is_Some (getFallbackNodes m p f).
Proof.
  intros H. pose proof (getFilteredNodes_live _ _ _ _ H) as Hlive.
  assert (∀ g, is_Some (getFilteredNodes m p (Some g))) as Hall
    by (intros g; by apply filterLoop_is_Some).
  unfold getFallbackNodes. repeat case_bool_decide; try apply Hall.
  destruct (Hall (withLatencyLevel LatencyLevelMedium f)) as [ns ->].
  cbn [mbind option_bind]. destruct (negb (isEmpty ns)); [by eexists | apply Hall].
Qed.

Lemma wrap64_small (z : Z) : in_int64 z → wrap64 z = z.
Proof. unfold in_int64, wrap64. intros H. rewrite Z.mod_small; lia. Qed.

Lemma calculateWeight_range (v : Z) : 1 <= calculateWeight v <= 100.
Proof. rewrite calculateWeight_cascade. repeat case_decide; lia. Qed.

(** The weight table built by a refresh holds weights of the step
    function only. *)
Lemma addWeights_range m ns ws total ws' total' :
  addWeights m ns ws total = Some (ws', total') →
  (∀ k w, ws !! k = Some w → 1 <= w <= 100) →
  ∀ k w, ws' !! k = Some w → 1 <= w <= 100.
Proof.
  revert ws total. induction ns as [| node rest IH]; intros ws total; simpl.
  - by intros [= <- <-].
  - destruct (derefNode m node) as [n |]; [| discriminate]. simpl.
    intros H Hws. apply (IH _ _ H). intros k w.
    destruct (decide (EnhancedNode.Name n = k)) as [<- | Hne].
    + rewrite lookup_insert_eq. intros [= <-]. apply calculateWeight_range.
    + rewrite lookup_insert_ne by done. apply Hws.
Qed.

Lemma updateWeights_range m p p' :
  updateWeights m p = Some p' →
  ∀ k w, weights p' !! k = Some w → 1 <= w <= 100.
Proof.
  unfold updateWeights.
  destruct (addWeights m (nodes p) ∅ 0) as [[ws total] |] eqn:Ha; [| discriminate].
  intros [= <-]. simpl. apply (addWeights_range _ _ _ _ _ _ Ha).
  intros k w. by rewrite lookup_empty.
Qed.

(** On a single candidate every strategy returns that candidate,
    whatever the draw and the rotation counter. *)
Lemma selectByMode_single rnd m p l n :
  nodeObjs m !! l = Some n →
  (∀ k w, weights p !! k = Some w → 1 <= w <= 100) →
  ∃ p', selectByMode rnd m [Some l] p = Some (Some l, p').
Proof.
  intros Hobj Hw. unfold selectByMode. repeat case_bool_decide.
  - exists p. unfold selectRandom, Intn. simpl. by rewrite Z.mod_1_r.
  - exists p. unfold selectLatencyFirst, Intn. simpl. by rewrite Z.mod_1_r.
  - exists p. unfold selectWeighted. simpl. rewrite Hobj. simpl.
    set (w := default 1 (weights p !! EnhancedNode.Name n)).
    assert (1 <= w <= 100) as Hrange.
    { subst w. destruct (weights p !! EnhancedNode.Name n) as [w |] eqn:E; simpl.
      - by apply (Hw _ _ E).
      - lia. }
    rewrite Z.add_0_l, (wrap64_small w) by (unfold in_int64; lia).
    destruct (Z.eqb_spec w 0); [lia |]. unfold Intn.
    destruct (Z.leb_spec w 0); [lia |]. simpl.
    pose proof (Z.mod_pos_bound rnd w ltac:(lia)) as Hr.
    rewrite (wrap64_small (rnd mod w - w)) by (unfold in_int64; lia).
    destruct (Z.ltb_spec (rnd mod w - w) 0); [reflexivity | lia].
  - unfold selectSequential. simpl. unfold index, len. simpl.
    rewrite Z.rem_1_r. simpl. by eexists.
Qed.

End fallback.

Section fallback_claim.

Local Open Scope Z_scope.

Lemma rejects_by_level f n :
  Filter.Region f = "" → Filter.Subscription f = "" → Filter.LatencyLevel f ≠ "" →
  rejects f n = bool_decide (EnhancedNode.LatencyLevel n ≠ Filter.LatencyLevel f).
Proof.
  intros Hr Hs Hl. unfold rejects. rewrite Hr, Hs.
  rewrite (bool_decide_eq_true_2 _ Hl). simpl. by case_bool_decide.
Qed.

Lemma filterLoop_cons m f l n rest acc :
  nodeObjs m !! l = Some n →
  filterLoop m f (Some l :: rest) acc =
    filterLoop m f rest (if rejects f n then acc else (acc ++ [Some l])%list).
Proof. intros H. simpl. by rewrite H. Qed.

(** The scenario of the example, at the level of the pool: asked for a
    low-latency node when the snapshot holds a medium and a high one,
    every strategy answers with the medium node. *)
Lemma GetProxy_low_to_medium rnd m p lB lC nB nC :
  nodeObjs m !! lB = Some nB → nodeObjs m !! lC = Some nC →
  EnhancedNode.LatencyLevel nB = LatencyLevelMedium →
  EnhancedNode.LatencyLevel nC = LatencyLevelHigh →
  nodes p = [Some lB; Some lC] ∨ nodes p = [Some lC; Some lB] →
  fallbackEnabled p = true →
  (∀ k w, weights p !! k = Some w → 1 <= w <= 100) →
  ∃ p', GetProxy rnd m (Some (Filter.mk LatencyLevelLow "" "")) p
        = Some (Some lB, None, p').
Proof.
  intros HB HC HlB HlC Hnodes Hfb Hw.
  assert (∀ level, level ≠ "" →
            rejects (Filter.mk level "" "") nB = bool_decide (LatencyLevelMedium ≠ level) ∧
            rejects (Filter.mk level "" "") nC = bool_decide (LatencyLevelHigh ≠ level))
    as Hrej.
  { intros level Hne. rewrite !rejects_by_level by done. simpl. by rewrite HlB, HlC. }
  destruct (Hrej LatencyLevelLow ltac:(discriminate)) as [HBlow HClow].
  destruct (Hrej LatencyLevelMedium ltac:(discriminate)) as [HBmed HCmed].
  assert (candidates m (Some (Filter.mk LatencyLevelLow "" "")) p = Some [Some lB]) as Hc.
  { assert (getFilteredNodes m p (Some (Filter.mk LatencyLevelLow "" "")) = Some []) as Hlow.
    { unfold getFilteredNodes.
      destruct Hnodes as [-> | ->];
        repeat (rewrite (filterLoop_cons _ _ _ _ _ _ HB) || rewrite (filterLoop_cons _ _ _ _ _ _ HC));
        by rewrite HBlow, HClow. }
    assert (getFilteredNodes m p (Some (Filter.mk LatencyLevelMedium "" "")) = Some [Some lB])
      as Hmed.
    { unfold getFilteredNodes.
      destruct Hnodes as [-> | ->];
        repeat (rewrite (filterLoop_cons _ _ _ _ _ _ HB) || rewrite (filterLoop_cons _ _ _ _ _ _ HC));
        by rewrite HBmed, HCmed. }
    unfold candidates. rewrite Hlow. cbn [mbind option_bind isEmpty]. rewrite Hfb.
    unfold getFallbackNodes, withLatencyLevel.
    cbn [Filter.LatencyLevel Filter.Region Filter.Subscription].
    rewrite bool_decide_eq_true_2 by reflexivity. by rewrite Hmed. }
  unfold GetProxy. rewrite Hc. cbn [mbind option_bind isEmpty].
  destruct (selectByMode_single rnd m p lB nB HB Hw) as [p' ->]. by exists p'.
Qed.

(** C5: with fallback enabled, when the filter matches no snapshot node
    GetProxy selects among the nodes given by the fixed cascade of
    latency tiers (low: medium, then high; medium: high; any other
    tier: no latency filter), each tried with the region and
    subscription of the request unchanged; when the cascade gives no
    node either, the call fails with ErrNoAvailableProxy, and otherwise
    it returns, without error, only nodes the cascade gave.  In
    particular, on a snapshot refreshed from a registry holding exactly
    the selectable nodes B (150 ms, medium) and C (400 ms, high), a
    request for tier low with fallback enabled returns B, whatever the
    mode, the draw and the enumeration order. *)
Theorem GetProxy_fallback_cascade :
  (∀ rnd m p f,
     fallbackEnabled p = true →
     getFilteredNodes m p (Some f) = Some [] →
     ∃ relaxed,
       spec.firstNonEmpty
         ((λ level, getFilteredNodes m p
                      (Some (Filter.mk level (Filter.Region f) (Filter.Subscription f))))
            <$> spec.cascade (Filter.LatencyLevel f)) = Some relaxed ∧
       candidates m (Some f) p = Some relaxed ∧
       (relaxed = [] →
        GetProxy rnd m (Some f) p = Some (None, Some ErrNoAvailableProxy, p)) ∧
       (relaxed ≠ [] →
        ∀ node err p', GetProxy rnd m (Some f) p = Some (node, err, p') →
                       err = None ∧ node ∈ relaxed)) ∧
  (∀ (rangeMap : gmap string ptr → list (string * ptr)) rnd s p0 kB kC lB lC nB nC,
     (∀ mp, rangeMap mp ≡ₚ map_to_list mp) →
     kB ≠ kC →
     nodeStates (registry s) = <[kB := Some lB]> {[ kC := Some lC ]} →
     nodeObjs (memory s) !! lB = Some nB →
     nodeObjs (memory s) !! lC = Some nC →
     EnhancedNode.Latency nB = 150 ∧ EnhancedNode.LatencyLevel nB = LatencyLevelMedium ∧
     EnhancedNode.Status nB = NodeStatusEnabled ∧ EnhancedNode.Available nB = true →
     EnhancedNode.Latency nC = 400 ∧ EnhancedNode.LatencyLevel nC = LatencyLevelHigh ∧
     EnhancedNode.Status nC = NodeStatusEnabled ∧ EnhancedNode.Available nC = true →
     fallbackEnabled p0 = true →
     ∃ p p',
       RefreshNodes rangeMap s p0 = Some p ∧
       GetProxy rnd (memory s) (Some (Filter.mk LatencyLevelLow "" "")) p
         = Some (Some lB, None, p')).
Proof.
  split.
  - intros rnd m p f Hfb Hnone.
    destruct (getFallbackNodes_is_Some _ _ _ _ Hnone) as [relaxed Hrelaxed].
    assert (candidates m (Some f) p = Some relaxed) as Hc.
    { unfold candidates. rewrite Hnone. cbn [mbind option_bind isEmpty]. by rewrite Hfb. }
    exists relaxed. split; [by rewrite <- getFallbackNodes_cascade |].
    split; [exact Hc |]. split.
    + intros ->. unfold GetProxy. by rewrite Hc.
    + intros Hne node err p' Hget.
      destruct (GetProxy_result _ _ _ _ _ _ _ Hget) as (ns & Hns & Hcase).
      rewrite Hc in Hns. injection Hns as <-.
      destruct Hcase as [(Hnil & _) | (_ & Hin & Herr & _)]; [contradiction | done].
  - intros rangeMap rnd s p0 kB kC lB lC nB nC Hperm Hk Hmap HB HC
      (_ & HlB & HsB & HaB) (_ & HlC & HsC & HaC) Hfb.
    assert (enabledAndAvailable nB = true ∧ enabledAndAvailable nC = true) as [HpB HpC].
    { unfold enabledAndAvailable. by rewrite HsB, HaB, HsC, HaC. }
    assert (rangeMap (nodeStates (registry s)) ≡ₚ [(kB, Some lB); (kC, Some lC)]) as Hent.
    { rewrite Hperm, Hmap, map_to_list_insert by (by apply lookup_singleton_ne).
      by rewrite map_to_list_singleton. }
    assert (ListAvailableNodes rangeMap s = Some [Some lB; Some lC] ∨
            ListAvailableNodes rangeMap s = Some [Some lC; Some lB]) as Hlist.
    { unfold ListAvailableNodes. symmetry in Hent.
      apply Permutation_length_2_inv in Hent as [-> | ->]; [left | right];
        simpl; rewrite HB, HC; simpl; by rewrite HpB, HpC. }
    assert (∃ ns, ListAvailableNodes rangeMap s = Some ns ∧
                  (ns = [Some lB; Some lC] ∨ ns = [Some lC; Some lB])) as (ns & Hns & Hcase)
      by (destruct Hlist as [H | H]; eexists; (split; [exact H |]); [by left | by right]).
    destruct (updateWeights (memory s)
                (mkProxyPool (mode p0) ns (currentIndex p0) (weights p0) (totalWeight p0)
                   (fallbackEnabled p0) (apiKey p0))) as [p |] eqn:Hup.
    + exists p.
      assert (nodes p = ns) as Hnodes by (by apply updateWeights_nodes in Hup).
      assert (fallbackEnabled p = true) as Hfb'.
      { unfold updateWeights in Hup. destruct (addWeights _ _ _ _) as [[ws total] |];
          [| discriminate]. by injection Hup as <-. }
      destruct (GetProxy_low_to_medium rnd (memory s) p lB lC nB nC HB HC HlB HlC) as [p' Hget].
      * by rewrite Hnodes.
      * exact Hfb'.
      * by apply (updateWeights_range _ _ _ Hup).
      * exists p'. split; [| exact Hget]. unfold RefreshNodes. by rewrite Hns.
    + exfalso. unfold updateWeights in Hup. simpl in Hup.
      destruct Hcase as [-> | ->]; simpl in Hup; rewrite HB, HC in Hup; discriminate Hup.
Qed.

End fallback_claim.

Section fallback_example.

Local Open Scope Z_scope.

(** The example of the claim on concrete nodes, in weighted mode, and
    the cascade on a pool whose snapshot holds the same two nodes. *)
Lemma GetProxy_fallback_cascade_witness :
  let B := EnhancedNode.mk "b" "uri-b" 0 "" "" "JP" "Japan" 150 "medium" "enabled" true 0 0 0 in
  let C := EnhancedNode.mk "c" "uri-c" 0 "" "" "US" "United States" 400 "high" "enabled" true 0 0 0 in
  let m := mkMemory (<[1%positive := B]> {[ 2%positive := C ]}) ∅ in
  let s := mkMachine m
             (mkStore "" ∅ (<["b" := Some 1%positive]> {[ "c" := Some 2%positive ]})
                defaultLatencyConfig) NoFile in
  let low := Filter.mk LatencyLevelLow "" "" in
  let p1 := mkProxyPool PoolModeRandom [Some 1%positive; Some 2%positive] 0 ∅ 0 true "" in
  (∃ relaxed,
     spec.firstNonEmpty
       ((λ level, getFilteredNodes m p1
                    (Some (Filter.mk level (Filter.Region low) (Filter.Subscription low))))
          <$> spec.cascade (Filter.LatencyLevel low)) = Some relaxed ∧
     candidates m (Some low) p1 = Some relaxed ∧
     (relaxed = [] →
      GetProxy 7 m (Some low) p1 = Some (None, Some ErrNoAvailableProxy, p1)) ∧
     (relaxed ≠ [] →
      ∀ node err p', GetProxy 7 m (Some low) p1 = Some (node, err, p') →
                     err = None ∧ node ∈ relaxed)) ∧
  (∃ p p',
     RefreshNodes map_to_list s (NewProxyPool (Config.mk PoolModeWeighted true "")) = Some p ∧
     GetProxy 7 (memory s) (Some low) p = Some (Some 1%positive, None, p')).
Proof.
  intros B C m s low p1.
  destruct GetProxy_fallback_cascade as [Hcascade Hexample]. split.
  - apply (Hcascade 7 m p1 low); reflexivity.
  - apply (Hexample map_to_list 7 s (NewProxyPool (Config.mk PoolModeWeighted true ""))
             "b" "c" 1%positive 2%positive B C).
    + intros mp. reflexivity.
    + discriminate.
    + reflexivity.
    + reflexivity.
    + reflexivity.
    + repeat split.
    + repeat split.
    + reflexivity.
Defined.

End fallback_example.

(** ** Sequential rotation *)

Section rotation.

Local Open Scope Z_scope.

Lemma rotate_perm {A : Type} (k : nat) (l : list A) : rotate k l ≡ₚ l.
Proof.
  unfold rotate. rewrite Permutation_app_comm. by rewrite take_drop.
Qed.

(** The filtered list depends on the snapshot only, not on the rotation
    counter. *)
Lemma getFilteredNodes_snapshot m p p' filter :
  nodes p' = nodes p → getFilteredNodes m p' filter = getFilteredNodes m p filter.
Proof. intros H. destruct filter; simpl; by rewrite H. Qed.

(** One sequential call: the node at the counter modulo the length, and
    the counter advanced by one. *)
Lemma GetProxy_sequential_step rnd m filter p ns :
  mode p = PoolModeSequential →
  getFilteredNodes m p filter = Some ns →
  ns ≠ [] →
  0 <= currentIndex p < 2 ^ 63 - 1 →
  ∃ x p',
    GetProxy rnd m filter p = Some (x, None, p') ∧
    ns !! Z.to_nat (currentIndex p mod len ns) = Some x ∧
    mode p' = mode p ∧ nodes p' = nodes p ∧
    currentIndex p' = currentIndex p + 1.
Proof.
  intros Hmode Hf Hne Hc.
  assert (isEmpty ns = false) as He by (by apply isEmpty_false).
  assert (0 < len ns) as Hlen by (unfold len; destruct ns; [done | simpl; lia]).
  pose proof (Z.mod_pos_bound (currentIndex p) (len ns) Hlen) as Hmod.
  destruct (lookup_lt_is_Some_2 ns (Z.to_nat (currentIndex p mod len ns))) as [x Hx].
  { unfold len in *. lia. }
  exists x. eexists. split; [| split; [exact Hx |]].
  - unfold GetProxy, candidates. rewrite Hf. cbn [mbind option_bind]. rewrite He.
    cbn [mbind option_bind]. rewrite He.
    unfold selectByMode. rewrite Hmode.
    rewrite !bool_decide_eq_false_2 by discriminate.
    unfold selectSequential. rewrite He.
    rewrite (wrap64_small (currentIndex p + 1)) by (unfold in_int64; lia).
    replace (currentIndex p + 1 - 1) with (currentIndex p) by lia.
    rewrite (wrap64_small (currentIndex p)) by (unfold in_int64; lia).
    rewrite Z.rem_mod_nonneg by lia.
    unfold index. destruct (Z.ltb_spec (currentIndex p mod len ns) 0); [lia |].
    rewrite Hx. reflexivity.
  - repeat split.
Qed.

(** [n] sequential calls in a row walk the filtered list cyclically
    from the counter's position. *)
Lemma GetProxyTimes_sequential m filter ns (n : nat) :
  ns ≠ [] →
  ∀ rnd p,
    mode p = PoolModeSequential →
    getFilteredNodes m p filter = Some ns →
    0 <= currentIndex p → currentIndex p + Z.of_nat n < 2 ^ 63 →
    ∃ p',
      GetProxyTimes n rnd m filter p =
        Some ((λ i : nat,
                 (default None (ns !! Z.to_nat ((currentIndex p + Z.of_nat i) mod len ns)),
                  @None error)) <$> seq 0 n, p') ∧
      currentIndex p' = currentIndex p + Z.of_nat n.
Proof.
  intros Hne. induction n as [| n IH]; intros rnd p Hmode Hf Hc Hn.
  - exists p. split; [reflexivity | simpl; lia].
  - destruct (GetProxy_sequential_step (rnd 0%nat) m filter p ns Hmode Hf Hne ltac:(lia))
      as (x & p1 & Hget & Hx & Hmode1 & Hnodes1 & Hc1).
    destruct (IH (λ k, rnd (S k)) p1) as (p' & Htimes & Hc').
    + by rewrite Hmode1.
    + by rewrite (getFilteredNodes_snapshot _ _ _ _ Hnodes1).
    + lia.
    + lia.
    + exists p'. split; [| lia].
      cbn [GetProxyTimes]. rewrite Hget. cbn [mbind option_bind]. rewrite Htimes.
      cbn [mbind option_bind seq fmap list_fmap]. do 3 f_equal.
      * rewrite Z.add_0_r, Hx. reflexivity.
      * rewrite <- fmap_S_seq, <- list_fmap_compose. apply list_fmap_ext.
        intros i k _. unfold compose. rewrite Hc1.
        replace (currentIndex p + 1 + Z.of_nat k) with (currentIndex p + Z.of_nat (S k)) by lia.
        reflexivity.
Qed.

(** C6: in sequential mode, with a filtered list [A; B; C] that stays
    the same, 6 consecutive GetProxy calls return the list rotated to
    the rotation counter's position, twice over: each of A, B, C twice,
    each call returning the cyclic successor of the node returned by
    the call before.  (The counter is non-negative and does not overflow
    during the calls, as for any counter that started at 0.) *)
Theorem GetProxy_sequential_rotation (rnd : nat → Z) (m : Memory)
    (filter : option Filter) (p : ProxyPool) (A B C : ptr) :
  mode p = PoolModeSequential →
  getFilteredNodes m p filter = Some [A; B; C] →
  0 <= currentIndex p < 2 ^ 63 - 6 →
  let cycle := rotate (Z.to_nat (currentIndex p mod 3)) [A; B; C] in
  ∃ p',
    GetProxyTimes 6 rnd m filter p
      = Some ((λ node, (node, None)) <$> (cycle ++ cycle)%list, p') ∧
    cycle ≡ₚ [A; B; C] ∧
    currentIndex p' = currentIndex p + 6.
Proof.
  intros Hmode Hf Hc cycle.
  destruct (GetProxyTimes_sequential m filter [A; B; C] 6 ltac:(discriminate) rnd p
              Hmode Hf ltac:(lia) ltac:(lia)) as (p' & Htimes & Hc').
  exists p'. split; [| split; [apply rotate_perm | exact Hc']].
  rewrite Htimes. f_equal. f_equal. subst cycle.
  change (len [A; B; C]) with 3. cbn [seq fmap list_fmap].
  rewrite <- !(Zplus_mod_idemp_l (currentIndex p) _ 3).
  pose proof (Z.mod_pos_bound (currentIndex p) 3 ltac:(lia)) as Hr.
  assert (currentIndex p mod 3 = 0 ∨ currentIndex p mod 3 = 1 ∨ currentIndex p mod 3 = 2)
    as [-> | [-> | ->]] by lia; reflexivity.
Qed.

Lemma GetProxy_sequential_rotation_witness :
  let p := mkProxyPool PoolModeSequential
             [Some 1%positive; Some 2%positive; Some 3%positive] 4 ∅ 0 false "" in
  ∃ p',
    GetProxyTimes 6 (λ _, 0) (mkMemory ∅ ∅) None p
      = Some ((λ node, (node, None))
                <$> [Some 2%positive; Some 3%positive; Some 1%positive;
                     Some 2%positive; Some 3%positive; Some 1%positive], p') ∧
    [Some 2%positive; Some 3%positive; Some 1%positive]
      ≡ₚ [Some 1%positive; Some 2%positive; Some 3%positive] ∧
    currentIndex p' = 10.
Proof.
  intros p.
  apply (GetProxy_sequential_rotation (λ _, 0) (mkMemory ∅ ∅) None p
           (Some 1%positive) (Some 2%positive) (Some 3%positive)).
  - reflexivity.
  - reflexivity.
  - simpl. lia.
Defined.

End rotation.

(** ** Selection returns

    On a pool in the shape every run keeps it in -- live snapshot
    nodes, table weights of the step function, a rotation counter that
    counted up from 0 -- [GetProxy] never panics. *)

Section selection_returns.

Local Open Scope Z_scope.

Lemma filterLoop_length m f ns acc result :
  filterLoop m f ns acc = Some result → (length result ≤ length acc + length ns)%nat.
Proof.
  revert acc. induction ns as [| node rest IH]; intros acc; simpl.
  - intros [= <-]. lia.
  - destruct (derefNode m node) as [n |]; [| discriminate]. simpl.
    intros H%IH. destruct (rejects f n); [lia |]. rewrite length_app in H. simpl in H. lia.
Qed.

Lemma getFilteredNodes_length m p filter result :
  getFilteredNodes m p filter = Some result → (length result ≤ length (nodes p))%nat.
Proof.
  destruct filter as [f |]; simpl.
  - intros H%filterLoop_length. simpl in H. lia.
  - by intros [= <-].
Qed.

Lemma getFilteredNodes_is_Some m p filter :
  (∀ x, x ∈ nodes p → is_Some (derefNode m x)) → is_Some (getFilteredNodes m p filter).
Proof.
  intros Hlive. destruct filter as [f |]; simpl; [by apply filterLoop_is_Some | by eexists].
Qed.

Lemma candidates_is_Some m filter p :
  (∀ x, x ∈ nodes p → is_Some (derefNode m x)) →
  ∃ ns, candidates m filter p = Some ns ∧ (length ns ≤ length (nodes p))%nat.
Proof.
  intros Hlive. unfold candidates.
  destruct (getFilteredNodes_is_Some m p filter Hlive) as [ns Hns]. rewrite Hns.
  cbn [mbind option_bind].
  pose proof (getFilteredNodes_length _ _ _ _ Hns) as Hlen.
  destruct (isEmpty ns); [| by exists ns].
  destruct filter as [f |]; [| by exists ns].
  destruct (fallbackEnabled p); [| by exists ns].
  unfold getFallbackNodes.
  assert (∀ g, ∃ r, getFilteredNodes m p (Some g) = Some r ∧
                    (length r ≤ length (nodes p))%nat) as Hall.
  { intros g. destruct (getFilteredNodes_is_Some m p (Some g) Hlive) as [r Hr].
    exists r. split; [exact Hr | by apply (getFilteredNodes_length _ _ _ _ Hr)]. }
  repeat case_bool_decide; try apply Hall.
  destruct (Hall (withLatencyLevel LatencyLevelMedium f)) as (r & -> & Hr).
  cbn [mbind option_bind]. destruct (negb (isEmpty r)); [by exists r | apply Hall].
Qed.

Lemma index_is_Some {A : Type} (l : list A) (i : Z) :
  0 <= i < len l → is_Some (index l i).
Proof.
  intros Hi. unfold index, len in *. destruct (Z.ltb_spec i 0); [lia |].
  apply lookup_lt_is_Some_2. lia.
Qed.

Lemma len_pos {A : Type} (l : list A) : isEmpty l = false → 0 < len l.
Proof. destruct l; [discriminate |]. unfold len. simpl. lia. Qed.

Lemma mapM_keyed_is_Some m ns :
  (∀ x, x ∈ ns → is_Some (derefNode m x)) →
  is_Some (mapM (λ node, n ← derefNode m node; Some (node, EnhancedNode.Latency n)) ns).
Proof.
  intros Hlive. apply mapM_is_Some. apply Forall_forall. intros x Hx.
  unfold compose. destruct (Hlive x Hx) as [n ->]. by eexists.
Qed.

Lemma sortByLatency_is_Some m ns :
  (∀ x, x ∈ ns → is_Some (derefNode m x)) → is_Some (sortByLatency m ns).
Proof.
  intros Hlive. unfold sortByLatency. destruct ns as [| a [| b rest]]; try by eexists.
  destruct (mapM_keyed_is_Some m _ Hlive) as [keyed ->]. by eexists.
Qed.

Lemma sumWeights_bound m ws ns total :
  (∀ x, x ∈ ns → is_Some (derefNode m x)) →
  (∀ k w, ws !! k = Some w → 1 <= w <= 100) →
  0 <= total → total + 100 * len ns < 2 ^ 63 →
  ∃ t, sumWeights m ws ns total = Some t ∧ total + len ns <= t <= total + 100 * len ns.
Proof.
  intros Hlive Hws. revert total Hlive. unfold len.
  induction ns as [| node rest IH]; intros total Hlive H0 Hb; simpl.
  - exists total. split; [reflexivity | lia].
  - destruct (Hlive node ltac:(left)) as [n ->]. simpl.
    set (w := default 1 (ws !! EnhancedNode.Name n)).
    assert (1 <= w <= 100) as Hw.
    { subst w. destruct (ws !! EnhancedNode.Name n) as [w |] eqn:E; simpl;
        [by apply (Hws _ _ E) | lia]. }
    simpl length in Hb.
    rewrite wrap64_small by (unfold in_int64; lia).
    destruct (IH (total + w)) as (t & -> & Ht).
    + intros x Hx. apply Hlive. by right.
    + lia.
    + lia.
    + exists t. split; [reflexivity |]. simpl length. lia.
Qed.

Lemma walkWeights_is_Some m ws ns r :
  (∀ x, x ∈ ns → is_Some (derefNode m x)) →
  (∀ k w, ws !! k = Some w → 1 <= w <= 100) →
  0 <= r < 2 ^ 63 →
  is_Some (walkWeights m ws ns r).
Proof.
  intros Hlive Hws. revert r Hlive.
  induction ns as [| node rest IH]; intros r Hlive Hr; simpl; [by eexists |].
  destruct (Hlive node ltac:(left)) as [n ->]. simpl.
  set (w := default 1 (ws !! EnhancedNode.Name n)).
  assert (1 <= w <= 100) as Hw.
  { subst w. destruct (ws !! EnhancedNode.Name n) as [w |] eqn:E; simpl;
      [by apply (Hws _ _ E) | lia]. }
  rewrite wrap64_small by (unfold in_int64; lia).
  destruct (Z.ltb_spec (r - w) 0); [by eexists |].
  apply IH; [| lia]. intros x Hx. apply Hlive. by right.
Qed.

Lemma selectByMode_is_Some rnd m ns p :
  isEmpty ns = false →
  (∀ x, x ∈ ns → is_Some (derefNode m x)) →
  (∀ k w, weights p !! k = Some w → 1 <= w <= 100) →
  100 * len ns < 2 ^ 63 →
  0 <= currentIndex p < 2 ^ 63 - 1 →
  is_Some (selectByMode rnd m ns p).
Proof.
  intros He Hlive Hw Hsize Hc. pose proof (len_pos ns He) as Hlen.
  assert (∀ k (l : list ptr), 0 < k <= len l → is_Some (i ← Intn rnd k; index l i)) as Hdraw.
  { intros k l Hk. unfold Intn. destruct (Z.leb_spec k 0); [lia |]. simpl.
    pose proof (Z.mod_pos_bound rnd k ltac:(lia)). apply index_is_Some. lia. }
  unfold selectByMode. repeat case_bool_decide.
  - unfold selectRandom. rewrite He.
    destruct (Hdraw (len ns) ns ltac:(lia)) as [x ->]. by eexists.
  - unfold selectLatencyFirst. rewrite He.
    destruct (sortByLatency_is_Some m ns Hlive) as [sorted Hs]. rewrite Hs. simpl.
    assert (len sorted = len ns) as Hsl
      by (unfold len; by rewrite (sortByLatency_perm _ _ _ Hs)).
    destruct (Hdraw (if len sorted <? 3 then len sorted else 3) sorted) as [x Hx].
    { destruct (Z.ltb_spec (len sorted) 3); lia. }
    simpl in Hx. rewrite Hx. by eexists.
  - unfold selectWeighted. rewrite He.
    destruct (sumWeights_bound m (weights p) ns 0 Hlive Hw ltac:(lia) ltac:(lia))
      as (t & -> & Ht). simpl.
    destruct (Z.eqb_spec t 0); [lia |].
    unfold Intn. destruct (Z.leb_spec t 0); [lia |]. simpl.
    pose proof (Z.mod_pos_bound rnd t ltac:(lia)) as Hr.
    destruct (walkWeights_is_Some m (weights p) ns (rnd mod t) Hlive Hw ltac:(lia))
      as [found ->]. simpl.
    destruct found as [node |]; [by eexists |].
    destruct (index_is_Some ns 0 ltac:(lia)) as [x ->]. by eexists.
  - unfold selectSequential. rewrite He.
    rewrite (wrap64_small (currentIndex p + 1)) by (unfold in_int64; lia).
    replace (currentIndex p + 1 - 1) with (currentIndex p) by lia.
    rewrite (wrap64_small (currentIndex p)) by (unfold in_int64; lia).
    rewrite Z.rem_mod_nonneg by lia.
    pose proof (Z.mod_pos_bound (currentIndex p) (len ns) Hlen).
    destruct (index_is_Some ns (currentIndex p mod len ns) ltac:(lia)) as [x ->].
    by eexists.
Qed.

(** [GetProxy] returns: a node or ErrNoAvailableProxy, never a panic. *)
Lemma GetProxy_is_Some rnd m filter p :
  (∀ x, x ∈ nodes p → is_Some (derefNode m x)) →
  (∀ k w, weights p !! k = Some w → 1 <= w <= 100) →
  100 * len (nodes p) < 2 ^ 63 →
  0 <= currentIndex p < 2 ^ 63 - 1 →
  is_Some (GetProxy rnd m filter p).
Proof.
  intros Hlive Hw Hsize Hc. unfold GetProxy.
  destruct (candidates_is_Some m filter p Hlive) as (ns & Hns & Hlen). rewrite Hns.
  cbn [mbind option_bind]. destruct (isEmpty ns) eqn:He; [by eexists |].
  assert (∀ x, x ∈ ns → is_Some (derefNode m x)) as Hlive'
    by (intros x Hx; apply Hlive; by apply (candidates_subset _ _ _ _ Hns)).
  assert (100 * len ns < 2 ^ 63) as Hsize' by (unfold len in *; lia).
  destruct (selectByMode_is_Some rnd m ns p He Hlive' Hw Hsize' Hc) as [[node p'] ->].
  by eexists.
Qed.

(** A refresh returns on a registry whose pointers are all live, and
    leaves the pool in that shape. *)
Lemma RefreshNodes_is_Some (rangeMap : gmap string ptr → list (string * ptr)) s p :
  (∀ mp, rangeMap mp ≡ₚ map_to_list mp) →
  (∀ k x, nodeStates (registry s) !! k = Some x → is_Some (derefNode (memory s) x)) →
  ∃ p', RefreshNodes rangeMap s p = Some p' ∧
        (∀ x, x ∈ nodes p' → is_Some (derefNode (memory s) x)) ∧
        (∀ k w, weights p' !! k = Some w → 1 <= w <= 100) ∧
        currentIndex p' = currentIndex p.
Proof.
  intros Hperm Hlive. unfold RefreshNodes, ListAvailableNodes.
  destruct (listing_spec rangeMap Hperm enabledAndAvailable s Hlive) as (ns & -> & Hns).
  cbn [mbind option_bind].
  assert (∀ x, x ∈ ns → is_Some (derefNode (memory s) x)) as Hlive'.
  { intros x (k & n & _ & -> & _)%Hns. by eexists. }
  assert (∀ ws total, is_Some (addWeights (memory s) ns ws total)) as Hadd.
  { clear Hns. induction ns as [| node rest IH]; intros ws total; simpl; [by eexists |].
    destruct (Hlive' node ltac:(left)) as [n ->]. simpl.
    apply IH. intros x Hx. apply Hlive'. by right. }
  unfold updateWeights. cbn [nodes].
  destruct (Hadd ∅ 0) as [[ws total] Hws]. rewrite Hws. cbn [mbind option_bind].
  eexists. split; [reflexivity |]. cbn [nodes weights currentIndex].
  split; [exact Hlive' |]. split; [| reflexivity].
  apply (addWeights_range _ _ _ _ _ _ Hws). intros k w. by rewrite lookup_empty.
Qed.

End selection_returns.

(** ** The embedding at work

    The functions evaluated on small registries, as a check that the
    embedding computes what the source computes. *)

Section evaluation.

Local Open Scope Z_scope.

(** Unknown latencies sort last; the others ascend. *)
Example sortByLatency_example :
  let m := mkMemory (list_to_map
                       [(1%positive, sampleNode "a" "JP" 300 "medium" "enabled" true);
                        (2%positive, sampleNode "b" "JP" (-1) "unknown" "enabled" true);
                        (3%positive, sampleNode "c" "US" 50 "low" "enabled" true);
                        (4%positive, sampleNode "d" "" 120 "medium" "enabled" true)]) ∅ in
  sortByLatency m [Some 1%positive; Some 2%positive; Some 3%positive; Some 4%positive]
    = Some [Some 3%positive; Some 4%positive; Some 1%positive; Some 2%positive].
Proof. reflexivity. Qed.

(** Weighted lottery over a 50 ms node (weight 100) and a 600 ms node
    (weight 5): draws 0..99 fall on the first, 100..104 on the second. *)
Example selectWeighted_example :
  let m := mkMemory (list_to_map
                       [(1%positive, sampleNode "a" "JP" 50 "low" "enabled" true);
                        (2%positive, sampleNode "b" "US" 600 "high" "enabled" true)]) ∅ in
  let s := mkMachine m (mkStore "" ∅ (list_to_map [("a", Some 1%positive); ("b", Some 2%positive)])
                          defaultLatencyConfig) NoFile in
  ∃ p,
    RefreshNodes map_to_list s (NewProxyPool (Config.mk PoolModeWeighted false "")) = Some p ∧
    totalWeight p = 105 ∧
    fst <$> GetProxy 99 m None p = Some (Some 1%positive, None) ∧
    fst <$> GetProxy 100 m None p = Some (Some 2%positive, None) ∧
    fst <$> GetProxy 104 m None p = Some (Some 2%positive, None) ∧
    fst <$> GetProxy 105 m None p = Some (Some 1%positive, None).
Proof. eexists. split; [reflexivity |]. repeat split. Qed.

(** Grouping by region files a node without region under "unknown" and
    leaves out a disabled node. *)
Example GetGroupedByRegion_example :
  let m := mkMemory (list_to_map
                       [(1%positive, sampleNode "a" "JP" 50 "low" "enabled" true);
                        (2%positive, sampleNode "b" "" 80 "low" "enabled" true);
                        (3%positive, sampleNode "c" "JP" 90 "low" "disabled" true)]) ∅ in
  let s := mkMachine m (mkStore "" ∅ (list_to_map [("a", Some 1%positive); ("b", Some 2%positive);
                                                   ("c", Some 3%positive)])
                          defaultLatencyConfig) NoFile in
  ∃ groups,
    GetGroupedByRegion map_to_list s = Some groups ∧
    groups !! "JP" = Some [Some 1%positive] ∧
    groups !! "unknown" = Some [Some 2%positive] ∧
    size groups = 2%nat.
Proof. eexists. split; [reflexivity |]. repeat split. Qed.

(** No fallback without a filter, and none when it is switched off. *)
Example GetProxy_no_fallback_example :
  let m := mkMemory {[ 1%positive := sampleNode "a" "JP" 400 "high" "enabled" true ]} ∅ in
  let p := mkProxyPool PoolModeRandom [Some 1%positive] 0 ∅ 0 false "" in
  GetProxy 0 m (Some (Filter.mk LatencyLevelLow "" "")) p
    = Some (None, Some ErrNoAvailableProxy, p) ∧
  GetProxy 0 m (Some (Filter.mk LatencyLevelLow "" "")) (mkProxyPool PoolModeRandom [Some 1%positive] 0 ∅ 0 true "")
    = Some (Some 1%positive, None, mkProxyPool PoolModeRandom [Some 1%positive] 0 ∅ 0 true "").
Proof. split; reflexivity. Qed.

End evaluation.

(** * Further properties of the registry *)

Section subscriptions.

Local Open Scope Z_scope.



(** X1: UpdateSubscription on a record whose id is not stored fails
    with ErrSubscriptionNotFound and changes nothing; on a stored id it
    makes the map point to the caller's record, which is kept as the
    caller filled it except for the update time -- nothing of the
    record stored before is merged -- and leaves every other id and all
    node states as they were. *)
Theorem UpdateSubscription_spec (e : Env) (l : positive) (s : Machine) (sub : Subscription) :
  subObjs (memory s) !! l = Some sub →
  (subscriptions (registry s) !! Subscription.ID sub = None →
   UpdateSubscription e (Some l) s = Some (s, Some ErrSubscriptionNotFound)) ∧
  (is_Some (subscriptions (registry s) !! Subscription.ID sub) →
   ∃ s' err,
     UpdateSubscription e (Some l) s = Some (s', err) ∧
     GetSubscription (Subscription.ID sub) s' = (Some l, None) ∧
     derefSub (memory s') (Some l)
       = Some (Subscription.mk (Subscription.ID sub) (Subscription.Name sub)
                 (Subscription.URL sub) (Subscription.Enabled sub)
                 (Subscription.RefreshInterval sub) (Subscription.LastRefreshAt sub)
                 (Subscription.NodeCount sub) (Subscription.LastError sub)
                 (Subscription.CreatedAt sub) (updatedAt e)) ∧
     (∀ id, id ≠ Subscription.ID sub →
            subscriptions (registry s') !! id = subscriptions (registry s) !! id) ∧
     nodeStates (registry s') = nodeStates (registry s) ∧
     nodeObjs (memory s') = nodeObjs (memory s)).
Proof.
  intros Hobj. unfold UpdateSubscription. simpl. rewrite Hobj. simpl. split.
  - by intros ->.
  - intros [old Hold]. rewrite Hold.
    set (s1 := mkMachine _ _ _).
    exists (save (write e) s1).1, (save (write e) s1).2.
    split; [by destruct (save (write e) s1) |].
    unfold GetSubscription, derefSub. rewrite save_registry, save_memory. subst s1. simpl.
    rewrite !lookup_insert_eq. repeat split.
    intros id Hne. by rewrite lookup_insert_ne.
Qed.

Lemma UpdateSubscription_spec_witness :
  let stored := Subscription.mk "s1" "old name" "https://a.example/sub" true "1h" 5 12 "" 100 100 in
  let edit := Subscription.mk "s1" "new name" "https://b.example/sub" false "30m" 0 0 "" 0 0 in
  let e := mkEnv "20260130120000" (λ k, Z.of_nat k) 7 200 WriteOk in
  let s := mkMachine (mkMemory ∅ (<[1%positive := stored]> {[ 2%positive := edit ]}))
             (mkStore "" {[ "s1" := Some 1%positive ]} ∅ defaultLatencyConfig) NoFile in
  ∃ s' err,
    UpdateSubscription e (Some 2%positive) s = Some (s', err) ∧
    GetSubscription "s1" s' = (Some 2%positive, None) ∧
    derefSub (memory s') (Some 2%positive)
      = Some (Subscription.mk "s1" "new name" "https://b.example/sub" false "30m" 0 0 "" 0 200) ∧
    (∀ id, id ≠ "s1" →
           subscriptions (registry s') !! id = subscriptions (registry s) !! id) ∧
    nodeStates (registry s') = nodeStates (registry s) ∧
    nodeObjs (memory s') = nodeObjs (memory s).
Proof.
  intros stored edit e s.
  destruct (UpdateSubscription_spec e 2%positive s edit eq_refl) as [_ H].
  apply H. by eexists.
Defined.

(** X2: DeleteSubscription on an id that is not stored fails with
    ErrSubscriptionNotFound and changes nothing; on a stored id the id
    is gone afterwards (GetSubscription reports not found), every other
    id is kept, and no node is touched: the node map and the objects in
    memory stay as they were, so the nodes of the deleted subscription
    are still listed under its id. *)
Theorem DeleteSubscription_spec (rangeMap : gmap string ptr → list (string * ptr))
    (w : WriteResult) (id : string) (s : Machine) :
  (subscriptions (registry s) !! id = None →
   DeleteSubscription w id s = (s, Some ErrSubscriptionNotFound)) ∧
  (is_Some (subscriptions (registry s) !! id) →
   let s' := (DeleteSubscription w id s).1 in
   GetSubscription id s' = (None, Some ErrSubscriptionNotFound) ∧
   (∀ id', id' ≠ id →
           subscriptions (registry s') !! id' = subscriptions (registry s) !! id') ∧
   nodeStates (registry s') = nodeStates (registry s) ∧
   memory s' = memory s ∧
   ListNodesBySubscription rangeMap id s' = ListNodesBySubscription rangeMap id s).
Proof.
  unfold DeleteSubscription. split.
  - by intros ->.
  - intros [old ->]. cbv zeta. set (s1 := mkMachine _ _ _).
    unfold GetSubscription, ListNodesBySubscription.
    rewrite save_registry, save_memory. subst s1. simpl.
    rewrite lookup_delete_eq. repeat split.
    intros id' Hne. by rewrite lookup_delete_ne.
Qed.

Lemma DeleteSubscription_spec_witness :
  let node := EnhancedNode.mk "a" "uri-a" 0 "s1" "feed" "JP" "" 40 "low" "enabled" true 0 0 0 in
  let sub := Subscription.mk "s1" "feed" "https://a.example/sub" true "1h" 0 1 "" 0 0 in
  let s := mkMachine (mkMemory {[ 1%positive := node ]} {[ 2%positive := sub ]})
             (mkStore "" {[ "s1" := Some 2%positive ]} {[ "a" := Some 1%positive ]}
                defaultLatencyConfig) NoFile in
  let s' := (DeleteSubscription WriteOk "s1" s).1 in
  DeleteSubscription WriteOk "s2" s = (s, Some ErrSubscriptionNotFound) ∧
  GetSubscription "s1" s' = (None, Some ErrSubscriptionNotFound) ∧
  ListNodesBySubscription map_to_list "s1" s' = Some [Some 1%positive].
Proof.
  intros node sub s s'.
  destruct (DeleteSubscription_spec map_to_list WriteOk "s2" s) as [Hmissing _].
  destruct (DeleteSubscription_spec map_to_list WriteOk "s1" s) as [_ Hstored].
  split; [by apply Hmissing |].
  destruct Hstored as (Hget & _ & _ & _ & Hlist); [by eexists |].
  split; [exact Hget |]. subst s'. rewrite Hlist. reflexivity.
Defined.

End subscriptions.

Section registry_more.

Local Open Scope Z_scope.



(** X4: UpdateNodeState files the caller's pointer under the node's
    name, or under its URI when the name is empty, replacing whatever
    was filed there; GetNodeState then returns that pointer.  Every
    other key, the subscriptions, the objects in memory and the file on
    disk are left as they were (nothing is persisted), and filing the
    same node again changes nothing. *)
Theorem UpdateNodeState_GetNodeState (l : positive) (n : EnhancedNode) (s : Machine) :
  nodeObjs (memory s) !! l = Some n →
  let key := if decide (EnhancedNode.Name n = "") then EnhancedNode.URI n
             else EnhancedNode.Name n in
  ∃ s',
    UpdateNodeState (Some l) s = Some s' ∧
    GetNodeState key s' = (Some l, true) ∧
    (∀ k, k ≠ key → nodeStates (registry s') !! k = nodeStates (registry s) !! k) ∧
    subscriptions (registry s') = subscriptions (registry s) ∧
    latencyConfig (registry s') = latencyConfig (registry s) ∧
    memory s' = memory s ∧
    disk s' = disk s ∧
    UpdateNodeState (Some l) s' = Some s'.
Proof.
  intros Hobj key. unfold UpdateNodeState at 1. simpl. rewrite Hobj. simpl.
  eexists. split; [reflexivity |].
  assert ((if bool_decide (EnhancedNode.Name n = "") then EnhancedNode.URI n
           else EnhancedNode.Name n) = key) as ->
    by (subst key; by case_bool_decide; case_decide).
  unfold GetNodeState, UpdateNodeState. simpl. rewrite lookup_insert_eq, Hobj. simpl.
  repeat split.
  - intros k Hne. by rewrite lookup_insert_ne.
  - assert ((if bool_decide (EnhancedNode.Name n = "") then EnhancedNode.URI n
             else EnhancedNode.Name n) = key) as ->
      by (subst key; by case_bool_decide; case_decide).
    by rewrite insert_insert_eq.
Qed.

Lemma UpdateNodeState_GetNodeState_witness :
  let n := EnhancedNode.mk "" "vless://host:443" 0 "" "" "" "" (-1) "unknown" "enabled" true 0 0 0 in
  let s := mkMachine (mkMemory {[ 1%positive := n ]} ∅) (NewStore "data") (Document (mkStoreData ∅ ∅ defaultLatencyConfig)) in
  ∃ s',
    UpdateNodeState (Some 1%positive) s = Some s' ∧
    GetNodeState "vless://host:443" s' = (Some 1%positive, true) ∧
    (∀ k, k ≠ "vless://host:443" →
          nodeStates (registry s') !! k = nodeStates (registry s) !! k) ∧
    subscriptions (registry s') = subscriptions (registry s) ∧
    latencyConfig (registry s') = latencyConfig (registry s) ∧
    memory s' = memory s ∧
    disk s' = disk s ∧
    UpdateNodeState (Some 1%positive) s' = Some s'.
Proof.
  intros n s. apply (UpdateNodeState_GetNodeState 1%positive n s). reflexivity.
Defined.

End registry_more.

(** ** Persistence *)

Section persistence.

Local Open Scope Z_scope.

(** The allocator: whatever location it returns is not in use. *)
Variable newLoc : gset positive → positive.
Hypothesis newLoc_fresh : ∀ used, newLoc used ∉ used.



(** X6: NewStore never fails because of the file.  Once the directory
    exists it returns a store; when store.json is absent, cannot be
    read or does not parse, that store is the empty one with the default
    thresholds, memory and file untouched, and no error is reported.
    Without a directory nothing is read at all. *)
Theorem NewStoreAt_best_effort (dir : string) (mem : Memory) (file : File)
    (mkdir readable : bool) :
  (dir = "" →
   NewStoreAt newLoc mkdir readable dir mem file = Created (mkMachine mem (NewStore dir) file)) ∧
  (dir ≠ "" → mkdir = false →
   NewStoreAt newLoc mkdir readable dir mem file = MkdirFailed) ∧
  (dir ≠ "" → mkdir = true →
   (∃ s, NewStoreAt newLoc mkdir readable dir mem file = Created s) ∧
   (file = NoFile ∨ file = Damaged ∨ readable = false →
    NewStoreAt newLoc mkdir readable dir mem file
      = Created (mkMachine mem (NewStore dir) file))).
Proof.
  unfold NewStoreAt. split; [| split].
  - intros ->. by rewrite bool_decide_eq_false_2 by (by intros ?).
  - intros Hdir ->. by rewrite (bool_decide_eq_true_2 _ Hdir).
  - intros Hdir ->. rewrite (bool_decide_eq_true_2 _ Hdir). split; [by eexists |].
    unfold load. simpl. intros [-> | [-> | ->]]; [done | done |]. by destruct file.
Qed.

End persistence.

Section persistence_examples.

Local Open Scope Z_scope.


Lemma NewStoreAt_best_effort_witness :
  NewStoreAt (λ used, fresh used) true true "data" (mkMemory ∅ ∅) Damaged
    = Created (mkMachine (mkMemory ∅ ∅) (NewStore "data") Damaged).
Proof.
  destruct (NewStoreAt_best_effort (λ used, fresh used) "data" (mkMemory ∅ ∅) Damaged true true)
    as (_ & _ & H).
  apply H; [discriminate | reflexivity | by right; left].
Defined.

End persistence_examples.

(** ** Identifiers and tiers *)

Section identifiers.

Local Open Scope Z_scope.

Lemma get_elem (str : string) (i : nat) (c : ascii) :
  String.get i str = Some c → c ∈ list_ascii_of_string str.
Proof.
  revert i. induction str as [| a str IH]; intros i; simpl; [discriminate |].
  destruct i as [| i].
  - intros [= ->]. left.
  - intros H. right. by apply (IH i).
Qed.

Lemma letterAt_spec (nano : Z) :
  (Z.rem nano 36 < 0 → letterAt nano = None) ∧
  (0 <= Z.rem nano 36 → ∃ c, letterAt nano = Some c ∧ c ∈ list_ascii_of_string letters).
Proof.
  unfold letterAt. change (Z.of_nat (String.length letters)) with 36. split.
  - intros H. by destruct (Z.ltb_spec (Z.rem nano 36) 0); [| lia].
  - intros H. destruct (Z.ltb_spec (Z.rem nano 36) 0); [lia |].
    assert (Z.rem nano 36 < 36) as Hlt.
    { pose proof (Z.rem_bound_abs nano 36 ltac:(lia)). lia. }
    assert (Z.to_nat (Z.rem nano 36) < 36)%nat as Hk by lia.
    destruct (String.get (Z.to_nat (Z.rem nano 36)) letters) as [c |] eqn:Hget.
    + exists c. split; [done | by apply get_elem in Hget].
    + exfalso. revert Hk Hget. generalize (Z.to_nat (Z.rem nano 36)). intros k Hk.
      do 36 (destruct k as [| k]; [discriminate |]). lia.
Qed.

Lemma randomBytes_spec (n i : nat) (nano : nat → Z) :
  ((∀ k, (i ≤ k < i + n)%nat → 0 <= Z.rem (nano k) 36) →
   ∃ str, randomBytes n i nano = Some str ∧ String.length str = n ∧
          ∀ c, c ∈ list_ascii_of_string str → c ∈ list_ascii_of_string letters) ∧
  ((∃ k, (i ≤ k < i + n)%nat ∧ Z.rem (nano k) 36 < 0) → randomBytes n i nano = None).
Proof.
  revert i. induction n as [| n IH]; intros i; simpl.
  - split.
    + intros _. exists "". repeat split. intros c Hc. by apply not_elem_of_nil in Hc.
    + intros (k & Hk & _). lia.
  - destruct (letterAt_spec (nano i)) as [Hnone Hsome]. destruct (IH (S i)) as [IHs IHn].
    split.
    + intros Hall. destruct (Hsome (Hall i ltac:(lia))) as (c & -> & Hc). simpl.
      destruct IHs as (rest & -> & Hlen & Hrest); [intros k Hk; apply Hall; lia |].
      simpl. exists (String c rest). split; [done |]. split; [simpl; by rewrite Hlen |].
      intros c' [-> | Hc']%elem_of_cons; [done | by apply Hrest].
    + intros (k & Hk & Hneg). destruct (decide (k = i)) as [-> | Hne].
      * by rewrite (Hnone Hneg).
      * destruct (letterAt (nano i)); [| done]. simpl.
        rewrite IHn; [done |]. exists k. split; [lia | done].
Qed.

(** X7: an identifier made by generateID is the time stamp followed by
    exactly 6 characters, each a lower-case letter or a digit of the
    36-character alphabet, whenever the six clock readings leave a
    non-negative remainder modulo 36 (as every reading past the Unix
    epoch does); a reading with a negative remainder makes the call
    panic on the index. *)
Theorem generateID_spec (stamp : string) (nano : nat → Z) :
  ((∀ k, (k < 6)%nat → 0 <= Z.rem (nano k) 36) →
   ∃ suffix,
     generateID stamp nano = Some (stamp ++ suffix)%string ∧
     String.length suffix = 6%nat ∧
     ∀ c, c ∈ list_ascii_of_string suffix → c ∈ list_ascii_of_string letters) ∧
  ((∃ k, (k < 6)%nat ∧ Z.rem (nano k) 36 < 0) → generateID stamp nano = None).
Proof.
  unfold generateID, randomString. destruct (randomBytes_spec 6 0 nano) as [Hs Hn]. split.
  - intros Hall. destruct Hs as (suffix & -> & Hlen & Hin); [intros k Hk; apply Hall; lia |].
    by exists suffix.
  - intros (k & Hk & Hneg). rewrite Hn; [done |]. exists k. split; [lia | done].
Qed.

Lemma generateID_spec_witness :
  (∃ suffix,
     generateID "20260130120000" (λ k, 1769774400000000000 + 7 * Z.of_nat k)
       = Some ("20260130120000" ++ suffix)%string ∧
     String.length suffix = 6%nat ∧
     ∀ c, c ∈ list_ascii_of_string suffix → c ∈ list_ascii_of_string letters) ∧
  generateID "19691231235959" (λ k, -1) = None.
Proof.
  split.
  - apply (generateID_spec "20260130120000" (λ k, 1769774400000000000 + 7 * Z.of_nat k)).
    intros k Hk. apply Z.rem_nonneg; lia.
  - apply (generateID_spec "19691231235959" (λ k, -1)).
    exists 0%nat. split; [lia | reflexivity].
Defined.

(** The rank of a tier: low before medium before high. *)
Lemma CalculateLatencyLevel_cases (s : Store) (v : Z) :
  0 <= v →
  (CalculateLatencyLevel s v = LatencyLevelLow ∧
   v <= LatencyConfig.LowThreshold (latencyConfig s)) ∨
  (CalculateLatencyLevel s v = LatencyLevelMedium ∧
   LatencyConfig.LowThreshold (latencyConfig s) < v <=
     LatencyConfig.MediumThreshold (latencyConfig s)) ∨
  (CalculateLatencyLevel s v = LatencyLevelHigh ∧
   LatencyConfig.LowThreshold (latencyConfig s) < v ∧
   LatencyConfig.MediumThreshold (latencyConfig s) < v).
Proof.
  intros Hv. rewrite CalculateLatencyLevel_cascade.
  repeat case_decide; try lia; [left | right; left | right; right]; split; (done || lia).
Qed.

(** X8: whatever the thresholds, in order or not, a measured latency
    never gets a better tier than a smaller one: if the larger latency
    is low so is the smaller, and if the smaller is high so is the
    larger.  With thresholds out of order (low above medium) no latency
    is ever classified medium. *)
Theorem CalculateLatencyLevel_monotone (s : Store) (a b : Z) :
  (0 <= a <= b →
   (CalculateLatencyLevel s b = LatencyLevelLow → CalculateLatencyLevel s a = LatencyLevelLow) ∧
   (CalculateLatencyLevel s a = LatencyLevelHigh → CalculateLatencyLevel s b = LatencyLevelHigh)) ∧
  (LatencyConfig.MediumThreshold (latencyConfig s) < LatencyConfig.LowThreshold (latencyConfig s) →
   CalculateLatencyLevel s a ≠ LatencyLevelMedium).
Proof.
  split.
  - intros Hab.
    destruct (CalculateLatencyLevel_cases s a ltac:(lia)) as [[-> Ha] | [[-> Ha] | [-> Ha]]];
      destruct (CalculateLatencyLevel_cases s b ltac:(lia)) as [[-> Hb] | [[-> Hb] | [-> Hb]]];
      split; intros; (done || lia).
  - intros Hcfg. rewrite CalculateLatencyLevel_cascade.
    repeat case_decide; (discriminate || lia).
Qed.

Lemma CalculateLatencyLevel_monotone_witness :
  let s := SetLatencyConfig (LatencyConfig.mk 300 100) (NewStore "") in
  (CalculateLatencyLevel s 250 = LatencyLevelLow → CalculateLatencyLevel s 120 = LatencyLevelLow) ∧
  CalculateLatencyLevel s 200 ≠ LatencyLevelMedium.
Proof.
  intros s. destruct (CalculateLatencyLevel_monotone s 120 250) as [Hmono _].
  destruct (CalculateLatencyLevel_monotone s 200 200) as [_ Hmed].
  split.
  - apply Hmono. lia.
  - apply Hmed. simpl. lia.
Defined.

End identifiers.

(** * Further properties of the pool *)

Section filtering.

Local Open Scope Z_scope.

Lemma rejects_false_iff (f : Filter) (n : EnhancedNode) :
  rejects f n = false ↔ satisfies f n.
Proof.
  unfold rejects, satisfies.
  repeat case_bool_decide; simpl; split; try discriminate; try done;
    try (intuition congruence).
Qed.

(** The loop keeps the order of the snapshot. *)
Lemma filterLoop_sublist m f ns acc result :
  filterLoop m f ns acc = Some result → ∃ kept, result = (acc ++ kept)%list ∧ sublist kept ns.
Proof.
  revert acc. induction ns as [| node rest IH]; intros acc; simpl.
  - intros [= <-]. exists []. split; [by rewrite app_nil_r | constructor].
  - destruct (derefNode m node) as [n |]; [| discriminate]. simpl.
    intros H. destruct (IH _ H) as (kept & -> & Hsub). destruct (rejects f n).
    + exists kept. split; [done | by constructor].
    + exists (node :: kept). split; [by rewrite <- app_assoc | by constructor].
Qed.

Lemma getFilteredNodes_satisfies m p f result :
  getFilteredNodes m p (Some f) = Some result →
  ∀ x, x ∈ result ↔ x ∈ nodes p ∧ ∃ n, derefNode m x = Some n ∧ satisfies f n.
Proof.
  intros H x. rewrite (getFilteredNodes_elem _ _ _ _ H x).
  by setoid_rewrite rejects_false_iff.
Qed.

(** X9: getFilteredNodes with a filter returns, in snapshot order, the
    snapshot nodes that satisfy every non-empty field of the filter
    (tier, region, subscription by identifier or by name), and it
    returns whenever the snapshot pointers are live; with no filter it
    returns the snapshot itself, without reading any node. *)
Theorem getFilteredNodes_spec (m : Memory) (p : ProxyPool) :
  getFilteredNodes m p None = Some (nodes p) ∧
  ∀ f : Filter,
    ((∀ x, x ∈ nodes p → is_Some (derefNode m x)) →
     is_Some (getFilteredNodes m p (Some f))) ∧
    ∀ result, getFilteredNodes m p (Some f) = Some result →
      sublist result (nodes p) ∧
      ∀ x, x ∈ result ↔ x ∈ nodes p ∧ ∃ n, derefNode m x = Some n ∧ satisfies f n.
Proof.
  split; [reflexivity |]. intros f. split; [by apply filterLoop_is_Some |].
  intros result H. split.
  - destruct (filterLoop_sublist _ _ _ _ _ H) as (kept & -> & Hsub). done.
  - by apply getFilteredNodes_satisfies.
Qed.

Lemma getFilteredNodes_spec_witness :
  let m := mkMemory (list_to_map
                       [(1%positive, sampleNode "a" "JP" 50 "low" "enabled" true);
                        (2%positive, sampleNode "b" "US" 80 "low" "enabled" true);
                        (3%positive, sampleNode "c" "JP" 400 "high" "enabled" true)]) ∅ in
  let p := mkProxyPool PoolModeSequential [Some 1%positive; Some 2%positive; Some 3%positive]
             0 ∅ 0 false "" in
  let f := Filter.mk "" "JP" "" in
  sublist [Some 1%positive; Some 3%positive] (nodes p) ∧
  ∀ x, x ∈ [Some 1%positive; Some 3%positive] ↔
       x ∈ nodes p ∧ ∃ n, derefNode m x = Some n ∧ satisfies f n.
Proof.
  intros m p f.
  destruct (getFilteredNodes_spec m p) as [_ H]. destruct (H f) as [_ Hf].
  apply Hf. reflexivity.
Defined.

(** A candidate list comes from getFilteredNodes with the request's
    region and subscription, whatever tier was finally used. *)
Lemma candidates_origin m f p ns :
  candidates m (Some f) p = Some ns →
  ∃ level, getFilteredNodes m p (Some (withLatencyLevel level f)) = Some ns ∧
           (level = Filter.LatencyLevel f ∨
            (fallbackEnabled p = true ∧ getFilteredNodes m p (Some f) = Some [])).
Proof.
  unfold candidates.
  destruct (getFilteredNodes m p (Some f)) as [ns0 |] eqn:Hf; [| discriminate].
  cbn [mbind option_bind].
  assert (withLatencyLevel (Filter.LatencyLevel f) f = f) as Hsame by (by destruct f).
  destruct (isEmpty ns0) eqn:He.
  - apply isEmpty_true in He as ->. destruct (fallbackEnabled p).
    + unfold getFallbackNodes. repeat case_bool_decide.
      * destruct (getFilteredNodes m p (Some (withLatencyLevel LatencyLevelMedium f)))
          as [med |] eqn:Hmed; [| discriminate]. cbn [mbind option_bind].
        destruct (isEmpty med) eqn:Hm; cbn [negb].
        -- intros Hhigh. exists LatencyLevelHigh. split; [done | by right].
        -- intros [= <-]. exists LatencyLevelMedium. split; [done | by right].
      * intros Hhigh. exists LatencyLevelHigh. split; [done | by right].
      * intros Hany. exists "". split; [done | by right].
    + intros [= <-]. exists (Filter.LatencyLevel f). rewrite Hsame. split; [done | by left].
  - intros [= <-]. exists (Filter.LatencyLevel f). rewrite Hsame. split; [done | by left].
Qed.

(** X10: a node GetProxy returns for a filter always satisfies the
    region and the subscription asked for, fallback or not; it also has
    the tier asked for unless fallback is enabled and no snapshot node
    satisfies the whole filter.  Only the tier is ever relaxed. *)
Theorem GetProxy_respects_filter (rnd : Z) (m : Memory) (f : Filter) (p p' : ProxyPool)
    (x : ptr) :
  GetProxy rnd m (Some f) p = Some (x, None, p') →
  ∃ n,
    derefNode m x = Some n ∧
    x ∈ nodes p ∧
    satisfies (Filter.mk "" (Filter.Region f) (Filter.Subscription f)) n ∧
    (fallbackEnabled p = false ∨
     (∃ y ny, y ∈ nodes p ∧ derefNode m y = Some ny ∧ satisfies f ny) →
     satisfies f n).
Proof.
  intros Hget.
  destruct (GetProxy_result _ _ _ _ _ _ _ Hget)
    as (ns & Hc & [(_ & _ & Herr & _) | (_ & Hin & _)]); [discriminate Herr |].
  destruct (candidates_origin _ _ _ _ Hc) as (level & Hlevel & Hwhy).
  pose proof (getFilteredNodes_satisfies _ _ _ _ Hlevel x) as Hiff.
  apply Hiff in Hin. destruct Hin as (Hsnap & n & Hn & Hsat).
  exists n. split; [done |]. split; [done |]. split.
  - destruct Hsat as (_ & Hr & Hs). split; [by left | done].
  - intros Hcase. destruct Hwhy as [-> | [Hfb Hnone]].
    + by destruct f.
    + destruct Hcase as [Hoff | (y & ny & Hy & Hny & Hsaty)]; [congruence |].
      exfalso. apply (not_elem_of_nil y), (getFilteredNodes_satisfies _ _ _ _ Hnone).
      split; [done |]. by exists ny.
Qed.

Lemma GetProxy_respects_filter_witness :
  let m := mkMemory (list_to_map
                       [(1%positive, sampleNode "a" "JP" 50 "low" "enabled" true);
                        (2%positive, sampleNode "b" "US" 400 "high" "enabled" true)]) ∅ in
  let p := mkProxyPool PoolModeRandom [Some 1%positive; Some 2%positive] 0 ∅ 0 true "" in
  let f := Filter.mk "low" "US" "" in
  ∃ n,
    derefNode m (Some 2%positive) = Some n ∧
    Some 2%positive ∈ nodes p ∧
    satisfies (Filter.mk "" "US" "") n ∧
    (fallbackEnabled p = false ∨
     (∃ y ny, y ∈ nodes p ∧ derefNode m y = Some ny ∧ satisfies f ny) →
     satisfies f n).
Proof.
  intros m p f.
  apply (GetProxy_respects_filter 5 m f p p (Some 2%positive)). reflexivity.
Defined.

(** X11: GetProxyList returns the first [limit] filtered nodes, in
    snapshot order, when the limit is positive, and every filtered node
    when it is zero or negative; it fails only where the filter does. *)
Theorem GetProxyList_limit (m : Memory) (filter : option Filter) (limit : Z) (p : ProxyPool) :
  (getFilteredNodes m p filter = None → GetProxyList m filter limit p = None) ∧
  ∀ ns, getFilteredNodes m p filter = Some ns →
    (0 < limit →
     GetProxyList m filter limit p = Some (take (Z.to_nat limit) ns)) ∧
    (limit <= 0 → GetProxyList m filter limit p = Some ns) ∧
    ∃ result, GetProxyList m filter limit p = Some result ∧
              result `prefix_of` ns ∧
              (0 < limit → len result <= limit).
Proof.
  unfold GetProxyList. split; [by intros -> |]. intros ns ->. cbn [mbind option_bind].
  unfold len.
  destruct (Z.ltb_spec 0 limit) as [Hpos | Hnon]; cbn [andb].
  - assert (Some (if limit <? Z.of_nat (length ns) then take (Z.to_nat limit) ns else ns)
            = Some (take (Z.to_nat limit) ns)) as ->.
    { destruct (Z.ltb_spec limit (Z.of_nat (length ns))); [done |].
      by rewrite take_ge by lia. }
    split; [done |]. split; [lia |].
    eexists. split; [reflexivity |]. split.
    + exists (drop (Z.to_nat limit) ns). by rewrite take_drop.
    + intros _. rewrite length_take. lia.
  - split; [lia |]. split; [done |].
    exists ns. split; [done |]. split; [done | lia].
Qed.

Lemma GetProxyList_limit_witness :
  let p := mkProxyPool PoolModeSequential [Some 1%positive; Some 2%positive; Some 3%positive]
             0 ∅ 0 false "" in
  GetProxyList (mkMemory ∅ ∅) None 2 p = Some (take 2 (nodes p)) ∧
  GetProxyList (mkMemory ∅ ∅) None (-1) p = Some (nodes p).
Proof.
  intros p.
  destruct (GetProxyList_limit (mkMemory ∅ ∅) None 2 p) as [_ H2].
  destruct (GetProxyList_limit (mkMemory ∅ ∅) None (-1) p) as [_ Hneg].
  split.
  - apply (H2 (nodes p)); [reflexivity | lia].
  - apply (Hneg (nodes p)); [reflexivity | lia].
Defined.

End filtering.

Section rotation_more.

Local Open Scope Z_scope.

Lemma selectByMode_pool rnd m ns p x p' :
  selectByMode rnd m ns p = Some (x, p') →
  (mode p = PoolModeRandom ∨ mode p = PoolModeLatencyFirst ∨ mode p = PoolModeWeighted →
   p' = p) ∧
  (mode p ≠ PoolModeRandom → mode p ≠ PoolModeLatencyFirst → mode p ≠ PoolModeWeighted →
   p' = p ∨
   p' = mkProxyPool (mode p) (nodes p) (wrap64 (currentIndex p + 1)) (weights p)
          (totalWeight p) (fallbackEnabled p) (apiKey p)).
Proof.
  unfold selectByMode. repeat case_bool_decide.
  - destruct (selectRandom rnd ns); [| discriminate]. simpl. intros [= _ <-].
    split; [done | by left].
  - destruct (selectLatencyFirst rnd m ns); [| discriminate]. simpl. intros [= _ <-].
    split; [done | by left].
  - destruct (selectWeighted rnd m p ns); [| discriminate]. simpl. intros [= _ <-].
    split; [done | by left].
  - unfold selectSequential. destruct (isEmpty ns).
    + intros [= _ <-]. split; [done | by left].
    + destruct (index ns _); [| discriminate]. simpl. intros [= _ <-].
      split; [intros [? | [? | ?]]; congruence | by right].
Qed.

(** X12: GetProxy changes nothing of the pool but the rotation counter.
    A request that fails with ErrNoAvailableProxy leaves the pool as it
    was, so it uses up no turn; in the random, latency-first and
    weighted modes the pool is never changed; in any other mode
    (sequential being the default) a served request advances the
    counter by exactly one. *)
Theorem GetProxy_pool_effect (rnd : Z) (m : Memory) (filter : option Filter)
    (p p' : ProxyPool) (x : ptr) (err : option error) :
  GetProxy rnd m filter p = Some (x, err, p') →
  mode p' = mode p ∧ nodes p' = nodes p ∧ weights p' = weights p ∧
  totalWeight p' = totalWeight p ∧ fallbackEnabled p' = fallbackEnabled p ∧
  apiKey p' = apiKey p ∧
  (err ≠ None → p' = p) ∧
  (mode p = PoolModeRandom ∨ mode p = PoolModeLatencyFirst ∨ mode p = PoolModeWeighted →
   p' = p) ∧
  (err = None →
   mode p ≠ PoolModeRandom → mode p ≠ PoolModeLatencyFirst → mode p ≠ PoolModeWeighted →
   currentIndex p' = wrap64 (currentIndex p + 1)).
Proof.
  unfold GetProxy. destruct (candidates m filter p) as [ns |]; [| discriminate].
  cbn [mbind option_bind]. destruct (isEmpty ns) eqn:He.
  - intros [= <- <- <-]. repeat split; try done.
  - destruct (selectByMode rnd m ns p) as [[y q] |] eqn:Hs; [| discriminate].
    simpl. intros [= <- <- <-].
    destruct (selectByMode_pool _ _ _ _ _ _ Hs) as [Hother Hseq].
    assert (q = p ∨ q = mkProxyPool (mode p) (nodes p) (wrap64 (currentIndex p + 1))
                          (weights p) (totalWeight p) (fallbackEnabled p) (apiKey p))
      as Hq.
    { destruct (decide (mode p = PoolModeRandom)); [left; apply Hother; by left |].
      destruct (decide (mode p = PoolModeLatencyFirst));
        [left; apply Hother; right; by left |].
      destruct (decide (mode p = PoolModeWeighted)); [left; apply Hother; right; by right |].
      by apply Hseq. }
    repeat split; try (by destruct Hq as [-> | ->]); try done.
    intros _ H1 H2 H3. unfold selectByMode in Hs.
    rewrite !bool_decide_eq_false_2 in Hs by done.
    unfold selectSequential in Hs. rewrite He in Hs.
    destruct (index ns _); [| discriminate]. simpl in Hs. by injection Hs as _ <-.
Qed.

Lemma GetProxy_pool_effect_witness :
  let p := mkProxyPool PoolModeSequential [Some 1%positive; Some 2%positive] 4 ∅ 0 false "" in
  let served := mkProxyPool PoolModeSequential [Some 1%positive; Some 2%positive] 5 ∅ 0 false "" in
  currentIndex served = wrap64 (currentIndex p + 1).
Proof.
  intros p served.
  apply (GetProxy_pool_effect 0 (mkMemory ∅ ∅) None p served (Some 1%positive) None);
    [reflexivity | reflexivity | discriminate | discriminate | discriminate].
Defined.

(** X13: one full round of the sequential rotation is fair.  With a
    filtered list that stays the same, as many consecutive GetProxy
    calls as the list has nodes return the list itself, rotated to the
    position of the rotation counter: every position is served exactly
    once, in list order.  (The counter is non-negative and does not
    overflow during the round.) *)
Theorem GetProxy_round_robin (rnd : nat → Z) (m : Memory) (filter : option Filter)
    (p : ProxyPool) (ns : list ptr) :
  mode p = PoolModeSequential →
  getFilteredNodes m p filter = Some ns →
  ns ≠ [] →
  0 <= currentIndex p → currentIndex p + len ns < 2 ^ 63 →
  ∃ p',
    GetProxyTimes (length ns) rnd m filter p
      = Some ((λ node, (node, None))
                <$> rotate (Z.to_nat (currentIndex p mod len ns)) ns, p') ∧
    currentIndex p' = currentIndex p + len ns.
Proof.
  intros Hmode Hf Hne Hc Hb.
  destruct (GetProxyTimes_sequential m filter ns (length ns) Hne rnd p Hmode Hf Hc Hb)
    as (p' & Htimes & Hc').
  exists p'. split; [| exact Hc']. rewrite Htimes. f_equal. f_equal.
  assert (0 < len ns) as Hlen by (unfold len; destruct ns; [done | simpl; lia]).
  apply list_eq. intros i. rewrite !list_lookup_fmap.
  destruct (decide (i < length ns)%nat) as [Hi | Hi].
  - rewrite lookup_seq_lt by done. rewrite lookup_rotate_r by done. simpl.
    unfold rotate_nat_add.
    pose proof (Z.mod_pos_bound (currentIndex p) (len ns) Hlen) as Hk.
    rewrite Z2Nat.id by lia. fold (len ns).
    rewrite Zplus_mod_idemp_l.
    pose proof (Z.mod_pos_bound (currentIndex p + Z.of_nat i) (len ns) Hlen) as Hj.
    destruct (lookup_lt_is_Some_2 ns (Z.to_nat ((currentIndex p + Z.of_nat i) mod len ns)))
      as [y Hy]; [unfold len in *; lia |].
    by rewrite Hy.
  - rewrite lookup_seq_ge by lia. rewrite lookup_ge_None_2; [done |].
    rewrite length_rotate. lia.
Qed.

Lemma GetProxy_round_robin_witness :
  let p := mkProxyPool PoolModeSequential
             [Some 1%positive; Some 2%positive; Some 3%positive; Some 4%positive]
             6 ∅ 0 false "" in
  ∃ p',
    GetProxyTimes 4 (λ _, 0) (mkMemory ∅ ∅) None p
      = Some ((λ node, (node, None))
                <$> [Some 3%positive; Some 4%positive; Some 1%positive; Some 2%positive], p') ∧
    currentIndex p' = 10.
Proof.
  intros p.
  apply (GetProxy_round_robin (λ _, 0) (mkMemory ∅ ∅) None p (nodes p));
    [reflexivity | reflexivity | discriminate | by vm_compute | by vm_compute].
Defined.

End rotation_more.

(** ** Latency-first selection *)

Section latency_first.

Local Open Scope Z_scope.

Lemma less_irrefl a : less a a = false.
Proof. unfold less. destruct (Z.ltb_spec a 0); [done |]. apply Z.ltb_irrefl. Qed.

Lemma less_asym a b : less a b = true → less b a = false.
Proof.
  unfold less.
  destruct (Z.ltb_spec a 0), (Z.ltb_spec b 0), (Z.ltb_spec a b), (Z.ltb_spec b a);
    try done; lia.
Qed.

Lemma less_negtrans a b c : less b a = false → less c b = false → less c a = false.
Proof.
  unfold less.
  destruct (Z.ltb_spec a 0), (Z.ltb_spec b 0), (Z.ltb_spec c 0),
    (Z.ltb_spec b a), (Z.ltb_spec c b), (Z.ltb_spec c a); try done; lia.
Qed.

(** Insertion keeps a list in the order of the comparison. *)
Lemma insertSorted_sorted x l :
  StronglySorted (λ a b : ptr * Z, less b.2 a.2 = false) l →
  StronglySorted (λ a b : ptr * Z, less b.2 a.2 = false) (insertSorted x l).
Proof.
  induction 1 as [| y l' Hs IH Hall]; simpl.
  - repeat constructor.
  - destruct (less y.2 x.2) eqn:Hlt.
    + constructor; [exact IH |]. rewrite (insertSorted_perm x l').
      constructor; [by apply less_asym | done].
    + constructor; [by constructor |]. constructor; [done |].
      eapply Forall_impl; [exact Hall |]. intros z Hz. simpl in *.
      by apply (less_negtrans _ y.2).
Qed.

Lemma foldr_insertSorted_sorted l :
  StronglySorted (λ a b : ptr * Z, less b.2 a.2 = false) (foldr insertSorted [] l).
Proof. induction l as [| x l IH]; simpl; [constructor | by apply insertSorted_sorted]. Qed.

Lemma filter_none {A : Type} (P : A → Prop) `{∀ x, Decision (P x)} (l : list A) :
  Forall (λ x, ¬ P x) l → filter P l = [].
Proof.
  induction 1 as [| x l Hx _ IH]; [done |]. by rewrite filter_cons, decide_False, IH.
Qed.

(** In a sorted list, the entries that the comparison puts strictly
    before the one at position [i] all stand before position [i]. *)
Lemma sorted_before (ks : list (ptr * Z)) (i : nat) (x : ptr) (lx : Z) :
  StronglySorted (λ a b : ptr * Z, less b.2 a.2 = false) ks →
  ks !! i = Some (x, lx) →
  (length (filter (λ pr : ptr * Z, less pr.2 lx = true) ks) <= i)%nat.
Proof.
  intros Hs. revert i. induction Hs as [| y l' Hs IH Hall]; intros i Hi; [done |].
  destruct i as [| i]; simpl in Hi.
  - injection Hi as ->. rewrite filter_none; [done |].
    constructor; simpl; [by rewrite less_irrefl |].
    eapply Forall_impl; [exact Hall |]. simpl. intros z ->. done.
  - specialize (IH i Hi). rewrite filter_cons. destruct (decide _); simpl; lia.
Qed.

(** Counting over the nodes is counting over their keyed entries. *)
Lemma better_keyed m (x : ptr) (lx : Z) (ks : list (ptr * Z)) :
  latencyOf m x = Some lx →
  Forall (λ pr : ptr * Z, latencyOf m pr.1 = Some pr.2) ks →
  length (filter (λ y, better m x y = true) ks.*1)
  = length (filter (λ pr : ptr * Z, less pr.2 lx = true) ks).
Proof.
  intros Hx. induction 1 as [| [q l] ks Hq _ IH]; [done |].
  rewrite fmap_cons, !filter_cons. simpl in *.
  assert (better m x q = less l lx) as -> by (unfold better; by rewrite Hq, Hx).
  destruct (decide _); simpl; by rewrite IH.
Qed.

Lemma mapM_keyed_latency m ns keyed :
  mapM (λ node, n ← derefNode m node; Some (node, EnhancedNode.Latency n)) ns = Some keyed →
  Forall (λ pr : ptr * Z, latencyOf m pr.1 = Some pr.2) keyed.
Proof.
  rewrite mapM_Some. induction 1 as [| node [q lat] ns keyed Hx _ IH]; [constructor |].
  constructor; [| exact IH]. simpl. unfold latencyOf.
  destruct (derefNode m node) as [n |] eqn:Hn; simpl in Hx; [| discriminate].
  injection Hx as <- <-. by rewrite Hn.
Qed.

(** X14: the latency-first strategy returns one of the three best
    candidates.  Of the candidates, at most two sort strictly before
    the node returned (a lower measured latency, or any measured
    latency when its own is unknown, that is negative), and no more
    than the draw modulo min(3, number of candidates): with draw 0 no
    candidate beats the node returned. *)
Theorem selectLatencyFirst_top3 (rnd : Z) (m : Memory) (ns : list ptr) (x : ptr) :
  ns ≠ [] →
  selectLatencyFirst rnd m ns = Some x →
  x ∈ ns ∧
  Z.of_nat (length (filter (λ y, better m x y = true) ns)) <= rnd mod Z.min 3 (len ns) ∧
  (length (filter (λ y, better m x y = true) ns) <= 2)%nat.
Proof.
  intros Hne Hsel.
  assert (isEmpty ns = false) as He by (by apply isEmpty_false).
  split; [by apply (selectLatencyFirst_elem rnd m) |].
  pose proof (len_pos ns He) as Hlen.
  pose proof (Z.mod_pos_bound rnd (Z.min 3 (len ns)) ltac:(lia)) as Hdraw.
  enough (Z.of_nat (length (filter (λ y, better m x y = true) ns))
          <= rnd mod Z.min 3 (len ns)) by lia.
  unfold selectLatencyFirst in Hsel. rewrite He in Hsel.
  destruct (sortByLatency m ns) as [sorted |] eqn:Hs; [| discriminate].
  cbn [mbind option_bind] in Hsel.
  assert (len sorted = len ns) as Hsl
    by (unfold len; by rewrite (sortByLatency_perm _ _ _ Hs)).
  rewrite Hsl in Hsel.
  replace (if len ns <? 3 then len ns else 3) with (Z.min 3 (len ns)) in Hsel
    by (destruct (Z.ltb_spec (len ns) 3); lia).
  unfold Intn in Hsel. destruct (Z.leb_spec (Z.min 3 (len ns)) 0); [lia |].
  cbn [mbind option_bind] in Hsel. unfold index in Hsel.
  destruct (Z.ltb_spec (rnd mod Z.min 3 (len ns)) 0); [lia |].
  set (i := Z.to_nat (rnd mod Z.min 3 (len ns))) in *.
  enough (length (filter (λ y, better m x y = true) ns) <= i)%nat by lia.
  unfold sortByLatency in Hs. destruct ns as [| a [| b rest]]; [done | |].
  - injection Hs as <-. destruct i; [| done]. injection Hsel as <-.
    rewrite filter_cons.
    assert (better m a a = false) as ->; [| done].
    unfold better. destruct (latencyOf m a); [apply less_irrefl | done].
  - destruct (mapM _ _) as [keyed |] eqn:Hk; [| discriminate].
    cbn [mbind option_bind] in Hs. injection Hs as <-.
    rewrite list_lookup_fmap in Hsel.
    destruct (foldr insertSorted [] keyed !! i) as [[q lx] |] eqn:Hi; [| discriminate].
    simpl in Hsel. injection Hsel as ->.
    pose proof (mapM_keyed_latency _ _ _ Hk) as Hlat.
    rewrite <- (foldr_insertSorted_perm keyed) in Hlat.
    assert (latencyOf m x = Some lx) as Hx.
    { rewrite Forall_forall in Hlat. apply (Hlat (x, lx)). by eapply list_elem_of_lookup_2. }
    rewrite <- (mapM_keyed_fst _ _ _ Hk).
    rewrite <- (foldr_insertSorted_perm keyed) at 1.
    rewrite (better_keyed m x lx _ Hx Hlat).
    apply (sorted_before _ _ x); [apply foldr_insertSorted_sorted | done].
Qed.

Lemma selectLatencyFirst_top3_witness :
  let m := mkMemory (list_to_map
                       [(1%positive, sampleNode "a" "JP" 200 "medium" "enabled" true);
                        (2%positive, sampleNode "b" "US" 50 "low" "enabled" true);
                        (3%positive, sampleNode "c" "US" (-1) "unknown" "enabled" true);
                        (4%positive, sampleNode "d" "DE" 100 "low" "enabled" true)]) ∅ in
  let ns := [Some 1%positive; Some 2%positive; Some 3%positive; Some 4%positive] in
  Some 4%positive ∈ ns ∧
  Z.of_nat (length (filter (λ y, better m (Some 4%positive) y = true) ns))
    <= 1 mod Z.min 3 (len ns) ∧
  (length (filter (λ y, better m (Some 4%positive) y = true) ns) <= 2)%nat.
Proof.
  intros m ns.
  apply (selectLatencyFirst_top3 1 m ns (Some 4%positive)); [discriminate | reflexivity].
Defined.

End latency_first.

(** ** The weighted lottery *)

Section lottery.

Local Open Scope Z_scope.

Lemma lotteryTotal_app m ws l1 l2 :
  lotteryTotal m ws (l1 ++ l2)%list = lotteryTotal m ws l1 + lotteryTotal m ws l2.
Proof.
  unfold lotteryTotal. induction l1 as [| a l1 IH]; simpl; [lia |]. rewrite IH. lia.
Qed.

Lemma lotteryTotal_nonneg m ws ns :
  (∀ y, y ∈ ns → 0 <= lotteryWeight m ws y) → 0 <= lotteryTotal m ws ns.
Proof.
  unfold lotteryTotal. induction ns as [| a ns IH]; intros Hw; simpl; [lia |].
  pose proof (Hw a ltac:(left)). pose proof (IH (λ y Hy, Hw y ltac:(by right))). lia.
Qed.

(** The first loop adds up the lottery weights. *)
Lemma sumWeights_lotteryTotal m ws ns total :
  (∀ y, y ∈ ns → is_Some (derefNode m y)) →
  (∀ y, y ∈ ns → 0 <= lotteryWeight m ws y) →
  0 <= total → total + lotteryTotal m ws ns < 2 ^ 63 →
  sumWeights m ws ns total = Some (total + lotteryTotal m ws ns).
Proof.
  revert total. induction ns as [| a ns IH]; intros total Hlive Hw H0 Hb.
  - simpl. f_equal. unfold lotteryTotal. simpl. lia.
  - pose proof (Hw a ltac:(left)) as Ha.
    pose proof (lotteryTotal_nonneg m ws ns (λ y Hy, Hw y ltac:(by right))) as Hrest.
    change (lotteryTotal m ws (a :: ns))
      with (lotteryWeight m ws a + lotteryTotal m ws ns) in *.
    simpl. unfold lotteryWeight in Ha, Hb |- *.
    destruct (Hlive a ltac:(left)) as [n Hn]. rewrite Hn in *. simpl.
    rewrite wrap64_small by (unfold in_int64; lia).
    rewrite IH; [f_equal; lia | | | lia | lia].
    + intros y Hy. apply Hlive. by right.
    + intros y Hy. apply Hw. by right.
Qed.

(** The second loop stops at the node whose interval holds the draw. *)
Lemma walkWeights_interval m ws pre x post r :
  (∀ y, y ∈ (pre ++ x :: post)%list → is_Some (derefNode m y)) →
  (∀ y, y ∈ (pre ++ x :: post)%list → 0 <= lotteryWeight m ws y < 2 ^ 63) →
  r < 2 ^ 63 →
  lotteryTotal m ws pre <= r < lotteryTotal m ws pre + lotteryWeight m ws x →
  walkWeights m ws (pre ++ x :: post)%list r = Some (Some x).
Proof.
  revert r. induction pre as [| a pre IH]; intros r Hlive Hw Hb Hr.
  - change (lotteryTotal m ws []) with 0 in Hr. simpl.
    pose proof (Hw x ltac:(left)) as Hx. unfold lotteryWeight in Hr, Hx.
    destruct (Hlive x ltac:(left)) as [n Hn]. rewrite Hn in *. simpl.
    rewrite wrap64_small by (unfold in_int64; lia).
    destruct (Z.ltb_spec (r - default 1 (ws !! EnhancedNode.Name n)) 0); [done | lia].
  - change (lotteryTotal m ws (a :: pre))
      with (lotteryWeight m ws a + lotteryTotal m ws pre) in Hr.
    pose proof (Hw a ltac:(left)) as Ha.
    pose proof (lotteryTotal_nonneg m ws pre) as Hpre.
    assert (0 <= lotteryTotal m ws pre) as Hp.
    { apply Hpre. intros y Hy. apply Hw. right. apply elem_of_app. by left. }
    destruct (Hlive a ltac:(left)) as [n Hn].
    assert (lotteryWeight m ws a = default 1 (ws !! EnhancedNode.Name n)) as Hwa
      by (unfold lotteryWeight; by rewrite Hn).
    simpl. rewrite Hn. simpl. rewrite <- Hwa.
    rewrite wrap64_small by (unfold in_int64; lia).
    destruct (Z.ltb_spec (r - lotteryWeight m ws a) 0); [lia |].
    apply IH; [| | lia | lia].
    + intros y Hy. apply Hlive. by right.
    + intros y Hy. apply Hw. by right.
Qed.

(** X15: the weighted strategy is a lottery in which every candidate
    holds as many tickets as its weight (the table's weight for its
    name, 1 for a name the table does not have).  The tickets are
    numbered along the candidate list; the draw, taken modulo the
    number of tickets, selects the candidate holding that ticket.  So
    of the equally likely remainders exactly weight-many select a
    given candidate.  (Weights are not negative and their sum fits a
    machine integer, as for any table built by a refresh.) *)
Theorem selectWeighted_lottery (rnd : Z) (m : Memory) (p : ProxyPool)
    (pre post : list ptr) (x : ptr) :
  let ns := (pre ++ x :: post)%list in
  (∀ y, y ∈ ns → is_Some (derefNode m y)) →
  (∀ y, y ∈ ns → 0 <= lotteryWeight m (weights p) y) →
  0 < lotteryTotal m (weights p) ns < 2 ^ 63 →
  lotteryTotal m (weights p) pre <= rnd mod lotteryTotal m (weights p) ns
    < lotteryTotal m (weights p) pre + lotteryWeight m (weights p) x →
  selectWeighted rnd m p ns = Some x.
Proof.
  intros ns Hlive Hw Ht Hr. unfold selectWeighted.
  assert (isEmpty ns = false) as -> by (subst ns; by destruct pre).
  rewrite (sumWeights_lotteryTotal m (weights p) ns 0 Hlive Hw) by lia.
  cbn [mbind option_bind]. rewrite Z.add_0_l.
  destruct (Z.eqb_spec (lotteryTotal m (weights p) ns) 0); [lia |].
  unfold Intn. destruct (Z.leb_spec (lotteryTotal m (weights p) ns) 0); [lia |].
  cbn [mbind option_bind].
  pose proof (Z.mod_pos_bound rnd (lotteryTotal m (weights p) ns) ltac:(lia)) as Hmod.
  subst ns. rewrite walkWeights_interval; [done | done | | lia | done].
  intros y Hy. split; [by apply Hw |].
  apply list_elem_of_split in Hy as (l1 & l2 & Heq). rewrite Heq in *.
  rewrite lotteryTotal_app in Ht.
  change (lotteryTotal m (weights p) (y :: l2))
    with (lotteryWeight m (weights p) y + lotteryTotal m (weights p) l2) in Ht.
  pose proof (lotteryTotal_nonneg m (weights p) l1) as H1.
  pose proof (lotteryTotal_nonneg m (weights p) l2) as H2.
  assert (0 <= lotteryTotal m (weights p) l1)
    by (apply H1; intros z Hz; apply Hw, elem_of_app; by left).
  assert (0 <= lotteryTotal m (weights p) l2)
    by (apply H2; intros z Hz; apply Hw, elem_of_app; right; by right).
  lia.
Qed.

Lemma selectWeighted_lottery_witness :
  let m := mkMemory (list_to_map
                       [(1%positive, sampleNode "a" "JP" 40 "low" "enabled" true);
                        (2%positive, sampleNode "b" "US" 150 "medium" "enabled" true);
                        (3%positive, sampleNode "c" "US" 900 "high" "enabled" true)]) ∅ in
  let p := mkProxyPool PoolModeWeighted [Some 1%positive; Some 2%positive; Some 3%positive]
             0 (list_to_map [("a", 100); ("b", 50)]) 150 false "" in
  selectWeighted 120 m p [Some 1%positive; Some 2%positive; Some 3%positive]
    = Some (Some 2%positive).
Proof.
  intros m p.
  apply (selectWeighted_lottery 120 m p [Some 1%positive] [Some 3%positive] (Some 2%positive)).
  - intros y Hy. repeat (apply elem_of_cons in Hy as [-> | Hy]); [by eexists .. |].
    by apply elem_of_nil in Hy.
  - intros y Hy. repeat (apply elem_of_cons in Hy as [-> | Hy]); [by vm_compute .. |].
    by apply elem_of_nil in Hy.
  - by vm_compute.
  - by vm_compute.
Defined.

End lottery.

(** ** The snapshot between refreshes *)

Section stale_snapshot.

Local Open Scope Z_scope.

Lemma sameButStatus_deref m m' x :
  sameButStatus m m' →
  option_Forall2
    (λ n n', EnhancedNode.Name n' = EnhancedNode.Name n ∧
             EnhancedNode.Latency n' = EnhancedNode.Latency n ∧
             ∀ f, rejects f n' = rejects f n)
    (derefNode m x) (derefNode m' x).
Proof.
  intros Hsame. destruct x as [l |]; simpl; [| constructor].
  destruct (Hsame l) as [n n' -> |]; constructor. by destruct n.
Qed.

Lemma sameButStatus_filterLoop m m' f ns acc :
  sameButStatus m m' → filterLoop m' f ns acc = filterLoop m f ns acc.
Proof.
  intros Hsame. revert acc. induction ns as [| x ns IH]; intros acc; simpl; [done |].
  destruct (sameButStatus_deref m m' x Hsame) as [n n' (_ & _ & Hrej) |]; simpl; [| done].
  by rewrite Hrej, IH.
Qed.

Lemma sameButStatus_getFilteredNodes m m' p filter :
  sameButStatus m m' → getFilteredNodes m' p filter = getFilteredNodes m p filter.
Proof.
  intros Hsame. destruct filter as [f |]; simpl; [| done].
  by apply sameButStatus_filterLoop.
Qed.

Lemma sameButStatus_candidates m m' filter p :
  sameButStatus m m' → candidates m' filter p = candidates m filter p.
Proof.
  intros Hsame. unfold candidates.
  rewrite (sameButStatus_getFilteredNodes m m' p filter Hsame).
  destruct filter as [f |]; [| done]. unfold getFallbackNodes.
  by rewrite !(sameButStatus_getFilteredNodes m m' p (Some _) Hsame).
Qed.

Lemma sameButStatus_keyed m m' ns :
  sameButStatus m m' →
  mapM (λ node, n ← derefNode m' node; Some (node, EnhancedNode.Latency n)) ns
  = mapM (λ node, n ← derefNode m node; Some (node, EnhancedNode.Latency n)) ns.
Proof.
  intros Hsame. induction ns as [| x ns IH]; [done |]. cbn [mapM]. rewrite IH.
  destruct (sameButStatus_deref m m' x Hsame) as [n n' (_ & Hlat & _) |]; [| done].
  cbn [mbind option_bind]. by rewrite Hlat.
Qed.

Lemma sameButStatus_sortByLatency m m' ns :
  sameButStatus m m' → sortByLatency m' ns = sortByLatency m ns.
Proof.
  intros Hsame. unfold sortByLatency. destruct ns as [| a [| b rest]]; try done.
  by rewrite (sameButStatus_keyed m m').
Qed.

Lemma sameButStatus_sumWeights m m' ws ns total :
  sameButStatus m m' → sumWeights m' ws ns total = sumWeights m ws ns total.
Proof.
  intros Hsame. revert total. induction ns as [| x ns IH]; intros total; simpl; [done |].
  destruct (sameButStatus_deref m m' x Hsame) as [n n' (Hname & _ & _) |]; simpl; [| done].
  rewrite Hname. apply IH.
Qed.

Lemma sameButStatus_walkWeights m m' ws ns r :
  sameButStatus m m' → walkWeights m' ws ns r = walkWeights m ws ns r.
Proof.
  intros Hsame. revert r. induction ns as [| x ns IH]; intros r; simpl; [done |].
  destruct (sameButStatus_deref m m' x Hsame) as [n n' (Hname & _ & _) |]; simpl; [| done].
  by rewrite Hname, IH.
Qed.

Lemma sameButStatus_selectByMode rnd m m' ns p :
  sameButStatus m m' → selectByMode rnd m' ns p = selectByMode rnd m ns p.
Proof.
  intros Hsame. unfold selectByMode, selectLatencyFirst, selectWeighted.
  rewrite (sameButStatus_sortByLatency m m' ns Hsame).
  rewrite (sameButStatus_sumWeights m m' _ ns 0 Hsame).
  repeat case_bool_decide; try done.
  destruct (isEmpty ns); [done |].
  destruct (sumWeights m (weights p) ns 0) as [total |]; [| done]. simpl.
  destruct (total =? 0); [done |]. destruct (Intn rnd total) as [r |]; [| done]. simpl.
  by rewrite (sameButStatus_walkWeights m m' _ ns r Hsame).
Qed.

Lemma sameButStatus_GetProxy rnd m m' filter p :
  sameButStatus m m' → GetProxy rnd m' filter p = GetProxy rnd m filter p.
Proof.
  intros Hsame. unfold GetProxy. rewrite (sameButStatus_candidates m m' filter p Hsame).
  destruct (candidates m filter p) as [ns |]; [| done]. simpl.
  by rewrite (sameButStatus_selectByMode rnd m m' ns p Hsame).
Qed.

Lemma SetNodeStatus_sameButStatus w name status s s' err :
  SetNodeStatus w name status s = Some (s', err) → sameButStatus (memory s) (memory s').
Proof.
  assert (∀ m, sameButStatus m m) as Hrefl.
  { intros m l. destruct (nodeObjs m !! l) as [n |]; constructor. by destruct n. }
  unfold SetNodeStatus. destruct (nodeStates (registry s) !! name) as [node |].
  - destruct node as [l |]; [| discriminate]. simpl.
    destruct (nodeObjs (memory s) !! l) as [n |] eqn:Hn; [| discriminate]. simpl.
    set (s1 := mkMachine _ _ _). intros Hsave.
    assert (memory s' = memory s1) as ->.
    { rewrite <- (save_memory w s1). by destruct (save w s1); simplify_eq. }
    subst s1. intros l'. cbn [memory storeNode nodeObjs]. destruct (decide (l' = l)) as [-> | Hne].
    + rewrite lookup_insert_eq, Hn. by constructor.
    + rewrite lookup_insert_ne by done. apply Hrefl.
  - intros [= <- _]. apply Hrefl.
Qed.

(** X16: the pool selects from its snapshot and never looks at a
    node's status.  After SetNodeStatus -- disabling or blacklisting a
    node, say -- GetProxy and GetProxyList on a pool that has not been
    refreshed return exactly what they would have returned before, the
    node whose status changed included; the change reaches the pool
    with the next RefreshNodes only. *)
Theorem SetNodeStatus_not_seen_by_pool (w : WriteResult) (name : string)
    (status : NodeStatus) (s s' : Machine) (err : option error)
    (rnd : Z) (filter : option Filter) (limit : Z) (p : ProxyPool) :
  SetNodeStatus w name status s = Some (s', err) →
  GetProxy rnd (memory s') filter p = GetProxy rnd (memory s) filter p ∧
  GetProxyList (memory s') filter limit p = GetProxyList (memory s) filter limit p.
Proof.
  intros Hset. apply SetNodeStatus_sameButStatus in Hset. split.
  - by apply sameButStatus_GetProxy.
  - unfold GetProxyList. by rewrite (sameButStatus_getFilteredNodes _ _ p filter Hset).
Qed.

Lemma SetNodeStatus_not_seen_by_pool_witness :
  let n := sampleNode "a" "JP" 40 "low" "enabled" true in
  let s := mkMachine (mkMemory {[ 1%positive := n ]} ∅)
             (mkStore "" ∅ {[ "a" := Some 1%positive ]} defaultLatencyConfig) NoFile in
  let s' := mkMachine (mkMemory {[ 1%positive := EnhancedNode.setStatus NodeStatusDisabled n ]} ∅)
              (registry s) NoFile in
  let p := mkProxyPool PoolModeSequential [Some 1%positive] 0 {[ "a" := 100 ]} 100 false "" in
  GetProxy 0 (memory s') None p
    = Some (Some 1%positive, None,
            mkProxyPool PoolModeSequential [Some 1%positive] 1 {[ "a" := 100 ]} 100 false "") ∧
  GetProxyList (memory s') None 0 p = Some [Some 1%positive].
Proof.
  intros n s s' p.
  apply (SetNodeStatus_not_seen_by_pool WriteOk "a" NodeStatusDisabled s s' None 0 None 0 p).
  reflexivity.
Defined.

End stale_snapshot.

(** ** Refresh and statistics *)

Section refresh.

Local Open Scope Z_scope.

(** The loop of [updateWeights]: what the table and the total hold
    when it ends. *)
Lemma addWeights_spec m ns ws total ws' total' :
  addWeights m ns ws total = Some (ws', total') →
  (∀ name w, ws' !! name = Some w →
     ws !! name = Some w ∨
     ∃ x n, x ∈ ns ∧ derefNode m x = Some n ∧ EnhancedNode.Name n = name ∧
            w = calculateWeight (EnhancedNode.Latency n)) ∧
  (∀ name, is_Some (ws !! name) → is_Some (ws' !! name)) ∧
  (∀ x n, x ∈ ns → derefNode m x = Some n → is_Some (ws' !! EnhancedNode.Name n)) ∧
  (0 <= total → total + 100 * len ns < 2 ^ 63 →
   total' = total + foldr (λ x acc, from_option (λ n, calculateWeight (EnhancedNode.Latency n))
                                       0 (derefNode m x) + acc) 0 ns).
Proof.
  revert ws total. induction ns as [| a ns IH]; intros ws total; simpl.
  - intros [= <- <-]. repeat split; try done.
    + by left.
    + by intros x n Hx%elem_of_nil.
    + lia.
  - destruct (derefNode m a) as [na |] eqn:Ha; [| discriminate]. simpl.
    intros Hrest. destruct (IH _ _ Hrest) as (Hfrom & Hkeep & Hdom & Htotal).
    split; [| split; [| split]].
    + intros name w Hw. destruct (Hfrom name w Hw) as [Hold | (x & n & Hx & Hn & Hname & ->)].
      * destruct (decide (EnhancedNode.Name na = name)) as [<- | Hne].
        -- rewrite lookup_insert_eq in Hold. injection Hold as <-.
           right. exists a, na. by split; [left |].
        -- rewrite lookup_insert_ne in Hold by done. by left.
      * right. exists x, n. by split; [right |].
    + intros name Hname. apply Hkeep.
      destruct (decide (EnhancedNode.Name na = name)) as [<- | Hne].
      * rewrite lookup_insert_eq. by eexists.
      * by rewrite lookup_insert_ne.
    + intros x n [-> | Hx]%elem_of_cons Hn.
      * rewrite Ha in Hn. injection Hn as <-. apply Hkeep.
        rewrite lookup_insert_eq. by eexists.
      * by apply (Hdom x).
    + intros H0 Hb. pose proof (calculateWeight_range (EnhancedNode.Latency na)) as Hr.
      unfold len in *. simpl length in Hb.
      rewrite wrap64_small in Htotal by (unfold in_int64; lia).
      rewrite Htotal by lia. lia.
Qed.

(** X17: RefreshNodes replaces the snapshot by the current listing of
    enabled and available nodes and rebuilds the weights from nothing:
    the table then holds exactly the names of the snapshot nodes, each
    with the weight calculateWeight gives the latency of a snapshot
    node of that name, so no weight of a node that left the registry
    survives; the total is the sum of the weights of all snapshot
    nodes.  Mode, rotation counter, fallback flag and API key are
    kept. *)
Theorem RefreshNodes_spec (rangeMap : gmap string ptr → list (string * ptr))
    (s : Machine) (p p' : ProxyPool) :
  RefreshNodes rangeMap s p = Some p' →
  ListAvailableNodes rangeMap s = Some (nodes p') ∧
  mode p' = mode p ∧ currentIndex p' = currentIndex p ∧
  fallbackEnabled p' = fallbackEnabled p ∧ apiKey p' = apiKey p ∧
  (∀ name w, weights p' !! name = Some w →
     ∃ x n, x ∈ nodes p' ∧ derefNode (memory s) x = Some n ∧ EnhancedNode.Name n = name ∧
            w = calculateWeight (EnhancedNode.Latency n)) ∧
  (∀ x n, x ∈ nodes p' → derefNode (memory s) x = Some n →
     is_Some (weights p' !! EnhancedNode.Name n)) ∧
  (100 * len (nodes p') < 2 ^ 63 →
   totalWeight p'
   = foldr (λ x acc, from_option (λ n, calculateWeight (EnhancedNode.Latency n))
                        0 (derefNode (memory s) x) + acc) 0 (nodes p')).
Proof.
  intros Hr. split; [by apply RefreshNodes_nodes in Hr |].
  unfold RefreshNodes in Hr.
  destruct (ListAvailableNodes rangeMap s) as [ns |]; [| discriminate].
  cbn [mbind option_bind] in Hr. unfold updateWeights in Hr. cbn [nodes] in Hr.
  destruct (addWeights (memory s) ns ∅ 0) as [[ws total] |] eqn:Ha; [| discriminate].
  cbn [mbind option_bind] in Hr. injection Hr as <-. cbn.
  destruct (addWeights_spec _ _ _ _ _ _ Ha) as (Hfrom & _ & Hdom & Htotal).
  repeat split; try done.
  - intros name w Hw. destruct (Hfrom name w Hw) as [Hold | Hnew]; [| done].
    by rewrite lookup_empty in Hold.
  - intros Hb. rewrite Htotal; [lia | lia | lia].
Qed.

End refresh.

Section refresh_example.

Local Open Scope Z_scope.

Lemma RefreshNodes_spec_witness :
  let a := sampleNode "a" "JP" 40 "low" "enabled" true in
  let b := sampleNode "b" "US" 250 "medium" "enabled" true in
  let c := sampleNode "c" "US" 20 "low" "disabled" true in
  let s := mkMachine (mkMemory (list_to_map [(1%positive, a); (2%positive, b); (3%positive, c)]) ∅)
             (mkStore "" ∅ (list_to_map [("a", Some 1%positive); ("b", Some 2%positive);
                                         ("c", Some 3%positive)])
                defaultLatencyConfig) NoFile in
  let p := mkProxyPool PoolModeWeighted [Some 3%positive] 7 {[ "c" := 100 ]} 100 true "k" in
  ∃ p',
    RefreshNodes map_to_list s p = Some p' ∧
    weights p' = {[ "a" := 100; "b" := 30 ]} ∧ totalWeight p' = 130 ∧
    currentIndex p' = 7.
Proof.
  intros a b c s p.
  destruct (RefreshNodes map_to_list s p) as [p' |] eqn:Hr; [| by vm_compute in Hr].
  exists p'. split; [reflexivity |].
  destruct (RefreshNodes_spec map_to_list s p p' Hr) as (_ & _ & Hc & _ & _ & _ & _ & Ht).
  assert (Hr' := Hr). vm_compute in Hr'. injection Hr' as <-.
  split; [by vm_compute |]. split; [| exact Hc].
  rewrite Ht; by vm_compute.
Defined.

End refresh_example.

Section statistics.

Local Open Scope Z_scope.

(** One counter of [Stats]: after the loop the entry of a key holds the
    number of nodes in its bucket, and a key no node falls under has no
    entry.  [proj] selects one of the three maps. *)
Lemma countNodes_bucket (proj : PoolStats → gmap string Z) (bucket : EnhancedNode → string)
    (m : Memory) (key : string) :
  (∀ st n,
     proj (PoolStats.mk (PoolStats.TotalNodes st) (PoolStats.Mode st)
             (increment (EnhancedNode.LatencyLevel n) (PoolStats.ByLatency st))
             (increment (regionBucket n) (PoolStats.ByRegion st))
             (increment (subscriptionBucket n) (PoolStats.BySubscription st)))
     = increment (bucket n) (proj st)) →
  ∀ ns st st',
    countNodes m ns st = Some st' →
    0 <= default 0 (proj st !! key) →
    default 0 (proj st !! key) + len ns < 2 ^ 63 →
    (is_Some (proj st !! key) → 0 < default 0 (proj st !! key)) →
    proj st' !! key
    = (let c := default 0 (proj st !! key) + countIn m bucket key ns in
       if c =? 0 then None else Some c).
Proof.
  intros Hstep. unfold countIn, len.
  induction ns as [| a ns IH]; intros st st' Hcount H0 Hb Hinv.
  - injection Hcount as <-. simpl. rewrite Z.add_0_r.
    destruct (proj st !! key) as [c |] eqn:Hc; simpl in *.
    + specialize (Hinv ltac:(by eexists)). destruct (Z.eqb_spec c 0); [lia | done].
    + done.
  - simpl in Hcount. destruct (derefNode m a) as [n |] eqn:Ha; [| discriminate].
    simpl in Hcount. simpl length in Hb. apply IH in Hcount; rewrite ?Hstep in *.
    + rewrite Hcount. rewrite filter_cons, Ha. simpl. unfold increment.
      destruct (decide (Some (bucket n) = Some key)) as [[= <-] | Hne].
      * rewrite lookup_insert_eq. simpl.
        rewrite wrap64_small by (unfold in_int64; lia).
        simpl length. by replace (default 0 (proj st !! bucket n) + 1
                                 + Z.of_nat (length (filter _ ns)))
          with (default 0 (proj st !! bucket n) + Z.of_nat (S (length (filter
                  (λ node, bucket <$> derefNode m node = Some (bucket n)) ns)))) by lia.
      * rewrite lookup_insert_ne by congruence. done.
    + unfold increment. destruct (decide (bucket n = key)) as [<- | Hne].
      * rewrite lookup_insert_eq. simpl. rewrite wrap64_small by (unfold in_int64; lia). lia.
      * by rewrite lookup_insert_ne.
    + unfold increment. destruct (decide (bucket n = key)) as [<- | Hne].
      * rewrite lookup_insert_eq. simpl. rewrite wrap64_small by (unfold in_int64; lia). lia.
      * rewrite lookup_insert_ne by done. lia.
    + unfold increment. destruct (decide (bucket n = key)) as [<- | Hne].
      * rewrite lookup_insert_eq. simpl. rewrite wrap64_small by (unfold in_int64; lia). lia.
      * by rewrite lookup_insert_ne.
Qed.

Lemma countNodes_fields m ns st st' :
  countNodes m ns st = Some st' →
  PoolStats.TotalNodes st' = PoolStats.TotalNodes st ∧ PoolStats.Mode st' = PoolStats.Mode st.
Proof.
  revert st. induction ns as [| a ns IH]; intros st; simpl; [by intros [= <-] |].
  destruct (derefNode m a) as [n |]; [| discriminate]. simpl.
  intros H. by apply IH in H.
Qed.

(** X18: Stats first refreshes the pool, then counts the refreshed
    snapshot: total_nodes is its length, mode the pool's mode, and in
    each of the three maps a key holds the number of snapshot nodes in
    its bucket -- the tier; the region, "unknown" for a node without
    one; the subscription name, "manual" for a node without one -- and
    a key no node falls under is absent rather than 0. *)
Theorem Stats_counts (rangeMap : gmap string ptr → list (string * ptr))
    (s : Machine) (p p' : ProxyPool) (stats : PoolStats) :
  Stats rangeMap s p = Some (stats, p') →
  len (nodes p') < 2 ^ 63 →
  RefreshNodes rangeMap s p = Some p' ∧
  PoolStats.TotalNodes stats = len (nodes p') ∧
  PoolStats.Mode stats = mode p ∧
  ∀ key,
    let tally (c : Z) := if c =? 0 then None else Some c in
    PoolStats.ByLatency stats !! key
      = tally (countIn (memory s) EnhancedNode.LatencyLevel key (nodes p')) ∧
    PoolStats.ByRegion stats !! key
      = tally (countIn (memory s) regionBucket key (nodes p')) ∧
    PoolStats.BySubscription stats !! key
      = tally (countIn (memory s) subscriptionBucket key (nodes p')).
Proof.
  unfold Stats. intros Hstats Hlen.
  destruct (RefreshNodes rangeMap s p) as [q |] eqn:Hr; [| discriminate].
  cbn [mbind option_bind] in Hstats.
  destruct (countNodes _ _ _) as [st |] eqn:Hc; [| discriminate].
  cbn [mbind option_bind] in Hstats. injection Hstats as -> ->.
  split; [done |]. destruct (countNodes_fields _ _ _ _ Hc) as [-> ->]. cbn.
  split; [done |]. split.
  { unfold RefreshNodes in Hr. destruct (ListAvailableNodes rangeMap s); [| discriminate].
    cbn [mbind option_bind] in Hr. unfold updateWeights in Hr.
    destruct (addWeights _ _ _ _) as [[ws t] |]; [| discriminate]. by injection Hr as <-. }
  intros key.
  split; [| split].
  - rewrite (countNodes_bucket PoolStats.ByLatency EnhancedNode.LatencyLevel _ key
               ltac:(done) _ _ _ Hc); cbn; rewrite ?lookup_empty; simpl; try done; try lia;
      try (by intros [c [=]]).
  - rewrite (countNodes_bucket PoolStats.ByRegion regionBucket _ key
               ltac:(done) _ _ _ Hc); cbn; rewrite ?lookup_empty; simpl; try done; try lia;
      try (by intros [c [=]]).
  - rewrite (countNodes_bucket PoolStats.BySubscription subscriptionBucket _ key
               ltac:(done) _ _ _ Hc); cbn; rewrite ?lookup_empty; simpl; try done; try lia;
      try (by intros [c [=]]).
Qed.

End statistics.

Section statistics_example.

Local Open Scope Z_scope.

Lemma Stats_counts_witness :
  let a := sampleNode "a" "JP" 40 "low" "enabled" true in
  let b := sampleNode "b" "" 250 "medium" "enabled" true in
  let c := sampleNode "c" "unknown" 20 "low" "enabled" true in
  let d := sampleNode "d" "JP" 20 "low" "disabled" true in
  let s := mkMachine (mkMemory (list_to_map [(1%positive, a); (2%positive, b); (3%positive, c);
                                             (4%positive, d)]) ∅)
             (mkStore "" ∅ (list_to_map [("a", Some 1%positive); ("b", Some 2%positive);
                                         ("c", Some 3%positive); ("d", Some 4%positive)])
                defaultLatencyConfig) NoFile in
  let p := NewProxyPool (Config.mk "" false "") in
  ∃ stats p',
    Stats map_to_list s p = Some (stats, p') ∧
    PoolStats.TotalNodes stats = 3 ∧
    PoolStats.Mode stats = PoolModeSequential ∧
    PoolStats.ByLatency stats !! "low" = Some 2 ∧
    PoolStats.ByLatency stats !! "high" = None ∧
    PoolStats.ByRegion stats !! "unknown" = Some 2 ∧
    PoolStats.BySubscription stats !! "manual" = Some 3.
Proof.
  intros a b c d s p.
  destruct (Stats map_to_list s p) as [[stats p'] |] eqn:Hs; [| by vm_compute in Hs].
  exists stats, p'. split; [reflexivity |].
  assert (len (nodes p') < 2 ^ 63) as Hlen.
  { assert (Hs' := Hs). vm_compute in Hs'. injection Hs' as _ <-. by vm_compute. }
  destruct (Stats_counts map_to_list s p p' stats Hs Hlen) as (Hr & Ht & Hm & Hk).
  assert (Hs' := Hs). vm_compute in Hs'. injection Hs' as _ <-.
  split; [rewrite Ht; by vm_compute |]. split; [exact Hm |].
  destruct (Hk "low") as (Hl & _ & _). destruct (Hk "high") as (Hh & _ & _).
  destruct (Hk "unknown") as (_ & Hu & _). destruct (Hk "manual") as (_ & _ & Hn).
  split; [rewrite Hl; by vm_compute |]. split; [rewrite Hh; by vm_compute |].
  split; [rewrite Hu; by vm_compute |]. rewrite Hn; by vm_compute.
Defined.

End statistics_example.

(** ** Groupings *)

Section groupings.

Local Open Scope Z_scope.

Variable rangeMap : gmap string ptr → list (string * ptr).

Lemma appendIf_ext m (test test' : EnhancedNode → bool) entries acc :
  (∀ n, test n = test' n) → appendIf m test entries acc = appendIf m test' entries acc.
Proof.
  intros Hext. revert acc. induction entries as [| [k node] rest IH]; intros acc; simpl;
    [done |].
  destruct (derefNode m node) as [n |]; simpl; [| done]. by rewrite Hext, IH.
Qed.

(** The group of a key is what a listing loop testing for that key
    collects, and a key with no node has no group. *)
Lemma groupBy_appendIf m key entries result groups k :
  groupBy m key entries result = Some groups →
  result !! k ≠ Some [] →
  ∃ ns,
    appendIf m (λ n, bool_decide (key n = k) && enabledAndAvailable n) entries
      (default [] (result !! k)) = Some ns ∧
    groups !! k = (if isEmpty ns then None else Some ns).
Proof.
  revert result. induction entries as [| [k0 node] rest IH]; intros result; simpl.
  - intros [= <-] Hne. eexists. split; [reflexivity |].
    destruct (result !! k) as [[| a l] |]; done.
  - destruct (derefNode m node) as [n |]; simpl; [| discriminate].
    intros Hg Hne. destruct (enabledAndAvailable n).
    + destruct (decide (key n = k)) as [<- | Hk].
      * rewrite bool_decide_eq_true_2 by done. simpl.
        destruct (IH _ Hg) as (ns & Hns & Hgroup).
        { rewrite lookup_insert_eq. intros [= H]. by destruct (default [] _). }
        rewrite lookup_insert_eq in Hns. simpl in Hns. by exists ns.
      * rewrite bool_decide_eq_false_2 by done. simpl.
        destruct (IH _ Hg) as (ns & Hns & Hgroup).
        { by rewrite lookup_insert_ne. }
        rewrite lookup_insert_ne in Hns by done. by exists ns.
    + rewrite andb_false_r. by apply IH.
Qed.

(** X19: grouping agrees with listing.  In the map GetGroupedByLatency
    returns, the group of a tier is the list ListNodesByLatency returns
    for that tier, in the same order (for one enumeration order of the
    node map), and a tier with no enabled and available node has no
    key at all rather than an empty group. *)
Theorem GetGroupedByLatency_groups (s : Machine) (groups : gmap string (list ptr)) :
  GetGroupedByLatency rangeMap s = Some groups →
  ∀ level,
    ∃ ns, ListNodesByLatency rangeMap level s = Some ns ∧
          groups !! level = (if isEmpty ns then None else Some ns).
Proof.
  unfold GetGroupedByLatency, ListNodesByLatency. intros Hg level.
  destruct (groupBy_appendIf _ _ _ _ _ level Hg) as (ns & Hns & Hgroup);
    [by rewrite lookup_empty |].
  rewrite lookup_empty in Hns. by exists ns.
Qed.

(** X20: in the map GetGroupedByRegion returns, the group of a region
    code is the list ListNodesByRegion returns for it; the group
    "unknown" holds the nodes with no region together with those whose
    region is literally "unknown"; there is never a group for the
    empty code, and a region with no enabled and available node has no
    key. *)
Theorem GetGroupedByRegion_groups (s : Machine) (groups : gmap string (list ptr)) :
  GetGroupedByRegion rangeMap s = Some groups →
  groups !! "" = None ∧
  (∀ region, region ≠ "" → region ≠ "unknown" →
     ∃ ns, ListNodesByRegion rangeMap region s = Some ns ∧
           groups !! region = (if isEmpty ns then None else Some ns)) ∧
  ∃ blank named,
    ListNodesByRegion rangeMap "" s = Some blank ∧
    ListNodesByRegion rangeMap "unknown" s = Some named ∧
    ∀ x, x ∈ default [] (groups !! "unknown") ↔ x ∈ blank ∨ x ∈ named.
Proof.
  unfold GetGroupedByRegion, ListNodesByRegion. intros Hg.
  split; [| split].
  - destruct (groupBy_appendIf _ _ _ _ _ "" Hg) as (ns & Hns & Hgroup);
      [by rewrite lookup_empty |].
    rewrite lookup_empty in Hns. simpl in Hns. rewrite Hgroup.
    destruct ns as [| x ns]; [done |]. exfalso.
    assert (x ∈ x :: ns) as Hx by left.
    apply (appendIf_elem _ _ _ _ _ Hns) in Hx as [Hx | (k & n & _ & _ & Ht)];
      [by apply not_elem_of_nil in Hx |].
    apply andb_true_iff in Ht as [Ht _]. apply bool_decide_eq_true in Ht.
    by case_bool_decide.
  - intros region Hne Hunk.
    destruct (groupBy_appendIf _ _ _ _ _ region Hg) as (ns & Hns & Hgroup);
      [by rewrite lookup_empty |].
    rewrite lookup_empty in Hns. simpl in Hns. exists ns. split; [| done].
    rewrite <- Hns. apply appendIf_ext. intros n. f_equal.
    repeat case_bool_decide; congruence.
  - destruct (groupBy_appendIf _ _ _ _ _ "unknown" Hg) as (ns & Hns & Hgroup);
      [by rewrite lookup_empty |].
    rewrite lookup_empty in Hns. simpl in Hns.
    assert (default [] (groups !! "unknown") = ns) as ->
      by (rewrite Hgroup; by destruct ns).
    assert (is_Some (appendIf (memory s)
                       (λ n, bool_decide (EnhancedNode.Region n = "") && enabledAndAvailable n)
                       (rangeMap (nodeStates (registry s))) [])) as [blank Hblank].
    { apply appendIf_is_Some. intros k p Hin.
      clear -Hns Hin. revert Hns. generalize (@nil ptr).
      induction (rangeMap (nodeStates (registry s))) as [| [k0 node] rest IH]; intros acc;
        [by apply not_elem_of_nil in Hin |].
      simpl. destruct (derefNode (memory s) node) as [n |] eqn:Hn; simpl; [| discriminate].
      intros H. apply elem_of_cons in Hin as [[= -> ->] | Hin]; [by eexists |].
      by apply (IH Hin _ H). }
    assert (is_Some (appendIf (memory s)
                       (λ n, bool_decide (EnhancedNode.Region n = "unknown")
                             && enabledAndAvailable n)
                       (rangeMap (nodeStates (registry s))) [])) as [named Hnamed].
    { apply appendIf_is_Some. intros k p Hin.
      clear -Hns Hin. revert Hns. generalize (@nil ptr).
      induction (rangeMap (nodeStates (registry s))) as [| [k0 node] rest IH]; intros acc;
        [by apply not_elem_of_nil in Hin |].
      simpl. destruct (derefNode (memory s) node) as [n |] eqn:Hn; simpl; [| discriminate].
      intros H. apply elem_of_cons in Hin as [[= -> ->] | Hin]; [by eexists |].
      by apply (IH Hin _ H). }
    exists blank, named. split; [done |]. split; [done |]. intros x.
    rewrite (appendIf_elem _ _ _ _ _ Hns x), (appendIf_elem _ _ _ _ _ Hblank x),
      (appendIf_elem _ _ _ _ _ Hnamed x).
    split.
    + intros [Hx | (k & n & Hin & Hn & Ht)]; [by apply not_elem_of_nil in Hx |].
      apply andb_true_iff in Ht as [Ht Hsel]. apply bool_decide_eq_true in Ht.
      case_bool_decide as Hr.
      * left. right. exists k, n. by rewrite bool_decide_eq_true_2.
      * right. right. exists k, n. by rewrite bool_decide_eq_true_2.
    + intros [[Hx | (k & n & Hin & Hn & Ht)] | [Hx | (k & n & Hin & Hn & Ht)]];
        try (by apply not_elem_of_nil in Hx);
        apply andb_true_iff in Ht as [Ht Hsel]; apply bool_decide_eq_true in Ht;
        right; exists k, n; rewrite Hsel, andb_true_r; repeat split; try done;
        apply bool_decide_eq_true; by case_bool_decide.
Qed.

End groupings.

Section groupings_example.

Local Open Scope Z_scope.

Lemma GetGroupedByLatency_groups_witness :
  let s := mkMachine (mkMemory (list_to_map
                        [(1%positive, sampleNode "a" "JP" 40 "low" "enabled" true);
                         (2%positive, sampleNode "b" "" 250 "medium" "enabled" true);
                         (3%positive, sampleNode "c" "unknown" 20 "low" "enabled" true);
                         (4%positive, sampleNode "d" "JP" 20 "low" "disabled" true)]) ∅)
             (mkStore "" ∅ (list_to_map [("a", Some 1%positive); ("b", Some 2%positive);
                                         ("c", Some 3%positive); ("d", Some 4%positive)])
                defaultLatencyConfig) NoFile in
  ∃ groups,
    GetGroupedByLatency map_to_list s = Some groups ∧
    (∃ ns, ListNodesByLatency map_to_list "low" s = Some ns ∧ ns ≠ [] ∧
           groups !! "low" = Some ns) ∧
    groups !! "high" = None.
Proof.
  intros s.
  destruct (GetGroupedByLatency map_to_list s) as [groups |] eqn:Hg; [| by vm_compute in Hg].
  exists groups. split; [reflexivity |].
  destruct (GetGroupedByLatency_groups map_to_list s groups Hg "low") as (low & Hlow & Hgl).
  destruct (GetGroupedByLatency_groups map_to_list s groups Hg "high") as (high & Hhigh & Hgh).
  split.
  - exists low. split; [exact Hlow |].
    assert (Hl := Hlow). vm_compute in Hl. injection Hl as <-. split; [discriminate | exact Hgl].
  - assert (Hh := Hhigh). vm_compute in Hh. injection Hh as <-. exact Hgh.
Defined.

Lemma GetGroupedByRegion_groups_witness :
  let s := mkMachine (mkMemory (list_to_map
                        [(1%positive, sampleNode "a" "JP" 40 "low" "enabled" true);
                         (2%positive, sampleNode "b" "" 250 "medium" "enabled" true);
                         (3%positive, sampleNode "c" "unknown" 20 "low" "enabled" true)]) ∅)
             (mkStore "" ∅ (list_to_map [("a", Some 1%positive); ("b", Some 2%positive);
                                         ("c", Some 3%positive)])
                defaultLatencyConfig) NoFile in
  ∃ groups,
    GetGroupedByRegion map_to_list s = Some groups ∧
    groups !! "" = None ∧
    (Some 2%positive ∈ default [] (groups !! "unknown") ∧
     Some 3%positive ∈ default [] (groups !! "unknown")).
Proof.
  intros s.
  destruct (GetGroupedByRegion map_to_list s) as [groups |] eqn:Hg; [| by vm_compute in Hg].
  exists groups. split; [reflexivity |].
  destruct (GetGroupedByRegion_groups map_to_list s groups Hg)
    as (Hempty & _ & blank & named & Hb & Hn & Hiff).
  split; [exact Hempty |].
  vm_compute in Hb, Hn. injection Hb as <-. injection Hn as <-.
  split; apply Hiff; [left | right]; by apply list_elem_of_singleton.
Defined.

End groupings_example.

(** ** Regions *)

Section regions_more.

Import node.

(** The loop of [GetAllRegions] keeps one region per code. *)
Lemma collectRegions_spec entries seen result :
  (∀ c, c ∈ seen ↔ c ∈ RegionInfo.Code <$> result) →
  NoDup (RegionInfo.Code <$> result) →
  NoDup (RegionInfo.Code <$> collectRegions entries seen result) ∧
  (∀ c, c ∈ RegionInfo.Code <$> collectRegions entries seen result ↔
        c ∈ RegionInfo.Code <$> result ∨ c ∈ RegionInfo.Code <$> entries.*2) ∧
  (∀ info, info ∈ collectRegions entries seen result →
           info ∈ result ∨ info ∈ entries.*2).
Proof.
  revert seen result. induction entries as [| [key info] rest IH]; intros seen result Hseen Hnd.
  - simpl. split; [done |]. split; [| by left].
    intros c. split; [by left |]. intros [H | H]; [done |]. by apply elem_of_nil in H.
  - cbn [collectRegions]. rewrite !fmap_cons. cbn [snd].
    case_bool_decide as Hin.
    + destruct (IH seen result Hseen Hnd) as (Hnd' & Hcodes & Hfrom).
      split; [done |]. split.
      * intros c. rewrite Hcodes, elem_of_cons. split; [tauto |].
        intros [H | [-> | H]]; [by left | left; by apply Hseen | by right].
      * intros i Hi. destruct (Hfrom i Hi) as [H | H]; [by left |].
        right. by right.
    + destruct (IH ({[RegionInfo.Code info]} ∪ seen) (result ++ [info])%list)
        as (Hnd' & Hcodes & Hfrom).
      * intros c. rewrite fmap_app, elem_of_app, elem_of_union, elem_of_singleton, Hseen.
        rewrite list_fmap_singleton, list_elem_of_singleton. tauto.
      * rewrite fmap_app. apply NoDup_app. split; [done |]. split.
        -- intros c Hc. rewrite list_fmap_singleton, list_elem_of_singleton.
           intros ->. apply Hin. by apply Hseen.
        -- apply NoDup_singleton.
      * split; [done |]. split.
        -- intros c. rewrite Hcodes, fmap_app, elem_of_app, elem_of_cons.
           rewrite list_fmap_singleton, list_elem_of_singleton. tauto.
        -- intros i Hi. destruct (Hfrom i Hi) as [H | H].
           ++ apply elem_of_app in H as [H | ->%list_elem_of_singleton]; [by left |].
              right. left.
           ++ right. by right.
Qed.

(** In the table a code always comes with the same name and flag. *)
Lemma regionPatterns_code_info (i1 i2 : RegionInfo) :
  i1 ∈ regionPatterns.*2 → i2 ∈ regionPatterns.*2 →
  RegionInfo.Code i1 = RegionInfo.Code i2 → i1 = i2.
Proof.
  assert (forallb (λ a, forallb (λ b,
            implb (String.eqb (RegionInfo.Code a) (RegionInfo.Code b))
                  (String.eqb (RegionInfo.Name a) (RegionInfo.Name b)
                   && String.eqb (RegionInfo.Flag a) (RegionInfo.Flag b)))
            (regionPatterns.*2)) (regionPatterns.*2) = true) as Hall
    by (vm_compute; reflexivity).
  intros H1%list_elem_of_In H2%list_elem_of_In Hcode.
  rewrite forallb_forall in Hall. specialize (Hall i1 H1).
  rewrite forallb_forall in Hall. specialize (Hall i2 H2).
  apply String.eqb_eq in Hcode. rewrite Hcode in Hall. simpl in Hall.
  apply andb_true_iff in Hall as [Hn%String.eqb_eq Hf%String.eqb_eq].
  apply String.eqb_eq in Hcode. destruct i1, i2. simpl in *. congruence.
Qed.

(** X21: whatever order the runtime enumerates the table in,
    GetAllRegions returns the same 33 regions, each once: no code
    occurs twice, and a region is returned exactly when the table
    holds it.  Only the order of the result depends on the
    enumeration. *)
Theorem GetAllRegions_spec (patternOrder : list (string * RegionInfo)) :
  patternOrder ≡ₚ regionPatterns →
  NoDup (RegionInfo.Code <$> GetAllRegions patternOrder) ∧
  (∀ info, info ∈ GetAllRegions patternOrder ↔ info ∈ regionPatterns.*2) ∧
  GetAllRegions patternOrder ≡ₚ GetAllRegions regionPatterns ∧
  length (GetAllRegions patternOrder) = 33%nat.
Proof.
  intros Hperm. unfold GetAllRegions.
  assert (∀ order, order ≡ₚ regionPatterns →
            NoDup (RegionInfo.Code <$> collectRegions order ∅ []) ∧
            ∀ info, info ∈ collectRegions order ∅ [] ↔ info ∈ regionPatterns.*2) as Hany.
  { intros order Ho.
    destruct (collectRegions_spec order ∅ []) as (Hnd & Hcodes & Hfrom).
    { intros c. split; [by intros ?%elem_of_empty | by intros ?%elem_of_nil]. }
    { constructor. }
    split; [done |]. intros info. split.
    - intros Hi. destruct (Hfrom info Hi) as [H | H]; [by apply elem_of_nil in H |].
      by rewrite <- Ho.
    - intros Hi.
      assert (RegionInfo.Code info ∈ RegionInfo.Code <$> collectRegions order ∅ []) as Hc.
      { apply Hcodes. right. apply list_elem_of_fmap. exists info. by rewrite Ho. }
      apply list_elem_of_fmap in Hc as (info' & Hcode & Hin').
      destruct (Hfrom info' Hin') as [H | H]; [by apply elem_of_nil in H |].
      rewrite Ho in H. by rewrite (regionPatterns_code_info info info' Hi H Hcode). }
  destruct (Hany patternOrder Hperm) as [Hnd Hiff].
  destruct (Hany regionPatterns ltac:(done)) as [Hnd0 Hiff0].
  assert (collectRegions patternOrder ∅ [] ≡ₚ collectRegions regionPatterns ∅ []) as Hp.
  { apply NoDup_Permutation.
    - by apply NoDup_fmap_1 in Hnd.
    - by apply NoDup_fmap_1 in Hnd0.
    - intros info. by rewrite Hiff, Hiff0. }
  split; [done |]. split; [done |]. split; [done |]. by rewrite Hp.
Qed.

Lemma GetAllRegions_spec_witness :
  NoDup (RegionInfo.Code <$> GetAllRegions (reverse regionPatterns)) ∧
  (∀ info, info ∈ GetAllRegions (reverse regionPatterns) ↔ info ∈ regionPatterns.*2) ∧
  GetAllRegions (reverse regionPatterns) ≡ₚ GetAllRegions regionPatterns ∧
  length (GetAllRegions (reverse regionPatterns)) = 33%nat.
Proof.
  apply (GetAllRegions_spec (reverse regionPatterns)). apply reverse_Permutation.
Defined.



End regions_more.
